(** * org2mind: an outline document turned into a jsMind node tree

    A shallow embedding of [org2mind.py] and the properties of its parser,
    tree builder and color allocator.

    Conventions of the embedding.
    - A Python [str] is a [string]; a character is a code point below 256.
    - [Node] objects live in a heap (a list indexed by reference, in
      allocation order); the ancestor stack and the [children] lists hold
      references, so that [add_child] mutates the one shared object.
    - The two sources of randomness are explicit parts of the world: the
      stream of indices drawn by [random.choice] (fixed by [random.seed]) and
      the stream of identifiers produced by [uuid.uuid4] (operating system
      entropy, which [random.seed] does not reach).
    - [while True] in [random_color] is run with fuel; running out of fuel
      stands for a loop that does not return.
    - The recursion limit of the interpreter is a parameter: [asdict] is
      given the number of levels of nodes that the limit leaves room for,
      and a tree with more levels raises [RecursionError].
    - The result of [org2mind] is taken to be the dict [mind] it hands to
      [json.dumps]; the page around it is a fixed template.

    The file has the embedding first (strings, values, nodes, the world
    and its monad, the allocator, the parser, the export), then the notions
    the properties are stated with and the invariants of the loop, then the
    proofs: examples, lemmas on the loop body, and the properties C1 to
    C10 of the specification, each with a run on a concrete document. *)

From Stdlib Require Import ZArith String Ascii List Bool Floats Lia.
From stdpp Require Import base option list strings.

Local Open Scope string_scope.
Local Open Scope list_scope.
Local Open Scope Z_scope.

(** ** Strings: [str.strip], [str.lower] and the two regular expressions *)

Module Str.

(** [str.isspace] on one character, which is also what [\s] matches in a
    [str] pattern: TAB..CR, FS..US, SPACE, NEL and NBSP. *)
Definition isspace (c : ascii) : bool :=
  let n := nat_of_ascii c in
  ((9 <=? n) && (n <=? 13) || (28 <=? n) && (n <=? 31)
   || (n =? 32) || (n =? 133) || (n =? 160))%nat.

Definition is_newline (c : ascii) : bool := (nat_of_ascii c =? 10)%nat.
Definition is_star (c : ascii) : bool := (nat_of_ascii c =? 42)%nat.
Definition is_colon (c : ascii) : bool := (nat_of_ascii c =? 58)%nat.

Fixpoint lstrip (s : string) : string :=
  match s with
  | String c s' => if isspace c then lstrip s' else s
  | EmptyString => EmptyString
  end.

Fixpoint rstrip (s : string) : string :=
  match s with
  | EmptyString => EmptyString
  | String c s' =>
      match rstrip s' with
      | EmptyString => if isspace c then EmptyString else String c EmptyString
      | r => String c r
      end
  end.

(** [line.strip()] *)
Definition strip (s : string) : string := rstrip (lstrip s).

(** [str.lower] on code points below 256: A..Z and the Latin-1 capitals. *)
Definition lower_char (c : ascii) : ascii :=
  let n := nat_of_ascii c in
  if ((65 <=? n) && (n <=? 90) || (192 <=? n) && (n <=? 214)
      || (216 <=? n) && (n <=? 222))%nat
  then ascii_of_nat (n + 32) else c.

Fixpoint lower (s : string) : string :=
  match s with
  | EmptyString => EmptyString
  | String c s' => String (lower_char c) (lower s')
  end.

(** The longest prefix whose characters satisfy [p], and the rest. *)
Fixpoint span (p : ascii -> bool) (s : string) : string * string :=
  match s with
  | String c s' =>
      if p c then let '(a, b) := span p s' in (String c a, b)
      else (EmptyString, s)
  | EmptyString => (EmptyString, EmptyString)
  end.

(** [(.+?)$] at the current position. [.] matches anything but a newline
    and [$] matches at the end of the string or just before a newline that
    ends it, so the lazy group can only stop after the longest run of
    characters other than newline. *)
Definition dot_plus_end (s : string) : option string :=
  let '(t, r) := span (fun c => negb (is_newline c)) s in
  match t with
  | EmptyString => None
  | _ => match r with
         | EmptyString => Some t
         | String _ EmptyString => Some t
         | _ => None
         end
  end.

(** [\s+(.+?)$] at the current position: the whitespace run is greedy and
    gives characters back one at a time when the rest does not match. *)
Fixpoint spaces_group_end (s : string) : option string :=
  match s with
  | String c s' =>
      if isspace c then
        match spaces_group_end s' with
        | Some g => Some g
        | None => dot_plus_end s'
        end
      else None
  | EmptyString => None
  end.

(** [re.match(r'^(\*+)\s+(.+?)$', line)]: the groups, when it matches.
    Giving a star back leaves a star where [\s] is needed, so only the
    longest run of stars can match. *)
Definition re_heading (line : string) : option (string * string) :=
  let '(stars, r) := span is_star line in
  match stars with
  | EmptyString => None
  | _ => match spaces_group_end r with
         | Some heading => Some (stars, heading)
         | None => None
         end
  end.

(** [(.+?):\s+(.+?)$] once the key has its first character: the key is
    lazy, it grows by one character (never a newline) each time what
    follows is not a colon, whitespace and a value. *)
Fixpoint meta_key (key : string) (s : string) : option (string * string) :=
  match s with
  | EmptyString => None
  | String c s' =>
      match (if is_colon c then spaces_group_end s' else None) with
      | Some value => Some (key, value)
      | None =>
          if is_newline c then None
          else meta_key (key ++ String c EmptyString)%string s'
      end
  end.

(** [re.match(r'^#\+(.+?):\s+(.+?)$', line)]: the groups, when it matches. *)
Definition re_meta (line : string) : option (string * string) :=
  match line with
  | String "#" (String "+" (String c s)) =>
      if is_newline c then None else meta_key (String c EmptyString) s
  | _ => None
  end.

End Str.

(** ** Python values and containers *)

(** The values a metadata entry holds: the default version is the float
    literal [0.2], a declared value is the [str] the pattern captured. *)
Inductive pyval : Type :=
| PyFloat (f : float)
| PyStr (s : string).

(** A [dict] with [str] keys, in insertion order. [d[k] = v] replaces the
    value of a key that is present, in place, and appends a new key. *)
Fixpoint dict_set {V : Type} (k : string) (v : V) (d : list (string * V))
  : list (string * V) :=
  match d with
  | [] => [(k, v)]
  | (k', v') :: d' =>
      if String.eqb k' k then (k', v) :: d' else (k', v') :: dict_set k v d'
  end.

Fixpoint dict_get {V : Type} (k : string) (d : list (string * V)) : option V :=
  match d with
  | [] => None
  | (k', v') :: d' => if String.eqb k' k then Some v' else dict_get k d'
  end.

(** [l[i]] on a list: a negative index counts from the end; [None] is
    Python's [IndexError]. *)
Definition py_index {A : Type} (l : list A) (i : Z) : option A :=
  let n := Z.of_nat (length l) in
  if (0 <=? i) && (i <? n) then l !! Z.to_nat i
  else if (- n <=? i) && (i <? 0) then l !! Z.to_nat (n + i)
  else None.

(** ** Nodes *)

(** A reference to a [Node] object: its index in the heap. *)
Abbreviation ref := nat (only parsing).

Module Node.

Record t : Type := mk {
  topic : string;
  level : Z;
  id : string;
  isroot : bool;
  expended : bool;
  direction : string;
  children : list ref;
  background_color : option string;
  foreground_color : option string
}.

Definition set_topic (v : string) (n : t) : t :=
  mk v (level n) (id n) (isroot n) (expended n) (direction n) (children n)
     (background_color n) (foreground_color n).

Definition set_direction (v : string) (n : t) : t :=
  mk (topic n) (level n) (id n) (isroot n) (expended n) v (children n)
     (background_color n) (foreground_color n).

Definition set_background_color (v : option string) (n : t) : t :=
  mk (topic n) (level n) (id n) (isroot n) (expended n) (direction n)
     (children n) v (foreground_color n).

Definition set_id (v : string) (n : t) : t :=
  mk (topic n) (level n) v (isroot n) (expended n) (direction n)
     (children n) (background_color n) (foreground_color n).

(** [self.children += [node]] *)
Definition add_child (node : ref) (self : t) : t :=
  mk (topic self) (level self) (id self) (isroot self) (expended self)
     (direction self) (children self ++ [node]) (background_color self)
     (foreground_color self).

End Node.

(** ** The world outside [org2mind], and the monad that threads it *)

Inductive exn : Type :=
| IndexError
| RecursionError.

(** What a call does: it returns, it raises, or it does not return within
    the fuel it was given. *)
Inductive result (A : Type) : Type :=
| Ok (a : A)
| Raise (e : exn)
| Diverge.

Arguments Ok {A} a.
Arguments Raise {A} e.
Arguments Diverge {A}.

Record World : Type := mkWorld {
  (** the generator of module [random]: the [k]-th number it yields *)
  rng : nat -> nat;
  rng_pos : nat;
  (** the attribute [random_color.last_color]; [None] until it is set *)
  last_color : option string;
  (** [uuid.uuid4().hex], the [k]-th identifier the system yields *)
  entropy : nat -> string;
  uuid_pos : nat
}.

Definition M (A : Type) : Type := World -> result (A * World).

Definition ret {A : Type} (a : A) : M A := fun w => Ok (a, w).

Definition bind {A B : Type} (m : M A) (k : A -> M B) : M B :=
  fun w =>
    match m w with
    | Ok (a, w') => k a w'
    | Raise e => Raise e
    | Diverge => Diverge
    end.

Definition raise {A : Type} (e : exn) : M A := fun _ => Raise e.
Definition diverge {A : Type} : M A := fun _ => Diverge.

Declare Scope py_scope.
Delimit Scope py_scope with py.
Notation "x <- m ;; k" := (bind m (fun x => k))
  (at level 100, m at next level, right associativity) : py_scope.
Local Open Scope py_scope.

Fixpoint foldM {A S : Type} (f : S -> A -> M S) (s : S) (l : list A) : M S :=
  match l with
  | [] => ret s
  | x :: l' => s' <- f s x;; foldM f s' l'
  end.

Definition getitem {A : Type} (l : list A) (i : Z) : M A :=
  match py_index l i with
  | Some x => ret x
  | None => raise IndexError
  end.

(** [random.choice(seq)] is [seq[self._randbelow(len(seq))]]: the number the
    generator yields, brought below [len(seq)]; an empty [seq] raises. *)
Definition choice {A : Type} (seq : list A) : M A :=
  fun w =>
    match seq !! (rng w (rng_pos w) mod length seq)%nat with
    | Some x =>
        Ok (x, mkWorld (rng w) (S (rng_pos w)) (last_color w) (entropy w)
                       (uuid_pos w))
    | None => Raise IndexError
    end.

Definition uuid4_hex : M string :=
  fun w =>
    Ok (entropy w (uuid_pos w),
        mkWorld (rng w) (rng_pos w) (last_color w) (entropy w)
                (S (uuid_pos w))).

Definition get_last_color : M (option string) := fun w => Ok (last_color w, w).

Definition set_last_color (c : string) : M unit :=
  fun w =>
    Ok (tt, mkWorld (rng w) (rng_pos w) (Some c) (entropy w) (uuid_pos w)).

(** ** The color allocator *)

Definition colors : list string :=
  ["#5EBD3E"; "#FFB900"; "#F78200"; "#E23838"; "#973999"; "#009CDF"].

(** The [while True] loop of [random_color]: draw, leave the loop when
    there is no last color or the draw differs from it. *)
Fixpoint random_color_loop (fuel : nat) : M string :=
  match fuel with
  | O => diverge
  | S fuel' =>
      color <- choice colors;;
      last <- get_last_color;;
      match last with
      | None => ret color
      | Some l => if String.eqb color l then random_color_loop fuel'
                  else ret color
      end
  end.

Definition random_color (fuel : nat) : M string :=
  color <- random_color_loop fuel;;
  _ <- set_last_color color;;
  ret color.

(** [n] calls of the allocator in a row, and the colors they return. *)
Fixpoint random_colors (fuel : nat) (n : nat) : M (list string) :=
  match n with
  | O => ret []
  | S n' =>
      c <- random_color fuel;;
      cs <- random_colors fuel n';;
      ret (c :: cs)
  end.

(** ** The parser and tree builder *)

(** [Node(topic, level=..., background_color=..., foreground_color=...)]:
    the dataclass constructor with its defaults; the default of [id] is
    drawn from [uuid4]. *)
Definition Node_new (topic : string) (level : Z)
    (background_color foreground_color : option string) : M Node.t :=
  i <- uuid4_hex;;
  ret (Node.mk topic level i false true "right" [] background_color
               foreground_color).

(** The variables of [org2mind] while it reads the file, and the heap of
    the [Node] objects it has created. *)
Record Frame : Type := mkFrame {
  meta : list (string * pyval);
  background_color : option string;
  direction : Z;
  level : Z;
  root : ref;
  stack : list ref;
  heap : list Node.t
}.

Definition set_meta (v : list (string * pyval)) (st : Frame) : Frame :=
  mkFrame v (background_color st) (direction st) (level st) (root st)
          (stack st) (heap st).

Definition set_background_color (v : option string) (st : Frame) : Frame :=
  mkFrame (meta st) v (direction st) (level st) (root st) (stack st) (heap st).

Definition set_direction (v : Z) (st : Frame) : Frame :=
  mkFrame (meta st) (background_color st) v (level st) (root st) (stack st)
          (heap st).

Definition set_level (v : Z) (st : Frame) : Frame :=
  mkFrame (meta st) (background_color st) (direction st) v (root st)
          (stack st) (heap st).

Definition set_stack (v : list ref) (st : Frame) : Frame :=
  mkFrame (meta st) (background_color st) (direction st) (level st) (root st)
          v (heap st).

Definition set_heap (v : list Node.t) (st : Frame) : Frame :=
  mkFrame (meta st) (background_color st) (direction st) (level st) (root st)
          (stack st) v.

Definition foreground_color : string := "#ffffff".
Definition directions : list string := ["right"; "left"].

(** [x.level] for a reference [x]. Every reference the program holds is
    to an object of the heap; the value at any other index is never read. *)
Definition level_at (h : list Node.t) (x : ref) : Z :=
  match h !! x with
  | Some n => Node.level n
  | None => 0
  end.

(** Lines 142-148: the metadata pattern. *)
Definition parse_meta (line : string) (st : Frame) : Frame :=
  match Str.re_meta line with
  | Some (meta_key, meta_value) =>
      let st := set_meta (dict_set meta_key (PyStr meta_value) (meta st)) st in
      if String.eqb (Str.lower meta_key) "title"
      then set_heap (alter (Node.set_topic meta_value) (root st) (heap st)) st
      else st
  | None => st
  end.

(** Lines 151-172: the heading pattern. *)
Definition parse_heading (fuel : nat) (line : string) (st : Frame) : M Frame :=
  match Str.re_heading line with
  | Some (stars, heading) =>
      let current_level := Z.of_nat (String.length stars) in
      n <- Node_new heading current_level (background_color st)
                    (Some foreground_color);;
      let node : ref := length (heap st) in
      let st := set_heap (heap st ++ [n]) st in
      st <- (if current_level =? 1 then
               d <- getitem directions (direction st);;
               let st := set_heap (alter (Node.set_direction d) node (heap st)) st in
               let st := set_direction (1 - direction st) st in
               c <- random_color fuel;;
               let st := set_background_color (Some c) st in
               ret (set_heap (alter (Node.set_background_color (Some c)) node
                                    (heap st)) st)
             else ret st);;
      let st :=
        if current_level <=? level st
        then set_stack
               (filter (fun x => level_at (heap st) x < current_level) (stack st))
               st
        else st in
      top <- getitem (stack st) (-1);;
      let st := set_heap (alter (Node.add_child node) top (heap st)) st in
      let st := set_stack (stack st ++ [node]) st in
      ret (set_level current_level st)
  | None => ret st
  end.

(** The body of [for line in fd]. *)
Definition loop_body (fuel : nat) (st : Frame) (line : string) : M Frame :=
  let line := Str.strip line in
  match line with
  | EmptyString => ret st
  | _ => parse_heading fuel line (parse_meta line st)
  end.

(** The literal [0.2] of line 124: the double nearest to one fifth. *)
Definition version_default : float := 0x1.999999999999ap-3%float.

(** Lines 122-172 of [org2mind]: the state when the file has been read. *)
Definition org2mind_parse (fuel : nat) (lines : list string) : M Frame :=
  c <- random_color fuel;;
  n <- Node_new "root" 0 (Some c) (Some foreground_color);;
  foldM (loop_body fuel)
        (mkFrame [("version", PyFloat version_default)] None 0 (-1) 0%nat [0%nat] [n])
        lines.

(** ** The exported tree *)

(** What [asdict(node, dict)] builds for a [Node]: the fields under their
    exported keys, [children] exported in turn. *)
#[warnings="-register-all"] Inductive jsnode : Type :=
| JsNode (topic : string) (level : Z) (id : string) (isroot expended : bool)
         (direction : string) (children : list jsnode)
         (background_color foreground_color : option string).

Definition js_isroot (j : jsnode) : bool :=
  match j with JsNode _ _ _ b _ _ _ _ _ => b end.

(** [asdict] recurses through the children: the call for a node (line 36)
    calls [asdict] on the list of its children, whose generator (line 44)
    calls [asdict] on each child, three frames of the interpreter further
    down. [depth] is the number of levels of nodes that the recursion limit
    of the interpreter leaves room for, and [None] is the [RecursionError]
    of a tree with more levels than that. *)
Fixpoint asdict (depth : nat) (h : list Node.t) (x : ref) : option jsnode :=
  match depth with
  | O => None
  | S depth' =>
      match h !! x with
      | None => None
      | Some n =>
          match mapM (asdict depth' h) (Node.children n) with
          | None => None
          | Some cs =>
              Some (JsNode (Node.topic n) (Node.level n) (Node.id n)
                           (Node.isroot n) (Node.expended n) (Node.direction n)
                           cs (Node.background_color n)
                           (Node.foreground_color n))
          end
      end
  end.

(** The dict [mind] of lines 174-178. *)
Record Mind : Type := mkMind {
  mind_meta : list (string * pyval);
  mind_format : string;
  mind_data : jsnode
}.

(** [org2mind] up to the dict it hands to [json.dumps]; the page around it
    is a fixed template. [room] is the number of levels of nodes that the
    recursion limit leaves [asdict] room for when line 177 calls it; the
    parser itself does not recurse. *)
Definition org2mind (room fuel : nat) (lines : list string) : M Mind :=
  st <- org2mind_parse fuel lines;;
  match asdict room (heap st) (root st) with
  | Some data => ret (mkMind (meta st) "node_tree" data)
  | None => raise RecursionError
  end.

(** The script: [random.seed(args.seed)] on a fresh interpreter, where
    [random_color] has no attribute yet, then [org2mind]. [mt] is the
    generator of module [random] as a function of the seed, [urandom] the
    identifiers [uuid4] will yield in this run, [room] what the recursion
    limit of this interpreter leaves room for. *)
Definition main (mt : Z -> nat -> nat) (urandom : nat -> string)
    (room fuel : nat) (seed : Z) (lines : list string) : result Mind :=
  match org2mind room fuel lines (mkWorld (mt seed) 0 None urandom 0) with
  | Ok (mind, _) => Ok mind
  | Raise e => Raise e
  | Diverge => Diverge
  end.

(** ** Notions the properties are stated with *)

(** The depth of a heading line: the number of stars, when the stripped
    line matches the heading pattern. *)
Definition heading_depth (line : string) : option Z :=
  match Str.re_heading (Str.strip line) with
  | Some (stars, _) => Some (Z.of_nat (String.length stars))
  | None => None
  end.

(** The depths of the heading lines of a document, in document order. The
    node created for the [k]-th heading line (from 1) has reference [k];
    the root has reference 0. *)
Definition depths (lines : list string) : list Z := omap heading_depth lines.

(** The key and value of a metadata line. *)
Definition meta_entry (line : string) : option (string * string) :=
  Str.re_meta (Str.strip line).

(** The value the document declares last for [key], if it declares one. *)
Definition declared (key : string) (lines : list string) : option string :=
  last (omap (fun line =>
                match meta_entry line with
                | Some (k, v) => if String.eqb k key then Some v else None
                | None => None
                end) lines).

(** Going back from a heading over the headings before it, nearest first:
    the first one whose depth is strictly less than [D], the root if there
    is none. [back] lists the depths of the preceding headings, nearest
    first, so its head is heading number [length back]. *)
Fixpoint nearest_back (back : list Z) (D : Z) : ref :=
  match back with
  | [] => 0%nat
  | d :: back' => if d <? D then length back else nearest_back back' D
  end.

(** The nearest preceding heading of depth strictly less than [D], given
    the depths [before] of the preceding headings in document order. *)
Definition nearest_shallower (before : list Z) (D : Z) : ref :=
  nearest_back (rev before) D.

(** "right", "left", "right", ... *)
Definition alternating (n : nat) : list string :=
  (fun i => if Nat.even i then "right" else "left") <$> seq 0 n.

(** The nodes of depth 1, in the order of the heap. *)
Definition depth1 (h : list Node.t) : list Node.t :=
  filter (fun n => Node.level n = 1) h.

(** No two neighbours of the list are equal. *)
Definition adjacent_distinct (cs : list string) : Prop :=
  forall i a b, cs !! i = Some a -> cs !! S i = Some b -> a <> b.


(** All the nodes of an exported tree, the root first. *)
Fixpoint js_nodes (j : jsnode) : list jsnode :=
  match j with
  | JsNode _ _ _ _ _ _ cs _ _ =>
      j :: (fix go (l : list jsnode) : list jsnode :=
              match l with
              | [] => []
              | c :: l' => js_nodes c ++ go l'
              end) cs
  end.

(** The exported tree with every [id] blanked. *)
Fixpoint js_erase_ids (j : jsnode) : jsnode :=
  match j with
  | JsNode t l _ r e d cs b f =>
      JsNode t l "" r e d
             ((fix go (l : list jsnode) : list jsnode :=
                 match l with
                 | [] => []
                 | c :: l' => js_erase_ids c :: go l'
                 end) cs)
             b f
  end.

Definition mind_erase_ids (m : Mind) : Mind :=
  mkMind (mind_meta m) (mind_format m) (js_erase_ids (mind_data m)).

Definition result_map {A B : Type} (f : A -> B) (r : result A) : result B :=
  match r with
  | Ok a => Ok (f a)
  | Raise e => Raise e
  | Diverge => Diverge
  end.

(** ** Two concrete runs *)

(** A generator for the examples: seed [s] yields s, s, s+1, s+1, s+2, ...
    so that every other draw repeats the one before. *)
Definition demo_mt (seed : Z) (k : nat) : nat := (Z.to_nat seed + k / 2)%nat.

(** Two streams of identifiers, as two runs of the script would see
    (shortened: [uuid4().hex] has 32 digits). *)
Definition demo_uuid (k : nat) : string :=
  match k with
  | O => "0f1e"
  | 1%nat => "a2b3"
  | 2%nat => "c4d5"
  | 3%nat => "e6f7"
  | _ => "9a8b"
  end.

Definition demo_uuid' (k : nat) : string :=
  match k with
  | O => "77aa"
  | _ => "31bc"
  end.

Definition demo_world : World := mkWorld (demo_mt 0) 0 None demo_uuid 0.

(** Room for the root and 331 headings one under the other, which is what
    an interpreter with a recursion limit of 1000 frames has. *)
Definition demo_room : nat := 332.

Definition plan_doc : list string :=
  ["#+TITLE: Plan"; "* A"; "** A1"; ""; "some text"; "* B"].

Definition jump_doc : list string :=
  ["*** Deep"; "* A"; "**** X"; "** Y"; "** Z"; "*** W"; "* C"].

(** ** The loop body in closed form, and its invariant *)

(** The node a heading line creates, once its direction and background
    color are settled. *)
Definition new_node (text : string) (D : Z) (i d : string)
    (bg : option string) : Node.t :=
  Node.mk text D i false true d [] bg (Some foreground_color).

(** Lines 166-172 for a node [n] of depth [D] just allocated: trim the
    stack, hang [n] under its top, push [n]. *)
Definition push_node (st : Frame) (D : Z) (n : Node.t) (bg : option string)
    (dir : Z) : M Frame :=
  let j := length (heap st) in
  let h1 := heap st ++ [n] in
  let stk :=
    if D <=? level st
    then filter (fun x => level_at h1 x < D) (stack st)
    else stack st in
  top <- getitem stk (-1);;
  ret (mkFrame (meta st) bg dir D (root st) (stk ++ [j])
               (alter (Node.add_child j) top h1)).

(** The level of the node with reference [x], read off the depths of the
    headings: the root has level 0. *)
Definition lvl (ds : list Z) (x : ref) : Z := default 0 ((0 :: ds) !! x).

(** What is read of a node to settle directions and colors. *)
Definition view (n : Node.t) : Z * string * option string :=
  (Node.level n, Node.direction n, Node.background_color n).

(** Nodes of depth 1, as views. *)
Definition is_depth1 (v : Z * string * option string) : Prop := v.1.1 = 1.

#[local] Instance is_depth1_dec v : Decision (is_depth1 v).
Proof. unfold is_depth1. apply _. Defined.

(** The background color in force after the nodes viewed in [vs]: that of
    the last node of depth 1, [None] before the first. *)
Definition branch_color (vs : list (Z * string * option string))
  : option string :=
  match last (filter is_depth1 vs) with
  | Some v => v.2
  | None => None
  end.

(** The invariant of the loop on the tree it builds, once headings of
    depths [ds] have been read. *)
Record InvTree (ds : list Z) (st : Frame) : Prop := mkInvTree {
  inv_root : root st = 0%nat;
  inv_levels : (fun v => v.1.1) <$> (view <$> heap st) = 0 :: ds;
  inv_stack_dom : Forall (fun x => (x < length (heap st))%nat) (stack st);
  inv_stack_bound :
    Forall (fun x => lvl ds x <= Z.max 0 (level st)) (stack st);
  inv_parent :
    forall D, 1 <= D ->
      last (filter (fun x => lvl ds x < D) (stack st))
      = Some (nearest_shallower ds D);
  inv_tree :
    forall r n, heap st !! r = Some n ->
      Forall (fun c => (r < c < length (heap st))%nat) (Node.children n);
  inv_isroot : Forall (fun n => Node.isroot n = false) (heap st);
  inv_direction :
    direction st
    = if Nat.even (length (filter is_depth1 (view <$> heap st)))
      then 0 else 1;
  inv_directions :
    (fun v => v.1.2) <$> filter is_depth1 (view <$> heap st)
    = alternating (length (filter is_depth1 (view <$> heap st)));
  inv_background : background_color st = branch_color (view <$> heap st);
  inv_backgrounds :
    forall j v, (1 <= j)%nat -> (view <$> heap st) !! j = Some v ->
      v.2 = branch_color (take (S j) (view <$> heap st))
}.

(** The invariant of the loop on the metadata, once the lines [done] have
    been read. *)
Definition InvMeta (done : list string) (st : Frame) : Prop :=
  forall k, dict_get k (meta st)
    = match declared k done with
      | Some v => Some (PyStr v)
      | None => if String.eqb "version" k
                then Some (PyFloat version_default) else None
      end.

(** Two heaps of one run, the second later than the first: every node is
    still there with what it had, but for the children it was given since
    and, for the root, its topic. *)
Definition grows (h h' : list Node.t) : Prop :=
  forall r n, h !! r = Some n ->
    exists n', h' !! r = Some n' /\
      view n' = view n /\ Node.id n' = Node.id n /\
      Node.isroot n' = Node.isroot n /\
      Node.children n `prefix_of` Node.children n' /\
      (r <> 0%nat -> Node.topic n' = Node.topic n).

(** The world [w] with another stream of identifiers, read up to [u]. *)
Definition with_uuid (e : nat -> string) (u : nat) (w : World) : World :=
  mkWorld (rng w) (rng_pos w) (last_color w) e u.

(** The invariant of the loop on the colors: started in the world [w0],
    the allocator has been called once for the root and once for each node
    of depth 1, in this order, and not otherwise. *)
Definition InvColors (fuel : nat) (w0 : World) (st : Frame) (w : World)
  : Prop :=
  exists cs wc,
    random_colors fuel (length cs) w0 = Ok (cs, wc) /\
    w = with_uuid (entropy w) (uuid_pos w) wc /\
    (fun v => v.2) <$> (take 1 (view <$> heap st)
                        ++ filter is_depth1 (view <$> heap st))
    = Some <$> cs.

(** Blanking the identifiers: of a world (the identifiers to come), of a
    state (those of the nodes of the heap) and of a state with a world. *)
Definition erase_w (w : World) : World :=
  with_uuid (fun _ => "") (uuid_pos w) w.

Definition frame_erase_ids (st : Frame) : Frame :=
  set_heap (Node.set_id "" <$> heap st) st.

Definition erase_pair {A : Type} (f : A -> A) (x : A * World) : A * World :=
  (f x.1, erase_w x.2).

(** ** Notions for the further properties *)

(** The fields of an exported node. *)
Definition js_topic (j : jsnode) : string :=
  match j with JsNode t _ _ _ _ _ _ _ _ => t end.
Definition js_level (j : jsnode) : Z :=
  match j with JsNode _ l _ _ _ _ _ _ _ => l end.
Definition js_id (j : jsnode) : string :=
  match j with JsNode _ _ i _ _ _ _ _ _ => i end.
Definition js_expended (j : jsnode) : bool :=
  match j with JsNode _ _ _ _ e _ _ _ _ => e end.
Definition js_direction (j : jsnode) : string :=
  match j with JsNode _ _ _ _ _ d _ _ _ => d end.
Definition js_children (j : jsnode) : list jsnode :=
  match j with JsNode _ _ _ _ _ _ c _ _ => c end.
Definition js_background_color (j : jsnode) : option string :=
  match j with JsNode _ _ _ _ _ _ _ b _ => b end.
Definition js_foreground_color (j : jsnode) : option string :=
  match j with JsNode _ _ _ _ _ _ _ _ f => f end.

(** The depth and the text of a heading line. *)
Definition heading (line : string) : option (Z * string) :=
  match Str.re_heading (Str.strip line) with
  | Some (stars, text) => Some (Z.of_nat (String.length stars), text)
  | None => None
  end.

(** The headings of a document, in document order. *)
Definition headings (lines : list string) : list (Z * string) :=
  omap heading lines.

(** The value of the last metadata line whose key is "title" in any
    case, if there is one. *)
Definition declared_title (lines : list string) : option string :=
  last (omap (fun line =>
                match meta_entry line with
                | Some (k, v) =>
                    if String.eqb (Str.lower k) "title" then Some v else None
                | None => None
                end) lines).

(** What a node carries besides its children: on the heap, and exported. *)
Definition node_attrs (n : Node.t)
  : string * Z * string * bool * bool * string * option string * option string :=
  (Node.topic n, Node.level n, Node.id n, Node.isroot n, Node.expended n,
   Node.direction n, Node.background_color n, Node.foreground_color n).

Definition js_attrs (j : jsnode)
  : string * Z * string * bool * bool * string * option string * option string :=
  match j with JsNode t l i r e d _ b f => (t, l, i, r, e, d, b, f) end.

(** The children of every node of a heap. *)
Definition children_table (h : list Node.t) : list (list nat) :=
  Node.children <$> h.

(** The references below [x] in the order in which [asdict] visits them:
    [x] first, then what is below each of its children, in their order.
    [ch] is the table of the children. *)
Fixpoint preorder (depth : nat) (ch : list (list nat)) (x : nat) : list nat :=
  match depth with
  | O => []
  | S depth' =>
      match ch !! x with
      | None => []
      | Some cs => x :: flat_map (preorder depth' ch) cs
      end
  end.

(** [x] is reached from [y] by going down to the last child, any number of
    times. *)
Inductive rpath (ch : list (list nat)) : nat -> nat -> Prop :=
| rpath_here x : rpath ch x x
| rpath_down y cs c x :
    ch !! y = Some cs -> last cs = Some c -> rpath ch c x -> rpath ch y x.

(** Children come after their parent, and are nodes. *)
Definition forward (ch : list (list nat)) : Prop :=
  forall r cs, ch !! r = Some cs ->
    Forall (fun c => (r < c < length ch)%nat) cs.

(** The invariant of the loop on the order of the nodes: the walk from the
    root meets the nodes in the order of the heap, and the stack is on the
    path that goes from the root down the last children. *)
Record InvOrder (st : Frame) : Prop := mkInvOrder {
  ord_preorder :
    forall f, (length (heap st) <= f)%nat ->
      preorder f (children_table (heap st)) 0 = seq 0 (length (heap st));
  ord_stack : Forall (rpath (children_table (heap st)) 0) (stack st)
}.

(** The invariant of the loop on the identifiers: started with the stream
    [e0] read up to [u0], one identifier has been drawn for each node, in
    the order of the heap. *)
Definition InvIds (e0 : nat -> string) (u0 : nat) (st : Frame) (w : World)
  : Prop :=
  entropy w = e0 /\
  uuid_pos w = (u0 + length (heap st))%nat /\
  Node.id <$> heap st = e0 <$> seq u0 (length (heap st)).

(** What no line changes of a node once it is made. *)
Definition node_defaults (n : Node.t) : Prop :=
  Node.expended n = true /\
  Node.foreground_color n = Some foreground_color /\
  (Node.level n <> 1 -> Node.direction n = "right") /\
  Node.direction n ∈ directions.

(** The invariant of the loop on the levels along the edges. *)
Definition InvEdge (ds : list Z) (st : Frame) : Prop :=
  forall r cs c,
    children_table (heap st) !! r = Some cs -> c ∈ cs -> lvl ds r < lvl ds c.

(** Every character of [s] satisfies [p]. *)
Fixpoint all_chars (p : ascii -> bool) (s : string) : bool :=
  match s with
  | EmptyString => true
  | String c s' => p c && all_chars p s'
  end.

Definition not_newline (c : ascii) : bool := negb (Str.is_newline c).

(** The invariant of the loop on what lies between a node and a child of
    it: nodes that are at least as deep as the child. *)
Definition InvGap (ds : list Z) (st : Frame) : Prop :=
  forall r cs c,
    children_table (heap st) !! r = Some cs -> c ∈ cs ->
    forall k, (r < k < c)%nat -> lvl ds c <= lvl ds k.

(** The invariant of the loop on the children of one node: from one child
    to the next the level does not go up. *)
Definition InvSiblings (ds : list Z) (st : Frame) : Prop :=
  forall r cs i a b,
    children_table (heap st) !! r = Some cs ->
    cs !! i = Some a -> cs !! S i = Some b -> lvl ds b <= lvl ds a.

(** Lines 166-170 on the levels alone. [s.1] lists the levels of the nodes
    on the stack, the root first, and [s.2] is the greatest length the stack
    has had: a heading of depth [D] takes off the stack what is not above
    it and goes on top. *)
Definition push_level (s : list Z * nat) (D : Z) : list Z * nat :=
  let stk := filter (fun l => l < D) s.1 ++ [D] in
  (stk, Nat.max s.2 (length stk)).

Definition level_stack (ds : list Z) : list Z * nat :=
  fold_left push_level ds ([0], 1%nat).

(** The number of levels of the tree of a document, the root counted: one
    more than the greatest number of headings one under the other. *)
Definition levels (lines : list string) : nat :=
  (level_stack (depths lines)).2.

(** From the bottom of the stack to its top the level goes up. *)
Definition increasing (f : nat -> Z) (l : list nat) : Prop :=
  forall i j a b,
    (i < j)%nat -> l !! i = Some a -> l !! j = Some b -> f a < f b.

(** The invariant of the loop on the depth of the nodes in the tree:
    [dep x] is the number of nodes above [x]. *)
Record InvDepth (ds : list Z) (dep : nat -> nat) (st : Frame) : Prop :=
  mkInvDepth {
  dep_root : dep 0%nat = 0%nat;
  dep_edge :
    forall r cs c,
      children_table (heap st) !! r = Some cs -> c ∈ cs -> dep c = S (dep r);
  dep_parent :
    forall c, (1 <= c < length (heap st))%nat ->
      exists r cs, children_table (heap st) !! r = Some cs /\ c ∈ cs;
  dep_stack : forall i x, stack st !! i = Some x -> dep x = i;
  dep_incr : increasing (lvl ds) (stack st);
  dep_levels : lvl ds <$> stack st = (level_stack ds).1;
  dep_bound :
    forall x, (x < length (heap st))%nat ->
              (S (dep x) <= (level_stack ds).2)%nat;
  dep_max :
    exists x, (x < length (heap st))%nat /\ S (dep x) = (level_stack ds).2
}.

(** [n] stars. *)
Fixpoint stars (n : nat) : string :=
  match n with
  | O => EmptyString
  | S n' => String "*" (stars n')
  end.

(** [n] headings one under the other: of depths 1, 2, ..., [n]. *)
Definition chain_doc (n : nat) : list string :=
  (fun k => stars (S k) +:+ " h") <$> seq 0 n.


(** * Proofs *)

(** ** The embedding on examples *)

Example strip_ex : Str.strip "  * A  " = "* A".
Proof. reflexivity. Qed.

Example re_heading_ex : Str.re_heading "**  A 1" = Some ("**", "A 1").
Proof. reflexivity. Qed.

Example re_heading_no_space : Str.re_heading "**A" = None.
Proof. reflexivity. Qed.

Example re_heading_only_stars : Str.re_heading "***" = None.
Proof. reflexivity. Qed.

Example re_meta_ex : Str.re_meta "#+TITLE: Plan" = Some ("TITLE", "Plan").
Proof. reflexivity. Qed.

Example re_meta_lazy_key : Str.re_meta "#+a:b: c: d" = Some ("a:b", "c: d").
Proof. reflexivity. Qed.

Example re_meta_no_value : Str.re_meta "#+TITLE:" = None.
Proof. reflexivity. Qed.

Example lower_ex : Str.lower "TiTle" = "title".
Proof. reflexivity. Qed.

Example depths_jump_doc : depths jump_doc = [3; 1; 4; 2; 2; 3; 1].
Proof. reflexivity. Qed.

(** The first example of the specification: the title, two branches to the
    right and to the left with different colors, "A1" in the color of "A".
    The generator of the example repeats each draw once, so that the
    allocator has to draw again for "A" and for "B". *)
Example main_plan_doc :
  main demo_mt demo_uuid demo_room 2 0 plan_doc
  = Ok (mkMind
          [("version", PyFloat version_default); ("TITLE", PyStr "Plan")]
          "node_tree"
          (JsNode "Plan" 0 "0f1e" false true "right"
             [JsNode "A" 1 "a2b3" false true "right"
                [JsNode "A1" 2 "c4d5" false true "right" []
                        (Some "#FFB900") (Some "#ffffff")]
                (Some "#FFB900") (Some "#ffffff");
              JsNode "B" 1 "e6f7" false true "left" []
                     (Some "#F78200") (Some "#ffffff")]
             (Some "#5EBD3E") (Some "#ffffff"))).
Proof. vm_compute. reflexivity. Qed.

(** With fuel for one draw only the same run does not return. *)
Example main_plan_doc_out_of_fuel :
  main demo_mt demo_uuid demo_room 1 0 plan_doc = Diverge.
Proof. vm_compute. reflexivity. Qed.

(** Depths that jump and depths that repeat, on the headings of
    [jump_doc] (depths 3, 1, 4, 2, 2, 3, 1): "X" of depth 4 right after "A"
    of depth 1 hangs under "A" (heading 2); "Z" of depth 2 after "Y" of
    depth 2 hangs under "A" as well, as a sibling of "Y"; "Deep" and "C"
    hang under the root. *)
Example nearest_shallower_jump : nearest_shallower [3; 1] 4 = 2%nat.
Proof. reflexivity. Qed.

Example nearest_shallower_sibling : nearest_shallower [3; 1; 4; 2] 2 = 2%nat.
Proof. reflexivity. Qed.

Example nearest_shallower_root : nearest_shallower [3; 1; 4; 2; 2; 3] 1 = 0%nat.
Proof. reflexivity. Qed.

Example children_jump_doc :
  exists st w',
    org2mind_parse 2 jump_doc demo_world = Ok (st, w') /\
    (Node.children <$> heap st)
    = [[1; 2; 7]; []; [3; 4; 5]; []; []; [6]; []; []]%nat.
Proof. eexists _, _. split; vm_compute; reflexivity. Qed.

(** The second example of the specification: a heading of depth 3 with no
    heading before it hangs under the root and has no background color. *)
Example main_deep :
  main demo_mt demo_uuid demo_room 2 0 ["*** Deep"]
  = Ok (mkMind
          [("version", PyFloat version_default)]
          "node_tree"
          (JsNode "root" 0 "0f1e" false true "right"
             [JsNode "Deep" 3 "a2b3" false true "right" [] None
                     (Some "#ffffff")]
             (Some "#5EBD3E") (Some "#ffffff"))).
Proof. vm_compute. reflexivity. Qed.

(** ** The monad *)

Lemma bind_Ok {A B : Type} (m : M A) (k : A -> M B) w b w' :
  bind m k w = Ok (b, w') ->
  exists a w1, m w = Ok (a, w1) /\ k a w1 = Ok (b, w').
Proof.
  unfold bind. destruct (m w) as [[a w1]| |]; [eauto | done | done].
Qed.

Lemma ret_Ok {A : Type} (a b : A) w w' :
  ret a w = Ok (b, w') -> b = a /\ w' = w.
Proof. unfold ret. by intros [= -> ->]. Qed.

Lemma foldM_app {A S : Type} (f : S -> A -> M S) (l1 l2 : list A) s w :
  foldM f s (l1 ++ l2) w = bind (foldM f s l1) (fun s' => foldM f s' l2) w.
Proof.
  revert s w. induction l1 as [|x l1 IH]; intros s w; simpl; [done|].
  unfold bind in *. destruct (f s x w) as [[s1 w1]| |]; [|done|done].
  apply IH.
Qed.

(** Inverting a run that returned, one [bind] at a time. *)
Ltac inv_bind H :=
  let a := fresh "a" in
  let w := fresh "w" in
  let H1 := fresh H in
  apply bind_Ok in H; destruct H as (a & w & H1 & H).

(** ** The color allocator *)


Lemma choice_Ok {A : Type} (seq : list A) w x w' :
  choice seq w = Ok (x, w') ->
  seq !! (rng w (rng_pos w) mod length seq)%nat = Some x /\
  w' = mkWorld (rng w) (S (rng_pos w)) (last_color w) (entropy w) (uuid_pos w).
Proof.
  unfold choice. destruct (seq !! _) as [y|]; [|done]. by intros [= -> <-].
Qed.

(** What a returning run of the loop has established. *)
Lemma random_color_loop_Ok fuel w c w' :
  random_color_loop fuel w = Ok (c, w') ->
  c ∈ colors /\ last_color w <> Some c /\
  rng w' = rng w /\ (rng_pos w < rng_pos w')%nat /\
  last_color w' = last_color w /\
  entropy w' = entropy w /\ uuid_pos w' = uuid_pos w.
Proof.
  revert w. induction fuel as [|fuel IH]; intros w H; [done|].
  simpl in H. inv_bind H. apply choice_Ok in H0 as [Hc ->].
  unfold bind, get_last_color in H. simpl in H.
  destruct (last_color w) as [l|] eqn:Hl.
  - destruct (String.eqb a l) eqn:E.
    + apply IH in H. simpl in H.
      destruct H as (? & ? & ? & ? & ? & ? & ?). repeat split; auto; lia.
    + apply ret_Ok in H as [-> ->]. simpl.
      apply String.eqb_neq in E.
      repeat split; auto; [by eapply list_elem_of_lookup_2 | congruence].
  - apply ret_Ok in H as [-> ->]. simpl.
    repeat split; auto. by eapply list_elem_of_lookup_2.
Qed.

Lemma random_color_Ok fuel w c w' :
  random_color fuel w = Ok (c, w') ->
  c ∈ colors /\ last_color w <> Some c /\
  rng w' = rng w /\ (rng_pos w < rng_pos w')%nat /\
  last_color w' = Some c /\
  entropy w' = entropy w /\ uuid_pos w' = uuid_pos w.
Proof.
  unfold random_color. intros H. inv_bind H.
  apply random_color_loop_Ok in H0 as (? & ? & ? & ? & ? & ? & ?).
  unfold bind, set_last_color, ret in H. simpl in H.
  injection H as <- <-. simpl. repeat split; auto.
Qed.

Lemma random_colors_Ok fuel n w cs w' :
  random_colors fuel n w = Ok (cs, w') ->
  length cs = n /\
  Forall (fun c => c ∈ colors) cs /\
  adjacent_distinct cs /\
  (forall c, head cs = Some c -> last_color w <> Some c) /\
  last_color w' = from_option Some (last_color w) (last cs).
Proof.
  revert w cs w'. induction n as [|n IH]; intros w cs w' H; simpl in H.
  - apply ret_Ok in H as [-> ->]. repeat split; auto; done.
  - inv_bind H. inv_bind H. apply ret_Ok in H as [-> ->].
    apply random_color_Ok in H0 as (Hc & Hne & _ & _ & Hl & _).
    apply IH in H1 as (Hlen & Hall & Hadj & Hhd & Hlast).
    repeat split.
    + simpl. by rewrite Hlen.
    + by constructor.
    + intros [|i] x y Hx Hy; simpl in *.
      * injection Hx as <-. intros ->. eapply Hhd; [|done].
        by destruct a0.
      * by eapply Hadj.
    + simpl. by intros c [= <-].
    + rewrite Hlast, Hl. destruct a0 as [|y a0]; [done|].
      change (last (a :: y :: a0)) with (last (y :: a0)).
      destruct (last (y :: a0)) eqn:E; [done|]. by apply last_None in E.
Qed.

(** ** Lists the way Python indexes them *)

Lemma py_index_last {A : Type} (l : list A) : py_index l (-1) = last l.
Proof.
  unfold py_index. destruct l as [|x l]; [done|].
  rewrite last_lookup.
  replace (0 <=? -1) with false by done. simpl andb.
  destruct (Z.leb_spec (- Z.of_nat (S (length l))) (-1)) as [_|H]; [|lia].
  simpl andb. f_equal. simpl length. lia.
Qed.

Lemma alter_app_last {A : Type} (f : A -> A) (l : list A) (x : A) :
  alter f (length l) (l ++ [x]) = l ++ [f x].
Proof.
  induction l as [|y l IH]; simpl; [done|]. by f_equal.
Qed.

(** ** The loop body in closed form *)

Lemma stars_length (line stars text : string) :
  Str.re_heading line = Some (stars, text) ->
  1 <= Z.of_nat (String.length stars).
Proof.
  unfold Str.re_heading. destruct (Str.span Str.is_star line) as [s r].
  destruct s as [|c s]; [done|].
  destruct (Str.spaces_group_end r); [|done].
  intros [= <- _]. simpl. lia.
Qed.

Lemma parse_heading_eq fuel line st stars text w :
  Str.re_heading line = Some (stars, text) ->
  parse_heading fuel line st w =
    let D := Z.of_nat (String.length stars) in
    let i := entropy w (uuid_pos w) in
    let w1 := mkWorld (rng w) (rng_pos w) (last_color w) (entropy w)
                      (S (uuid_pos w)) in
    if D =? 1 then
      (d <- getitem directions (direction st);;
       c <- random_color fuel;;
       push_node st D (new_node text D i d (Some c)) (Some c)
                 (1 - direction st)) w1
    else push_node st D (new_node text D i "right" (background_color st))
                   (background_color st) (direction st) w1.
Proof.
  intros H. unfold parse_heading. rewrite H. cbv zeta.
  unfold Node_new, uuid4_hex, push_node, bind, ret.
  cbn [set_heap set_direction set_background_color set_stack set_level
       heap direction background_color level stack meta root].
  destruct (Z.of_nat (String.length stars) =? 1) eqn:E.
  - destruct (getitem directions (direction st) _) as [[d w2]| |]; [|done|done].
    destruct (random_color fuel w2) as [[c w3]| |]; [|done|done].
    rewrite !alter_app_last. unfold new_node. simpl.
    destruct (_ <=? level st); done.
  - simpl. destruct (_ <=? level st); done.
Qed.

Lemma loop_body_eq fuel st line :
  loop_body fuel st line
  = parse_heading fuel (Str.strip line) (parse_meta (Str.strip line) st).
Proof.
  unfold loop_body. by destruct (Str.strip line).
Qed.

(** ** List lemmas *)

Lemma fmap_alter_same {A B : Type} (f : A -> B) (g : A -> A) i (l : list A) :
  (forall x, f (g x) = f x) -> f <$> alter g i l = f <$> l.
Proof.
  intros Hfg. revert i. induction l as [|x l IH]; intros [|i]; simpl; try done.
  - by rewrite Hfg.
  - f_equal. apply IH.
Qed.

Lemma filter_ext_Forall {A : Type} (P Q : A -> Prop)
    `{!forall x, Decision (P x)} `{!forall x, Decision (Q x)} (l : list A) :
  Forall (fun x => P x <-> Q x) l -> filter P l = filter Q l.
Proof.
  induction 1 as [|x l Hx _ IH]; [done|].
  rewrite !filter_cons, IH. repeat case_decide; tauto.
Qed.

Lemma filter_all {A : Type} (P : A -> Prop) `{!forall x, Decision (P x)}
    (l : list A) :
  Forall P l -> filter P l = l.
Proof.
  induction 1 as [|x l Hx _ IH]; [done|].
  rewrite filter_cons, IH. by case_decide.
Qed.

Lemma filter_none {A : Type} (P : A -> Prop) `{!forall x, Decision (P x)}
    (l : list A) :
  Forall (fun x => ~ P x) l -> filter P l = [].
Proof.
  induction 1 as [|x l Hx _ IH]; [done|].
  rewrite filter_cons, IH. by case_decide.
Qed.

(** ** The nearest shallower heading *)

Lemma nearest_shallower_snoc ds d D :
  nearest_shallower (ds ++ [d]) D
  = if d <? D then S (length ds) else nearest_shallower ds D.
Proof.
  unfold nearest_shallower. rewrite rev_app_distr. simpl.
  by rewrite length_rev.
Qed.

Lemma nearest_shallower_bound ds D : (nearest_shallower ds D <= length ds)%nat.
Proof.
  induction ds as [|d ds IH] using rev_ind; [done|].
  rewrite nearest_shallower_snoc, length_app. simpl.
  destruct (d <? D); lia.
Qed.

Lemma lvl_snoc_old ds d x : (x <= length ds)%nat -> lvl (ds ++ [d]) x = lvl ds x.
Proof.
  intros Hx. unfold lvl. destruct x as [|x]; [done|]. simpl.
  rewrite lookup_app_l by lia. done.
Qed.

Lemma lvl_snoc_new ds d : lvl (ds ++ [d]) (S (length ds)) = d.
Proof.
  unfold lvl. simpl. rewrite lookup_app_r by lia.
  by replace (length ds - length ds)%nat with 0%nat by lia.
Qed.

(** ** One heading, on a state that satisfies the invariant *)

Lemma level_at_lvl ds h x :
  (fun v => v.1.1) <$> (view <$> h) = 0 :: ds -> level_at h x = lvl ds x.
Proof.
  intros H. unfold level_at, lvl. rewrite <- H, !list_lookup_fmap.
  destruct (h !! x); reflexivity.
Qed.

Lemma push_node_eq ds st D n bg dir w :
  InvTree ds st -> 1 <= D ->
  push_node st D n bg dir w =
    Ok (mkFrame (meta st) bg dir D (root st)
          (filter (fun x => lvl ds x < D) (stack st) ++ [length (heap st)])
          (alter (Node.add_child (length (heap st)))
                 (nearest_shallower ds D) (heap st) ++ [n]),
        w).
Proof.
  intros I HD. unfold push_node. cbv zeta.
  assert ((if D <=? level st
           then filter (fun x => level_at (heap st ++ [n]) x < D) (stack st)
           else stack st)
          = filter (fun x => lvl ds x < D) (stack st)) as ->.
  { destruct (Z.leb_spec D (level st)) as [Hle|Hlt].
    - apply filter_ext_Forall.
      eapply Forall_impl; [apply (inv_stack_dom _ _ I)|].
      intros x Hx. simpl. unfold level_at at 1.
      rewrite lookup_app_l by done.
      fold (level_at (heap st) x).
      by rewrite (level_at_lvl ds) by apply (inv_levels _ _ I).
    - symmetry. apply filter_all.
      eapply Forall_impl; [apply (inv_stack_bound _ _ I)|].
      intros x Hx. simpl in *. lia. }
  pose proof (inv_parent _ _ I D HD) as Hlast.
  unfold bind, getitem. rewrite py_index_last, Hlast. unfold ret.
  do 3 f_equal. apply alter_app_l.
  assert (nearest_shallower ds D ∈ stack st) as Hin.
  { apply last_Some_elem_of in Hlast.
    by apply list_elem_of_filter in Hlast as [_ ?]. }
  pose proof (inv_stack_dom _ _ I) as Hdom.
  rewrite Forall_forall in Hdom. by apply Hdom.
Qed.

Lemma alternating_S n :
  alternating (S n) = alternating n ++ [if Nat.even n then "right" else "left"].
Proof. unfold alternating. by rewrite seq_S, fmap_app. Qed.

Lemma branch_color_snoc vs v :
  branch_color (vs ++ [v])
  = if decide (is_depth1 v) then v.2 else branch_color vs.
Proof.
  unfold branch_color. rewrite filter_app, filter_cons, filter_nil.
  case_decide.
  - by rewrite last_snoc.
  - by rewrite app_nil_r.
Qed.

Lemma heap_length ds st : InvTree ds st -> length (heap st) = S (length ds).
Proof.
  intros I. pose proof (inv_levels _ _ I) as H.
  apply (f_equal length) in H. by rewrite !length_fmap in H.
Qed.

Lemma stack_dom ds st x :
  InvTree ds st -> x ∈ stack st -> (x < length (heap st))%nat.
Proof.
  intros I. pose proof (inv_stack_dom _ _ I) as H.
  rewrite Forall_forall in H. apply H.
Qed.

Lemma InvTree_push ds st D n m bg dir :
  InvTree ds st -> 1 <= D ->
  Node.level n = D -> Node.children n = [] -> Node.isroot n = false ->
  Node.background_color n = bg ->
  (D = 1 ->
   py_index directions (direction st) = Some (Node.direction n) /\
   dir = 1 - direction st) ->
  (D <> 1 -> bg = background_color st /\ dir = direction st) ->
  InvTree (ds ++ [D])
    (mkFrame m bg dir D (root st)
       (filter (fun x => lvl ds x < D) (stack st) ++ [length (heap st)])
       (alter (Node.add_child (length (heap st)))
              (nearest_shallower ds D) (heap st) ++ [n])).
Proof.
  intros I HD Hlv Hch Hir Hbg H1 Hn1.
  pose proof (heap_length _ _ I) as Hlen.
  pose proof (nearest_shallower_bound ds D) as Htop.
  assert (view <$> (alter (Node.add_child (length (heap st)))
                          (nearest_shallower ds D) (heap st) ++ [n])
          = (view <$> heap st) ++ [view n]) as Hviews.
  { rewrite fmap_app. f_equal. by apply fmap_alter_same. }
  assert (filter is_depth1 ((view <$> heap st) ++ [view n])
          = filter is_depth1 (view <$> heap st)
            ++ (if decide (D = 1) then [view n] else [])) as Hd1.
  { rewrite filter_app, filter_cons, filter_nil.
    assert (is_depth1 (view n) <-> D = 1) by (by rewrite <- Hlv).
    repeat case_decide; tauto. }
  assert (bg = branch_color ((view <$> heap st) ++ [view n])) as Hbc.
  { rewrite branch_color_snoc.
    assert (is_depth1 (view n) <-> D = 1) as Hiff by (by rewrite <- Hlv).
    destruct (decide (is_depth1 (view n))) as [E|E]; [done|].
    destruct Hn1 as [-> _]; [tauto|]. apply (inv_background _ _ I). }
  split; simpl.
  - apply (inv_root _ _ I).
  - rewrite Hviews, fmap_app, (inv_levels _ _ I). simpl. by rewrite Hlv.
  - rewrite Forall_app, length_app, length_alter. simpl. split.
    + apply Forall_forall. intros x Hx.
      apply list_elem_of_filter in Hx as [_ Hin].
      pose proof (stack_dom _ _ _ I Hin). lia.
    + repeat constructor. lia.
  - rewrite Forall_app. split.
    + apply Forall_forall. intros x Hx.
      apply list_elem_of_filter in Hx as [Hx Hin].
      pose proof (stack_dom _ _ _ I Hin).
      rewrite lvl_snoc_old by lia. lia.
    + repeat constructor. rewrite Hlen, lvl_snoc_new. lia.
  - intros D' HD'. rewrite filter_app, nearest_shallower_snoc.
    assert (filter (fun x => lvl (ds ++ [D]) x < D')
                   (filter (fun x => lvl ds x < D) (stack st))
            = filter (fun x => lvl ds x < D')
                     (filter (fun x => lvl ds x < D) (stack st))) as ->.
    { apply filter_ext_Forall, Forall_forall. intros x Hx.
      apply list_elem_of_filter in Hx as [_ Hin].
      pose proof (stack_dom _ _ _ I Hin).
      by rewrite lvl_snoc_old by lia. }
    rewrite filter_cons, filter_nil, Hlen, lvl_snoc_new.
    destruct (Z.ltb_spec D D') as [Hlt|Hge].
    + rewrite decide_True by done. by rewrite last_snoc.
    + rewrite decide_False by lia. rewrite app_nil_r.
      rewrite list_filter_filter.
      rewrite <- (inv_parent _ _ I D' HD'). f_equal.
      apply filter_ext_Forall, Forall_forall. intros x _. simpl. lia.
  - intros r n' Hr. rewrite length_app, length_alter. simpl.
    destruct (decide (r < length (heap st))%nat) as [Hlt|Hge].
    + rewrite lookup_app_l in Hr by (by rewrite length_alter).
      destruct (decide (r = nearest_shallower ds D)) as [->|Hne].
      * rewrite list_lookup_alter_eq in Hr.
        destruct (heap st !! nearest_shallower ds D) as [n0|] eqn:E; [|done].
        injection Hr as <-. simpl. rewrite Forall_app. split.
        -- eapply Forall_impl; [apply (inv_tree _ _ I _ _ E)|]. simpl. lia.
        -- repeat constructor; lia.
      * rewrite list_lookup_alter_ne in Hr by done.
        eapply Forall_impl; [apply (inv_tree _ _ I _ _ Hr)|]. simpl. lia.
    + rewrite lookup_app_r in Hr by (rewrite length_alter; lia).
      rewrite length_alter in Hr.
      destruct (r - length (heap st))%nat as [|k] eqn:E; [|done].
      injection Hr as <-. by rewrite Hch.
  - rewrite Forall_app. split; [|by repeat constructor].
    apply Forall_alter; [apply (inv_isroot _ _ I)|done].
  - rewrite Hviews, Hd1. case_decide as E.
    + destruct (H1 E) as [_ ->]. rewrite (inv_direction _ _ I).
      rewrite length_app. simpl.
      set (c := length (filter is_depth1 (view <$> heap st))).
      replace (c + 1)%nat with (S c) by lia.
      rewrite Nat.even_succ, <- Nat.negb_even.
      by destruct (Nat.even c).
    + destruct (Hn1 E) as [_ ->]. rewrite app_nil_r.
      apply (inv_direction _ _ I).
  - rewrite Hviews, Hd1. case_decide as E.
    + rewrite fmap_app, length_app. simpl.
      set (c := length (filter is_depth1 (view <$> heap st))).
      replace (c + 1)%nat with (S c) by lia.
      rewrite alternating_S, (inv_directions _ _ I). fold c. f_equal.
      destruct (H1 E) as [Hd _]. rewrite (inv_direction _ _ I) in Hd.
      fold c in Hd. f_equal.
      destruct (Nat.even c); simpl in Hd; by injection Hd as <-.
    + rewrite app_nil_r. apply (inv_directions _ _ I).
  - rewrite Hviews. done.
  - intros j v Hj Hv. rewrite Hviews in Hv |- *.
    destruct (decide (j < length (view <$> heap st))%nat) as [Hlt|Hge].
    + rewrite lookup_app_l in Hv by done.
      rewrite take_app_le by lia.
      by apply (inv_backgrounds _ _ I).
    + rewrite lookup_app_r in Hv by lia.
      destruct (j - length (view <$> heap st))%nat as [|k] eqn:E; [|done].
      injection Hv as <-.
      rewrite take_ge by (rewrite length_app; simpl; lia).
      simpl. by rewrite Hbg.
Qed.

(** ** The metadata pattern leaves the tree alone *)

Lemma parse_meta_shape line st :
  exists m h,
    parse_meta line st
    = mkFrame m (background_color st) (direction st) (level st) (root st)
              (stack st) h /\
    (h = heap st \/
     exists v, h = alter (Node.set_topic v) (root st) (heap st)).
Proof.
  unfold parse_meta. destruct (Str.re_meta line) as [[k v]|].
  - destruct (String.eqb (Str.lower k) "title");
      do 2 eexists; (split; [reflexivity|]); eauto.
  - exists (meta st), (heap st). by destruct st; auto.
Qed.

Lemma InvTree_retopic ds st m h :
  InvTree ds st ->
  (h = heap st \/ exists v, h = alter (Node.set_topic v) (root st) (heap st)) ->
  InvTree ds (mkFrame m (background_color st) (direction st) (level st)
                      (root st) (stack st) h).
Proof.
  intros I [->|[v ->]]; [by destruct I|].
  assert (view <$> alter (Node.set_topic v) (root st) (heap st)
          = view <$> heap st) as Hv by (by apply fmap_alter_same).
  destruct I; split; simpl; rewrite ?Hv, ?length_alter; try done.
  - intros r n Hr.
    destruct (decide (r = root st)) as [->|Hne].
    + rewrite list_lookup_alter_eq in Hr.
      destruct (heap st !! root st) as [n0|] eqn:E; [|done].
      injection Hr as <-. simpl. by eapply inv_tree0.
    + rewrite list_lookup_alter_ne in Hr by done. by eapply inv_tree0.
  - by apply Forall_alter.
Qed.

Lemma InvTree_parse_meta ds st line :
  InvTree ds st -> InvTree ds (parse_meta line st).
Proof.
  intros I. destruct (parse_meta_shape line st) as (m & h & -> & Hh).
  by apply InvTree_retopic.
Qed.

Lemma depths_snoc done line :
  depths (done ++ [line])
  = depths done ++ match heading_depth line with
                   | Some D => [D]
                   | None => []
                   end.
Proof.
  unfold depths. rewrite omap_app. simpl. by destruct (heading_depth line).
Qed.

(** ** The invariant is kept by every line *)

Lemma loop_body_InvTree fuel done st line w st' w' :
  InvTree (depths done) st ->
  loop_body fuel st line w = Ok (st', w') ->
  InvTree (depths (done ++ [line])) st'.
Proof.
  intros I H. rewrite loop_body_eq in H.
  apply (InvTree_parse_meta _ _ (Str.strip line)) in I.
  rewrite depths_snoc. unfold heading_depth.
  destruct (Str.re_heading (Str.strip line)) as [[stars text]|] eqn:E.
  - pose proof (stars_length _ _ _ E) as HD.
    rewrite (parse_heading_eq _ _ _ _ _ _ E) in H. cbv zeta in H.
    destruct (Z.of_nat (String.length stars) =? 1) eqn:E1.
    + apply Z.eqb_eq in E1. inv_bind H. inv_bind H.
      rewrite (push_node_eq _ _ _ _ _ _ _ I HD) in H. injection H as <- <-.
      unfold getitem in H0.
      destruct (py_index directions _) as [d|] eqn:Ed; [|done].
      apply ret_Ok in H0 as [-> ->].
      by apply InvTree_push.
    + apply Z.eqb_neq in E1.
      rewrite (push_node_eq _ _ _ _ _ _ _ I HD) in H. injection H as <- <-.
      by apply InvTree_push.
  - unfold parse_heading in H. rewrite E in H.
    apply ret_Ok in H as [-> ->]. by rewrite app_nil_r.
Qed.

Lemma foldM_invariant (J : list string -> Frame -> World -> Prop) fuel :
  (forall done st w line st' w',
     J done st w -> loop_body fuel st line w = Ok (st', w') ->
     J (done ++ [line]) st' w') ->
  forall lines done st w st' w',
    J done st w -> foldM (loop_body fuel) st lines w = Ok (st', w') ->
    J (done ++ lines) st' w'.
Proof.
  intros Hstep lines. induction lines as [|line lines IH];
    intros done st w st' w' HJ H; simpl in H.
  - apply ret_Ok in H as [-> ->]. by rewrite app_nil_r.
  - inv_bind H. replace (done ++ line :: lines) with ((done ++ [line]) ++ lines)
      by (by rewrite <- app_assoc).
    eapply IH; [|done]. by eapply Hstep.
Qed.

Lemma InvTree_init c i :
  InvTree []
    (mkFrame [("version", PyFloat version_default)] None 0 (-1) 0%nat [0%nat]
       [Node.mk "root" 0 i false true "right" [] (Some c)
                (Some foreground_color)]).
Proof.
  split; simpl; try done.
  - repeat constructor.
  - repeat constructor. unfold lvl. simpl. lia.
  - intros D HD. rewrite filter_cons, filter_nil.
    rewrite decide_True by (unfold lvl; simpl; lia). done.
  - intros [|r] n; [|done]. intros [= <-]. constructor.
  - repeat constructor.
  - intros [|j] v Hj; [lia|done].
Qed.

(** The state after the root is created, and the state at the end. *)
Lemma org2mind_parse_Ok fuel lines w st' w' :
  org2mind_parse fuel lines w = Ok (st', w') ->
  exists c w1 st0,
    random_color fuel w = Ok (c, w1) /\
    st0 = mkFrame [("version", PyFloat version_default)] None 0 (-1) 0%nat
            [0%nat]
            [Node.mk "root" 0 (entropy w1 (uuid_pos w1)) false true "right" []
                     (Some c) (Some foreground_color)] /\
    foldM (loop_body fuel) st0 lines
          (mkWorld (rng w1) (rng_pos w1) (last_color w1) (entropy w1)
                   (S (uuid_pos w1)))
    = Ok (st', w').
Proof.
  unfold org2mind_parse. intros H. inv_bind H.
  unfold bind at 1, Node_new, bind, uuid4_hex, ret in H.
  eauto 10.
Qed.

Lemma org2mind_parse_InvTree fuel lines w st' w' :
  org2mind_parse fuel lines w = Ok (st', w') -> InvTree (depths lines) st'.
Proof.
  intros H. apply org2mind_parse_Ok in H as (c & w1 & st0 & _ & -> & H).
  apply (foldM_invariant (fun done st _ => InvTree (depths done) st) fuel)
    with (done := []) in H; [done| |apply InvTree_init].
  intros. by eapply loop_body_InvTree.
Qed.

(** A heading line on a state that satisfies the invariant: what the new
    state is. [d], [bg] and [dir] are the direction of the new node, its
    background color, and the index of the next direction. *)
Lemma parse_heading_Ok fuel ds st line stars text w st' w' :
  InvTree ds st ->
  Str.re_heading line = Some (stars, text) ->
  parse_heading fuel line st w = Ok (st', w') ->
  let D := Z.of_nat (String.length stars) in
  let w1 := mkWorld (rng w) (rng_pos w) (last_color w) (entropy w)
                    (S (uuid_pos w)) in
  1 <= D /\
  exists d bg dir,
    (D = 1 ->
     py_index directions (direction st) = Some d /\
     dir = 1 - direction st /\
     exists c, random_color fuel w1 = Ok (c, w') /\ bg = Some c) /\
    (D <> 1 ->
     d = "right" /\ bg = background_color st /\ dir = direction st /\
     w' = w1) /\
    st' = mkFrame (meta st) bg dir D (root st)
            (filter (fun x => lvl ds x < D) (stack st) ++ [length (heap st)])
            (alter (Node.add_child (length (heap st)))
                   (nearest_shallower ds D) (heap st)
             ++ [new_node text D (entropy w (uuid_pos w)) d bg]).
Proof.
  intros I E H D w1. pose proof (stars_length _ _ _ E) as HD.
  split; [done|].
  rewrite (parse_heading_eq _ _ _ _ _ _ E) in H. cbv zeta in H.
  fold D w1 in H. destruct (D =? 1) eqn:E1.
  - apply Z.eqb_eq in E1. inv_bind H. inv_bind H.
    rewrite (push_node_eq _ _ _ _ _ _ _ I HD) in H. injection H as <- <-.
    unfold getitem in H0.
    destruct (py_index directions _) as [d|] eqn:Ed; [|done].
    apply ret_Ok in H0 as [-> ->].
    exists d, (Some a0), (1 - direction st). repeat split; eauto; lia.
  - apply Z.eqb_neq in E1.
    rewrite (push_node_eq _ _ _ _ _ _ _ I HD) in H. injection H as <- <-.
    exists "right", (background_color st), (direction st).
    repeat split; eauto; lia.
Qed.

(** ** Nodes and their views *)

Lemma depth1_view h : view <$> depth1 h = filter is_depth1 (view <$> h).
Proof.
  unfold depth1. induction h as [|n h IH]; [done|].
  rewrite fmap_cons, !filter_cons.
  assert (is_depth1 (view n) <-> Node.level n = 1) by done.
  repeat case_decide; try tauto; rewrite ?fmap_cons; by rewrite IH.
Qed.

Lemma depth1_length h :
  length (depth1 h) = length (filter is_depth1 (view <$> h)).
Proof. by rewrite <- depth1_view, length_fmap. Qed.

Lemma depth1_directions h :
  Node.direction <$> depth1 h
  = (fun v => v.1.2) <$> filter is_depth1 (view <$> h).
Proof. by rewrite <- depth1_view, <- list_fmap_compose. Qed.

Lemma depth1_backgrounds h :
  Node.background_color <$> depth1 h
  = (fun v => v.2) <$> filter is_depth1 (view <$> h).
Proof. by rewrite <- depth1_view, <- list_fmap_compose. Qed.

Lemma heap_levels ds st : InvTree ds st -> Node.level <$> heap st = 0 :: ds.
Proof.
  intros I. rewrite <- (inv_levels _ _ I). by rewrite <- list_fmap_compose.
Qed.

(** * Properties of the program *)

(** ** The color allocator (C5) *)

(** C5. Whatever the state of the allocator, the colors that [n] calls in
    a row return are all of the palette, which has six colors, and no color
    equals the one returned just before it: not the one a call before these
    left in [last_color], and not its neighbour in the sequence. *)
Theorem C5_colors_in_palette_no_immediate_repeat fuel n w cs w' :
  random_colors fuel n w = Ok (cs, w') ->
  length colors = 6%nat /\
  length cs = n /\
  Forall (fun c => c ∈ colors) cs /\
  (forall c, head cs = Some c -> last_color w <> Some c) /\
  adjacent_distinct cs.
Proof.
  intros H. apply random_colors_Ok in H as (? & ? & ? & ? & _). done.
Qed.

Lemma C5_witness :
  exists w',
    random_colors 2 4 demo_world
    = Ok (["#5EBD3E"; "#FFB900"; "#F78200"; "#E23838"], w') /\
    (length colors = 6%nat /\
     length ["#5EBD3E"; "#FFB900"; "#F78200"; "#E23838"] = 4%nat /\
     Forall (fun c => c ∈ colors)
            ["#5EBD3E"; "#FFB900"; "#F78200"; "#E23838"] /\
     (forall c, head ["#5EBD3E"; "#FFB900"; "#F78200"; "#E23838"] = Some c ->
                last_color demo_world <> Some c) /\
     adjacent_distinct ["#5EBD3E"; "#FFB900"; "#F78200"; "#E23838"]).
Proof.
  eexists. split; [vm_compute; reflexivity|].
  eapply (C5_colors_in_palette_no_immediate_repeat 2 4 demo_world).
  vm_compute. reflexivity.
Defined.

(** ** The exported tree and the heap *)

(** [asdict] goes through a heap in which children come after their
    parent without running out of depth. *)
Lemma asdict_total (h : list Node.t) :
  (forall r n, h !! r = Some n ->
               Forall (fun c => (r < c < length h)%nat) (Node.children n)) ->
  forall depth x,
    (x < length h)%nat -> (length h - x <= depth)%nat ->
    is_Some (asdict depth h x).
Proof.
  intros Htree depth. induction depth as [|depth IH]; intros x Hx Hd; [lia|].
  simpl. destruct (lookup_lt_is_Some_2 h x Hx) as [n Hn]. rewrite Hn.
  assert (is_Some (mapM (asdict depth h) (Node.children n))) as [cs ->];
    [|by eauto].
  apply mapM_is_Some. eapply Forall_impl; [apply (Htree _ _ Hn)|].
  intros c [Hc1 Hc2]. simpl. apply IH; lia.
Qed.

Lemma asdict_mono depth depth' (h : list Node.t) x j :
  asdict depth h x = Some j -> (depth <= depth')%nat ->
  asdict depth' h x = Some j.
Proof.
  revert depth' x j.
  induction depth as [|depth IH]; intros depth' x j H Hle; [done|].
  destruct depth' as [|depth']; [lia|]. simpl in *.
  destruct (h !! x) as [n|]; [|done].
  destruct (mapM (asdict depth h) (Node.children n)) as [cs|] eqn:E; [|done].
  assert (mapM (asdict depth' h) (Node.children n) = Some cs) as ->; [|done].
  apply mapM_Some. apply mapM_Some in E.
  eapply Forall2_impl; [exact E|]. intros c y Hc. apply IH; [done|lia].
Qed.

(** When the interpreter has room for the tree, how much room it has does
    not show in the result. *)
Lemma asdict_room_irrelevant ds st room data :
  InvTree ds st ->
  asdict room (heap st) (root st) = Some data ->
  asdict (length (heap st)) (heap st) (root st) = Some data.
Proof.
  intros I H.
  destruct (asdict_total (heap st) (inv_tree _ _ I) (length (heap st)) (root st))
    as [data' H'].
  - rewrite (inv_root _ _ I), (heap_length _ _ I). lia.
  - lia.
  - destruct (decide (room <= length (heap st))%nat) as [Hle|Hgt].
    + by apply (asdict_mono room).
    + pose proof (asdict_mono _ room _ _ _ H' ltac:(lia)) as H2.
      rewrite H in H2. by injection H2 as ->.
Qed.

Lemma org2mind_Ok room fuel lines w m w' :
  org2mind room fuel lines w = Ok (m, w') ->
  exists st data,
    org2mind_parse fuel lines w = Ok (st, w') /\
    asdict (length (heap st)) (heap st) (root st) = Some data /\
    m = mkMind (meta st) "node_tree" data.
Proof.
  unfold org2mind. intros H. inv_bind H.
  destruct (asdict _ _ _) as [data|] eqn:E; [|done].
  apply ret_Ok in H as [-> ->].
  pose proof (org2mind_parse_InvTree _ _ _ _ _ H0) as I.
  apply (asdict_room_irrelevant _ _ _ _ I) in E. eauto.
Qed.

Lemma Forall_js_nodes (P : jsnode -> Prop) t l i r e d cs b f :
  P (JsNode t l i r e d cs b f) ->
  Forall (fun c => Forall P (js_nodes c)) cs ->
  Forall P (js_nodes (JsNode t l i r e d cs b f)).
Proof.
  intros HP Hcs. simpl. constructor; [done|]. clear HP.
  induction Hcs as [|c cs Hc _ IH]; [constructor|].
  by apply Forall_app.
Qed.

Lemma asdict_isroot depth h x j :
  Forall (fun n => Node.isroot n = false) h ->
  asdict depth h x = Some j ->
  Forall (fun j => js_isroot j = false) (js_nodes j).
Proof.
  intros Hh. revert x j. induction depth as [|depth IH]; intros x j H; [done|].
  simpl in H. destruct (h !! x) as [n|] eqn:Ex; [|done].
  destruct (mapM (asdict depth h) (Node.children n)) as [cs|] eqn:Ecs; [|done].
  injection H as <-. apply Forall_js_nodes.
  - simpl. rewrite Forall_forall in Hh. apply Hh.
    by eapply list_elem_of_lookup_2.
  - apply mapM_Some in Ecs.
    induction Ecs as [|c y l k Hc _ IHl]; constructor; eauto.
Qed.

(** ** Directions (C6) *)

(** C6. The heap lists the root and then the nodes of the heading lines
    in document order (its levels are 0 and then the depths of the heading
    lines), and the directions of the nodes of depth 1, in that order, are
    "right", "left", "right", ... whatever lies between them. *)
Theorem C6_depth1_directions_alternate fuel lines w st w' :
  org2mind_parse fuel lines w = Ok (st, w') ->
  Node.level <$> heap st = 0 :: depths lines /\
  Node.direction <$> depth1 (heap st)
  = alternating (length (depth1 (heap st))).
Proof.
  intros H. apply org2mind_parse_InvTree in H as I. split.
  - by apply heap_levels.
  - rewrite depth1_directions, depth1_length. apply (inv_directions _ _ I).
Qed.

Lemma C6_witness :
  exists st w',
    org2mind_parse 2 jump_doc demo_world = Ok (st, w') /\
    (Node.level <$> heap st = 0 :: depths jump_doc /\
     Node.direction <$> depth1 (heap st)
     = alternating (length (depth1 (heap st)))) /\
    Node.direction <$> depth1 (heap st) = ["right"; "left"].
Proof.
  eexists _, _. split; [vm_compute; reflexivity|]. split.
  - eapply (C6_depth1_directions_alternate 2 jump_doc demo_world).
    vm_compute. reflexivity.
  - vm_compute. reflexivity.
Defined.

(** ** The root flag (C1) *)

(** C1. No node of the exported tree has [isroot] set, the root included:
    [Node] gives the field the default [False] and [org2mind] builds the
    root without it. *)
Theorem C1_isroot_false_on_every_node room fuel lines w m w' :
  org2mind room fuel lines w = Ok (m, w') ->
  js_isroot (mind_data m) = false /\
  Forall (fun j => js_isroot j = false) (js_nodes (mind_data m)).
Proof.
  intros H. apply org2mind_Ok in H as (st & data & H & Hd & ->).
  apply org2mind_parse_InvTree in H as I.
  apply asdict_isroot in Hd; [|apply (inv_isroot _ _ I)].
  split; [|done]. simpl. destruct data. simpl in Hd.
  by apply Forall_cons in Hd as [? _].
Qed.

Lemma C1_witness :
  exists m w',
    org2mind demo_room 1 [] demo_world = Ok (m, w') /\
    (js_isroot (mind_data m) = false /\
     Forall (fun j => js_isroot j = false) (js_nodes (mind_data m))).
Proof.
  eexists _, _. split; [vm_compute; reflexivity|].
  eapply (C1_isroot_false_on_every_node demo_room 1 [] demo_world).
  vm_compute. reflexivity.
Defined.

(** ** Lines that match nothing (C9) *)

Lemma loop_body_skip fuel st line :
  Str.strip line = "" \/
  (Str.re_meta (Str.strip line) = None /\
   Str.re_heading (Str.strip line) = None) ->
  loop_body fuel st line = ret st.
Proof.
  intros [H|[Hm Hh]].
  - unfold loop_body. by rewrite H.
  - rewrite loop_body_eq. unfold parse_heading, parse_meta.
    by rewrite Hm, Hh.
Qed.

Lemma foldM_skip fuel l1 line l2 st w :
  (forall st', loop_body fuel st' line = ret st') ->
  foldM (loop_body fuel) st (l1 ++ line :: l2) w
  = foldM (loop_body fuel) st (l1 ++ l2) w.
Proof.
  intros H. rewrite !foldM_app. unfold bind.
  destruct (foldM (loop_body fuel) st l1 w) as [[s1 w1]| |]; [|done|done].
  simpl. unfold bind. by rewrite H.
Qed.

(** C9. A line that is blank once stripped, or that matches neither
    pattern, is a step that returns and changes nothing; the conversion of
    a document with such a line gives the result, whatever it is, of the
    conversion of the document without it. *)
Theorem C9_unmatched_line_has_no_effect room fuel l1 line l2 w :
  Str.strip line = "" \/
  (Str.re_meta (Str.strip line) = None /\
   Str.re_heading (Str.strip line) = None) ->
  (forall st w0, loop_body fuel st line w0 = Ok (st, w0)) /\
  org2mind_parse fuel (l1 ++ line :: l2) w
  = org2mind_parse fuel (l1 ++ l2) w /\
  org2mind room fuel (l1 ++ line :: l2) w = org2mind room fuel (l1 ++ l2) w.
Proof.
  intros H.
  assert (forall st, loop_body fuel st line = ret st) as Hskip
    by (intros; by apply loop_body_skip).
  assert (org2mind_parse fuel (l1 ++ line :: l2) w
          = org2mind_parse fuel (l1 ++ l2) w) as Hparse.
  { unfold org2mind_parse, bind.
    destruct (random_color fuel w) as [[c w1]| |]; [|done|done].
    destruct (Node_new _ _ _ _ w1) as [[n w2]| |]; [|done|done].
    by apply foldM_skip. }
  split; [|split; [done|]].
  - intros st w0. by rewrite Hskip.
  - unfold org2mind, bind. by rewrite Hparse.
Qed.

Lemma C9_witness :
  (Str.strip "some text" = "" \/
   (Str.re_meta (Str.strip "some text") = None /\
    Str.re_heading (Str.strip "some text") = None)) /\
  ((forall st w0, loop_body 2 st "some text" w0 = Ok (st, w0)) /\
   org2mind_parse 2 (["#+TITLE: Plan"; "* A"; "** A1"; ""]
                       ++ "some text" :: ["* B"]) demo_world
   = org2mind_parse 2 (["#+TITLE: Plan"; "* A"; "** A1"; ""] ++ ["* B"])
                    demo_world /\
   org2mind demo_room 2 (["#+TITLE: Plan"; "* A"; "** A1"; ""]
                 ++ "some text" :: ["* B"]) demo_world
   = org2mind demo_room 2 (["#+TITLE: Plan"; "* A"; "** A1"; ""] ++ ["* B"])
              demo_world).
Proof.
  split.
  - right. split; reflexivity.
  - apply (C9_unmatched_line_has_no_effect demo_room 2
             ["#+TITLE: Plan"; "* A"; "** A1"; ""] "some text" ["* B"]
             demo_world).
    right. split; reflexivity.
Defined.

(** ** The metadata (C3) *)

Lemma dict_get_set {V : Type} k k' (v : V) d :
  dict_get k (dict_set k' v d)
  = if String.eqb k' k then Some v else dict_get k d.
Proof.
  induction d as [|[k2 v2] d IH]; simpl; [done|].
  destruct (String.eqb k2 k') eqn:E2; simpl.
  - apply String.eqb_eq in E2 as ->. by destruct (String.eqb k' k).
  - rewrite IH. destruct (String.eqb k2 k) eqn:E; [|done].
    apply String.eqb_eq in E as ->. rewrite String.eqb_sym in E2.
    by rewrite E2.
Qed.

Lemma declared_snoc k done line :
  declared k (done ++ [line])
  = match meta_entry line with
    | Some (k', v) => if String.eqb k' k then Some v else declared k done
    | None => declared k done
    end.
Proof.
  unfold declared. rewrite omap_app. simpl.
  destruct (meta_entry line) as [[k' v]|]; simpl.
  - destruct (String.eqb k' k); simpl.
    + by rewrite last_snoc.
    + by rewrite app_nil_r.
  - by rewrite app_nil_r.
Qed.

Lemma parse_meta_meta line st :
  meta (parse_meta line st)
  = match Str.re_meta line with
    | Some (k, v) => dict_set k (PyStr v) (meta st)
    | None => meta st
    end.
Proof.
  unfold parse_meta. destruct (Str.re_meta line) as [[k v]|]; [|done].
  by destruct (String.eqb (Str.lower k) "title").
Qed.

Lemma push_node_meta st D n bg dir w st' w' :
  push_node st D n bg dir w = Ok (st', w') -> meta st' = meta st.
Proof.
  unfold push_node. intros H. inv_bind H. by apply ret_Ok in H as [-> _].
Qed.

Lemma parse_heading_meta fuel line st w st' w' :
  parse_heading fuel line st w = Ok (st', w') -> meta st' = meta st.
Proof.
  destruct (Str.re_heading line) as [[stars text]|] eqn:E.
  - rewrite (parse_heading_eq _ _ _ _ _ _ E). cbv zeta.
    destruct (_ =? 1); intros H.
    + inv_bind H. inv_bind H. by apply push_node_meta in H.
    + by apply push_node_meta in H.
  - unfold parse_heading. rewrite E. by intros [-> _]%ret_Ok.
Qed.

Lemma loop_body_InvMeta fuel done st line w st' w' :
  InvMeta done st ->
  loop_body fuel st line w = Ok (st', w') ->
  InvMeta (done ++ [line]) st'.
Proof.
  intros I H k. rewrite loop_body_eq in H.
  apply parse_heading_meta in H. rewrite H, parse_meta_meta, declared_snoc.
  unfold meta_entry. destruct (Str.re_meta (Str.strip line)) as [[k' v]|].
  - rewrite dict_get_set. destruct (String.eqb k' k); [done|apply I].
  - apply I.
Qed.

Lemma org2mind_parse_InvMeta fuel lines w st' w' :
  org2mind_parse fuel lines w = Ok (st', w') -> InvMeta lines st'.
Proof.
  intros H. apply org2mind_parse_Ok in H as (c & w1 & st0 & _ & -> & H).
  apply (foldM_invariant (fun done st _ => InvMeta done st) fuel)
    with (done := []) in H; [done| |].
  - intros. by eapply loop_body_InvMeta.
  - intros k. simpl. by destruct (String.eqb "version" k).
Qed.

(** C3, as the code has it. The metadata always has a "version" entry.
    When no line declares the key it is the float [0.2] of line 124, a
    number and not a string; when a line declares it, it is the string
    declared last. *)
Theorem C3_version_default_is_the_float room fuel lines w m w' :
  org2mind room fuel lines w = Ok (m, w') ->
  (exists v, dict_get "version" (mind_meta m) = Some v) /\
  (declared "version" lines = None ->
   dict_get "version" (mind_meta m) = Some (PyFloat version_default)) /\
  (forall v, declared "version" lines = Some v ->
             dict_get "version" (mind_meta m) = Some (PyStr v)).
Proof.
  intros H. apply org2mind_Ok in H as (st & data & H & _ & ->). simpl.
  apply org2mind_parse_InvMeta in H. specialize (H "version").
  rewrite H. destruct (declared "version" lines) as [v|]; simpl.
  - split; [eauto|]. split; [done|]. by intros ? [= ->].
  - split; [eauto|]. split; done.
Qed.

Lemma C3_witness :
  exists m w',
    org2mind demo_room 2 plan_doc demo_world = Ok (m, w') /\
    ((exists v, dict_get "version" (mind_meta m) = Some v) /\
     (declared "version" plan_doc = None ->
      dict_get "version" (mind_meta m) = Some (PyFloat version_default)) /\
     (forall v, declared "version" plan_doc = Some v ->
                dict_get "version" (mind_meta m) = Some (PyStr v))).
Proof.
  eexists _, _. split; [vm_compute; reflexivity|].
  eapply (C3_version_default_is_the_float demo_room 2 plan_doc demo_world).
  vm_compute. reflexivity.
Defined.

(** C3, as the specification states it, fails on the empty document: the
    entry is there, and it is not the string "0.2". *)
Lemma C3_counterexample :
  exists m w',
    org2mind demo_room 1 [] demo_world = Ok (m, w') /\
    dict_get "version" (mind_meta m) = Some (PyFloat version_default) /\
    dict_get "version" (mind_meta m) <> Some (PyStr "0.2").
Proof.
  eexists _, _. split; [vm_compute; reflexivity|]. split; [reflexivity|].
  discriminate.
Qed.

(** ** Parents (C4) *)

(** What [nearest_shallower] computes, in words: heading [k] (counted from
    0) of depth below [D] with no heading of depth below [D] after it, and
    the root when no heading has a depth below [D]. *)
Lemma nearest_shallower_spec ds D :
  (nearest_shallower ds D = 0%nat /\
   forall k d, ds !! k = Some d -> D <= d) \/
  (exists k d,
     nearest_shallower ds D = S k /\ ds !! k = Some d /\ d < D /\
     forall k' d', (k < k')%nat -> ds !! k' = Some d' -> D <= d').
Proof.
  induction ds as [|d ds IH] using rev_ind.
  - left. split; [done|]. by intros k d.
  - rewrite nearest_shallower_snoc. destruct (Z.ltb_spec d D) as [Hlt|Hge].
    + right. exists (length ds), d. split; [done|].
      rewrite lookup_app_r by lia.
      replace (length ds - length ds)%nat with 0%nat by lia.
      split; [done|]. split; [done|]. intros k' d' Hk Hd'.
      apply lookup_lt_Some in Hd'. rewrite length_app in Hd'. simpl in Hd'. lia.
    + destruct IH as [[H0 Hall]|(k & d0 & Hk & Hd0 & Hlt & Hall)].
      * left. split; [done|]. intros k d0 Hk.
        apply lookup_app_Some in Hk as [Hk|[_ Hk]]; [by eapply Hall|].
        destruct (k - length ds)%nat; [|done]. by injection Hk as <-.
      * right. exists k, d0. split; [done|].
        rewrite lookup_app_l by (by eapply lookup_lt_Some).
        split; [done|]. split; [done|]. intros k' d' Hk' Hd'.
        apply lookup_app_Some in Hd' as [Hd'|[_ Hd']]; [by eapply Hall|].
        destruct (k' - length ds)%nat; [|done]. by injection Hd' as <-.
Qed.

Lemma grows_refl h : grows h h.
Proof. intros r n Hr. exists n. by repeat split. Qed.

Lemma grows_trans h1 h2 h3 : grows h1 h2 -> grows h2 h3 -> grows h1 h3.
Proof.
  intros H12 H23 r n Hr.
  destruct (H12 _ _ Hr) as (n2 & Hr2 & ? & ? & ? & ? & ?).
  destruct (H23 _ _ Hr2) as (n3 & Hr3 & ? & ? & ? & ? & ?).
  exists n3. split; [done|]. repeat split; try congruence.
  - by etrans.
  - intros Hne. by rewrite H8, H3.
Qed.

Lemma grows_retopic h v : grows h (alter (Node.set_topic v) 0%nat h).
Proof.
  intros r n Hr. destruct (decide (r = 0%nat)) as [->|Hne].
  - exists (Node.set_topic v n). rewrite list_lookup_alter_eq, Hr.
    by repeat split.
  - exists n. rewrite list_lookup_alter_ne by done. by repeat split.
Qed.

Lemma grows_push h j p n : grows h (alter (Node.add_child j) p h ++ [n]).
Proof.
  intros r n0 Hr. pose proof (lookup_lt_Some _ _ _ Hr) as Hlt.
  rewrite lookup_app_l by (by rewrite length_alter).
  destruct (decide (r = p)) as [->|Hne].
  - exists (Node.add_child j n0). rewrite list_lookup_alter_eq, Hr.
    repeat split; try done. simpl. by apply prefix_app_r.
  - exists n0. rewrite list_lookup_alter_ne by done. by repeat split.
Qed.

Lemma loop_body_grows fuel ds st line w st' w' :
  InvTree ds st ->
  loop_body fuel st line w = Ok (st', w') ->
  grows (heap st) (heap st').
Proof.
  intros I H. rewrite loop_body_eq in H.
  assert (grows (heap st) (heap (parse_meta (Str.strip line) st))) as Hm.
  { destruct (parse_meta_shape (Str.strip line) st) as (m & h & -> & [->|[v ->]]).
    - apply grows_refl.
    - simpl. rewrite (inv_root _ _ I). apply grows_retopic. }
  apply (InvTree_parse_meta _ _ (Str.strip line)) in I.
  eapply grows_trans; [done|].
  destruct (Str.re_heading (Str.strip line)) as [[stars text]|] eqn:E.
  - destruct (parse_heading_Ok _ _ _ _ _ _ _ _ _ I E H)
      as (_ & d & bg & dir & _ & _ & ->).
    simpl. apply grows_push.
  - unfold parse_heading in H. rewrite E in H.
    apply ret_Ok in H as [-> _]. apply grows_refl.
Qed.

Lemma org2mind_parse_app fuel l1 l2 w :
  org2mind_parse fuel (l1 ++ l2) w
  = bind (org2mind_parse fuel l1)
         (fun st => foldM (loop_body fuel) st l2) w.
Proof.
  unfold org2mind_parse, bind.
  destruct (random_color fuel w) as [[c w1]| |]; [|done|done].
  destruct (Node_new _ _ _ _ w1) as [[n w2]| |]; [|done|done].
  by rewrite foldM_app.
Qed.

Lemma foldM_grows fuel lines done st w st' w' :
  InvTree (depths done) st ->
  foldM (loop_body fuel) st lines w = Ok (st', w') ->
  grows (heap st) (heap st').
Proof.
  intros I H.
  apply (foldM_invariant
           (fun done' s _ => InvTree (depths done') s /\ grows (heap st) (heap s))
           fuel) with (done := done) in H.
  - by destruct H.
  - intros done' s w0 line s' w0' [Is Hg] Hs. split.
    + by eapply loop_body_InvTree.
    + eapply grows_trans; [done|]. by eapply loop_body_grows.
  - split; [done|apply grows_refl].
Qed.

(** C4. Take a heading line of depth [D], with [l1] before it and [l2]
    after it. Its node has reference [j], one more than the number of
    heading lines before it. The node [p] of the nearest heading before it
    whose depth is below [D], or the root when there is none, has [j] as its
    last child when the line has been read, and still has it as a child
    when the whole document has been read. No condition bears on how depths
    follow one another: they may jump, and they may repeat. *)
Theorem C4_child_of_nearest_shallower_heading
    fuel l1 line l2 stars text w st w' :
  Str.re_heading (Str.strip line) = Some (stars, text) ->
  org2mind_parse fuel (l1 ++ line :: l2) w = Ok (st, w') ->
  let D := Z.of_nat (String.length stars) in
  let j := S (length (depths l1)) in
  let p := nearest_shallower (depths l1) D in
  ((p = 0%nat /\ forall k d, depths l1 !! k = Some d -> D <= d) \/
   (exists k d,
      p = S k /\ depths l1 !! k = Some d /\ d < D /\
      forall k' d', (k < k')%nat -> depths l1 !! k' = Some d' -> D <= d')) /\
  (exists st1 w1 np,
     org2mind_parse fuel (l1 ++ [line]) w = Ok (st1, w1) /\
     heap st1 !! p = Some np /\
     last (Node.children np) = Some j) /\
  (exists nj np,
     heap st !! j = Some nj /\
     Node.topic nj = text /\ Node.level nj = D /\
     heap st !! p = Some np /\
     j ∈ Node.children np).
Proof.
  intros E H D j p. split; [apply nearest_shallower_spec|].
  replace (l1 ++ line :: l2) with ((l1 ++ [line]) ++ l2) in H
    by (by rewrite <- app_assoc).
  rewrite org2mind_parse_app in H. inv_bind H. rename a into st1, w0 into w1.
  pose proof H0 as Hprefix.
  rewrite org2mind_parse_app in H0. inv_bind H0. rename a into sta, w0 into wa.
  simpl in H0. inv_bind H0. apply ret_Ok in H0 as [<- <-].
  pose proof (org2mind_parse_InvTree _ _ _ _ _ H1) as Ia.
  pose proof (org2mind_parse_InvTree _ _ _ _ _ Hprefix) as I1.
  pose proof (foldM_grows _ _ _ _ _ _ _ I1 H) as Hg.
  rewrite loop_body_eq in H2.
  apply (InvTree_parse_meta _ _ (Str.strip line)) in Ia.
  pose proof (heap_length _ _ Ia) as Hlen.
  pose proof (nearest_shallower_bound (depths l1) D) as Hp.
  destruct (parse_heading_Ok _ _ _ _ _ _ _ _ _ Ia E H2)
    as (_ & d & bg & dir & _ & _ & ->).
  simpl in Hg. rewrite Hlen in Hg. fold D j p in Hg.
  set (h := heap (parse_meta (Str.strip line) sta)) in *.
  set (n := new_node text D (entropy wa (uuid_pos wa)) d bg) in *.
  destruct (lookup_lt_is_Some_2 h p) as [np0 Hnp0]; [lia|].
  assert ((alter (Node.add_child j) p h ++ [n]) !! p
          = Some (Node.add_child j np0)) as Hp1.
  { rewrite lookup_app_l by (rewrite length_alter; lia).
    by rewrite list_lookup_alter_eq, Hnp0. }
  assert ((alter (Node.add_child j) p h ++ [n]) !! j = Some n) as Hj1.
  { rewrite lookup_app_r by (rewrite length_alter; lia).
    rewrite length_alter, Hlen.
    by replace (j - S (length (depths l1)))%nat with 0%nat by lia. }
  split.
  - eexists _, w1, (Node.add_child j np0). split; [exact Hprefix|].
    simpl. rewrite Hlen. fold D j p. split; [exact Hp1|].
    by rewrite last_snoc.
  - destruct (Hg _ _ Hj1) as (nj & Hnj & Hvj & _ & _ & _ & Htj).
    destruct (Hg _ _ Hp1) as (np & Hnp & _ & _ & _ & Hpre & _).
    exists nj, np. split; [done|]. split; [by apply Htj|].
    split; [by injection Hvj|]. split; [done|].
    destruct Hpre as [k ->]. simpl. rewrite !elem_of_app.
    left. right. by apply list_elem_of_singleton.
Qed.

Lemma C4_witness :
  exists st w',
    Str.re_heading (Str.strip "** Y") = Some ("**", "Y") /\
    org2mind_parse 2 (["*** Deep"; "* A"; "**** X"] ++ "** Y"
                        :: ["** Z"; "*** W"; "* C"]) demo_world
    = Ok (st, w') /\
    nearest_shallower (depths ["*** Deep"; "* A"; "**** X"]) 2 = 2%nat /\
    exists nj np,
      heap st !! 4%nat = Some nj /\
      Node.topic nj = "Y" /\ Node.level nj = 2 /\
      heap st !! 2%nat = Some np /\
      4%nat ∈ Node.children np.
Proof.
  eexists _, _. split; [reflexivity|]. split; [vm_compute; reflexivity|].
  split; [reflexivity|].
  refine (proj2 (proj2 (C4_child_of_nearest_shallower_heading
                          2 ["*** Deep"; "* A"; "**** X"] "** Y"
                          ["** Z"; "*** W"; "* C"] "**" "Y" demo_world
                          _ _ _ _))).
  - reflexivity.
  - vm_compute. reflexivity.
Defined.

(** ** Background colors (C7, C10) *)

(** The allocator neither reads nor writes the identifiers. *)
Lemma random_color_loop_uuid fuel w e u :
  random_color_loop fuel (with_uuid e u w)
  = result_map (fun '(c, w') => (c, with_uuid e u w'))
               (random_color_loop fuel w).
Proof.
  revert w. induction fuel as [|fuel IH]; intros w; [done|].
  simpl. unfold bind, choice, get_last_color. simpl.
  destruct (colors !! _) as [c|]; [|done]. simpl.
  destruct (last_color w) as [l|]; [|done].
  destruct (String.eqb c l); [|done].
  apply (IH (mkWorld (rng w) (S (rng_pos w)) (Some l) (entropy w)
                     (uuid_pos w))).
Qed.

Lemma random_color_uuid fuel w e u :
  random_color fuel (with_uuid e u w)
  = result_map (fun '(c, w') => (c, with_uuid e u w'))
               (random_color fuel w).
Proof.
  unfold random_color, bind. rewrite random_color_loop_uuid.
  by destruct (random_color_loop fuel w) as [[c w']| |].
Qed.

Lemma random_colors_snoc fuel n w cs wc c wc' :
  random_colors fuel n w = Ok (cs, wc) ->
  random_color fuel wc = Ok (c, wc') ->
  random_colors fuel (S n) w = Ok (cs ++ [c], wc').
Proof.
  revert w cs. induction n as [|n IH]; intros w cs H Hc.
  - apply ret_Ok in H as [-> ->]. simpl. unfold bind. by rewrite Hc.
  - simpl in H. inv_bind H. inv_bind H. apply ret_Ok in H as [-> ->].
    change (random_colors fuel (S (S n)) w)
      with (bind (random_color fuel)
                 (fun c0 => bind (random_colors fuel (S n))
                                 (fun cs0 => ret (c0 :: cs0))) w).
    unfold bind at 1. rewrite H0. unfold bind.
    by rewrite (IH _ _ H1 Hc).
Qed.

Lemma parse_meta_views line st :
  view <$> heap (parse_meta line st) = view <$> heap st.
Proof.
  destruct (parse_meta_shape line st) as (m & h & -> & [->|[v ->]]);
    [done|]. simpl. by apply fmap_alter_same.
Qed.

Lemma take1_snoc {A : Type} (l : list A) (x : A) :
  l <> [] -> take 1 (l ++ [x]) = take 1 l.
Proof. by destruct l. Qed.

Lemma loop_body_InvColors fuel w0 ds st line w st' w' :
  InvTree ds st -> InvColors fuel w0 st w ->
  loop_body fuel st line w = Ok (st', w') ->
  InvColors fuel w0 st' w'.
Proof.
  intros I (cs & wc & Hcs & Hw & Hbg) H.
  rewrite loop_body_eq in H.
  rewrite <- (parse_meta_views (Str.strip line)) in Hbg.
  apply (InvTree_parse_meta _ _ (Str.strip line)) in I.
  set (st1 := parse_meta (Str.strip line) st) in *.
  destruct (Str.re_heading (Str.strip line)) as [[stars text]|] eqn:E.
  - destruct (parse_heading_Ok _ _ _ _ _ _ _ _ _ I E H)
      as (HD & d & bg & dir & H1 & Hn1 & ->).
    set (D := Z.of_nat (String.length stars)) in *.
    set (n := new_node text D (entropy w (uuid_pos w)) d bg).
    assert (view <$> (alter (Node.add_child (length (heap st1)))
                            (nearest_shallower ds D) (heap st1) ++ [n])
            = (view <$> heap st1) ++ [view n]) as Hviews.
    { rewrite fmap_app. f_equal. by apply fmap_alter_same. }
    assert (view <$> heap st1 <> []) as Hne.
    { pose proof (heap_length _ _ I) as Hlen.
      intros Hnil. apply (f_equal length) in Hnil.
      rewrite length_fmap, Hlen in Hnil. done. }
    unfold InvColors. simpl heap. rewrite Hviews, take1_snoc by done.
    rewrite filter_app, filter_cons, filter_nil.
    destruct (decide (D = 1)) as [E1|E1].
    + destruct (H1 E1) as (_ & _ & c & Hc & ->).
      rewrite decide_True by done.
      rewrite Hw in Hc.
      change (mkWorld _ _ _ _ _)
        with (with_uuid (entropy w) (S (uuid_pos w)) wc) in Hc.
      rewrite random_color_uuid in Hc.
      destruct (random_color fuel wc) as [[c' wc']| |] eqn:Ec; [|done|done].
      simpl in Hc. injection Hc as -> <-.
      exists (cs ++ [c]), wc'. split; [|split].
      * rewrite length_app. simpl.
        replace (length cs + 1)%nat with (S (length cs)) by lia.
        by eapply random_colors_snoc.
      * done.
      * rewrite app_assoc, fmap_app, Hbg, fmap_app. done.
    + destruct (Hn1 E1) as (_ & _ & _ & ->).
      rewrite decide_False by done.
      exists cs, wc. split; [done|]. split.
      * simpl. rewrite Hw. done.
      * by rewrite app_nil_r.
  - unfold parse_heading in H. rewrite E in H.
    apply ret_Ok in H as [-> ->]. by exists cs, wc.
Qed.

Lemma org2mind_parse_InvColors fuel lines w st' w' :
  org2mind_parse fuel lines w = Ok (st', w') -> InvColors fuel w st' w'.
Proof.
  intros H. apply org2mind_parse_Ok in H as (c & w1 & st0 & Hc & -> & H).
  apply (foldM_invariant
           (fun done st w2 => InvTree (depths done) st /\ InvColors fuel w st w2)
           fuel) with (done := []) in H.
  - by destruct H.
  - intros done st w2 line st2 w3 [I J] Hs. split.
    + by eapply loop_body_InvTree.
    + by eapply loop_body_InvColors.
  - split; [apply InvTree_init|].
    exists [c], w1. split; [|split; [done|done]].
    simpl. unfold bind. by rewrite Hc.
Qed.

Lemma branch_color_app_none l1 l2 :
  Forall (fun v => ~ is_depth1 v) l2 ->
  branch_color (l1 ++ l2) = branch_color l1.
Proof.
  intros H. unfold branch_color.
  by rewrite filter_app, (filter_none _ l2), app_nil_r.
Qed.

Lemma lookup_view (h : list Node.t) k n :
  h !! k = Some n -> (view <$> h) !! k = Some (view n).
Proof. intros H. by rewrite list_lookup_fmap, H. Qed.

(** The color in force after node [j] when no node after [i] and up to [j]
    has depth 1. *)
Lemma branch_color_stays (h : list Node.t) i j :
  (i <= j)%nat ->
  (forall k nk, (i < k <= j)%nat -> h !! k = Some nk -> Node.level nk <> 1) ->
  branch_color (take (S j) (view <$> h)) = branch_color (take (S i) (view <$> h)).
Proof.
  intros Hij Hno.
  rewrite <- (take_drop (S i) (take (S j) (view <$> h))).
  rewrite take_take. replace (S i `min` S j)%nat with (S i) by lia.
  apply branch_color_app_none, Forall_lookup_2. intros k v Hk.
  rewrite lookup_drop in Hk.
  apply lookup_take_Some in Hk as [Hk Hlt].
  apply list_lookup_fmap_Some_1 in Hk as (nk & -> & Hk).
  apply (Hno (S i + k)%nat nk); [lia|done].
Qed.

Lemma InvColors_backgrounds fuel ds w st w' :
  InvTree ds st ->
  InvColors fuel w st w' ->
  exists cs wc,
    random_colors fuel (S (length (depth1 (heap st)))) w = Ok (cs, wc) /\
    Node.background_color <$> (take 1 (heap st) ++ depth1 (heap st))
    = Some <$> cs.
Proof.
  intros I (cs & wc & Hcs & _ & Hbg). exists cs, wc.
  assert (Node.background_color <$> (take 1 (heap st) ++ depth1 (heap st))
          = Some <$> cs) as Hbg'.
  { rewrite <- Hbg, !fmap_app, depth1_backgrounds. f_equal.
    by rewrite <- fmap_take, <- list_fmap_compose. }
  split; [|done].
  apply (f_equal length) in Hbg'.
  rewrite !length_fmap, length_app in Hbg'.
  pose proof (heap_length _ _ I) as Hlen.
  destruct (heap st) as [|r h] eqn:Eh; [done|].
  simpl in Hbg'. by rewrite Hbg'.
Qed.

(** C7. (1) The allocator is called once for the root and once for each
    node of depth 1, in document order: the background colors of the root
    and of the nodes of depth 1 are the colors of so many calls in a row,
    so each node of depth 1 has a color drawn for it. (2) A node created
    from a node [i] of depth 1 on, with no node of depth 1 after [i] up to
    it, has the background color of [i]. (3) A heading node with no node of
    depth 1 up to it has no background color. *)
Theorem C7_background_color_per_branch fuel lines w st w' :
  org2mind_parse fuel lines w = Ok (st, w') ->
  (exists cs wc,
     random_colors fuel (S (length (depth1 (heap st)))) w = Ok (cs, wc) /\
     Node.background_color <$> (take 1 (heap st) ++ depth1 (heap st))
     = Some <$> cs) /\
  (forall i j ni nj,
     heap st !! i = Some ni -> Node.level ni = 1 ->
     heap st !! j = Some nj -> (i <= j)%nat ->
     (forall k nk, (i < k <= j)%nat -> heap st !! k = Some nk ->
                   Node.level nk <> 1) ->
     Node.background_color nj = Node.background_color ni) /\
  (forall j nj,
     heap st !! j = Some nj -> (1 <= j)%nat ->
     (forall k nk, (1 <= k <= j)%nat -> heap st !! k = Some nk ->
                   Node.level nk <> 1) ->
     Node.background_color nj = None).
Proof.
  intros H. pose proof (org2mind_parse_InvTree _ _ _ _ _ H) as I.
  pose proof (org2mind_parse_InvColors _ _ _ _ _ H) as J.
  pose proof (heap_levels _ _ I) as Hlv.
  split; [by eapply InvColors_backgrounds|]. split.
  - intros i j ni nj Hi Hi1 Hj Hij Hno.
    assert (1 <= i)%nat as Hi0.
    { destruct i; [|lia]. destruct (heap st) as [|r h]; [done|].
      injection Hi as ->. injection Hlv as Hr _. lia. }
    change (Node.background_color nj) with (view nj).2.
    rewrite (inv_backgrounds _ _ I j (view nj)) by (by lia || apply lookup_view).
    rewrite (branch_color_stays _ i j) by done.
    rewrite (take_S_r _ _ (view ni)) by (by apply lookup_view).
    rewrite branch_color_snoc. by rewrite decide_True.
  - intros j nj Hj Hj1 Hno.
    change (Node.background_color nj) with (view nj).2.
    rewrite (inv_backgrounds _ _ I j (view nj)) by (by lia || apply lookup_view).
    rewrite (branch_color_stays _ 0 j) by (done || lia || (intros; eapply Hno; [lia|done])).
    destruct (heap st) as [|r h]; [done|]. injection Hlv as Hr _.
    simpl. rewrite take_0. unfold branch_color.
    rewrite filter_cons, filter_nil, decide_False; [done|].
    unfold is_depth1. simpl. lia.
Qed.

Lemma C7_witness :
  exists st w',
    org2mind_parse 2 jump_doc demo_world = Ok (st, w') /\
    ((exists cs wc,
        random_colors 2 (S (length (depth1 (heap st)))) demo_world
        = Ok (cs, wc) /\
        Node.background_color <$> (take 1 (heap st) ++ depth1 (heap st))
        = Some <$> cs) /\
     (forall i j ni nj,
        heap st !! i = Some ni -> Node.level ni = 1 ->
        heap st !! j = Some nj -> (i <= j)%nat ->
        (forall k nk, (i < k <= j)%nat -> heap st !! k = Some nk ->
                      Node.level nk <> 1) ->
        Node.background_color nj = Node.background_color ni) /\
     (forall j nj,
        heap st !! j = Some nj -> (1 <= j)%nat ->
        (forall k nk, (1 <= k <= j)%nat -> heap st !! k = Some nk ->
                      Node.level nk <> 1) ->
        Node.background_color nj = None)) /\
    Node.background_color <$> heap st
    = [Some "#5EBD3E"; None; Some "#FFB900"; Some "#FFB900"; Some "#FFB900";
       Some "#FFB900"; Some "#FFB900"; Some "#F78200"].
Proof.
  eexists _, _. split; [vm_compute; reflexivity|]. split.
  - eapply (C7_background_color_per_branch 2 jump_doc demo_world).
    vm_compute. reflexivity.
  - vm_compute. reflexivity.
Defined.

(** C10. When the document has a heading of depth 1, the background
    colors of the root and of the first node of depth 1 are the first two
    colors of the allocator's sequence of calls, one call after the other on
    the one [last_color], and so they differ. *)
Theorem C10_first_branch_color_differs_from_root fuel lines w st w' :
  org2mind_parse fuel lines w = Ok (st, w') ->
  1 ∈ depths lines ->
  exists r n1 rest cs wc c0 c1,
    heap st !! 0%nat = Some r /\
    depth1 (heap st) = n1 :: rest /\
    random_colors fuel (S (length (depth1 (heap st)))) w = Ok (cs, wc) /\
    cs !! 0%nat = Some c0 /\ cs !! 1%nat = Some c1 /\
    Node.background_color r = Some c0 /\
    Node.background_color n1 = Some c1 /\
    Node.background_color n1 <> Node.background_color r.
Proof.
  intros H H1. pose proof (org2mind_parse_InvTree _ _ _ _ _ H) as I.
  pose proof (org2mind_parse_InvColors _ _ _ _ _ H) as J.
  pose proof (heap_levels _ _ I) as Hlv.
  destruct (InvColors_backgrounds _ _ _ _ _ I J) as (cs & wc & Hcs & Hbg).
  assert (depth1 (heap st) <> []) as Hne.
  { assert (1 ∈ Node.level <$> heap st) as Hin
      by (rewrite Hlv; by apply list_elem_of_further).
    apply list_elem_of_fmap in Hin as (n & Hn & Hin).
    intros Hnil. assert (n ∈ depth1 (heap st)) as Hd
      by (by apply list_elem_of_filter).
    rewrite Hnil in Hd. by apply not_elem_of_nil in Hd. }
  destruct (depth1 (heap st)) as [|n1 rest] eqn:Ed; [done|].
  destruct (heap st) as [|r h] eqn:Eh; [done|].
  simpl in Hbg. destruct cs as [|c0 [|c1 cs]]; [done|done|].
  injection Hbg as Hr Hn1 _.
  pose proof (random_colors_Ok _ _ _ _ _ Hcs) as (_ & _ & Hadj & _).
  exists r, n1, rest, (c0 :: c1 :: cs), wc, c0, c1.
  repeat split; try done.
  rewrite Hr, Hn1. intros [= Heq].
  by apply (Hadj 0%nat c0 c1).
Qed.

Lemma C10_witness :
  exists st w',
    org2mind_parse 2 plan_doc demo_world = Ok (st, w') /\
    1 ∈ depths plan_doc /\
    exists r n1 rest cs wc c0 c1,
      heap st !! 0%nat = Some r /\
      depth1 (heap st) = n1 :: rest /\
      random_colors 2 (S (length (depth1 (heap st)))) demo_world
      = Ok (cs, wc) /\
      cs !! 0%nat = Some c0 /\ cs !! 1%nat = Some c1 /\
      Node.background_color r = Some c0 /\
      Node.background_color n1 = Some c1 /\
      Node.background_color n1 <> Node.background_color r.
Proof.
  eexists _, _. split; [vm_compute; reflexivity|].
  assert (1 ∈ depths plan_doc) as H1 by compute_done.
  split; [exact H1|].
  eapply (C10_first_branch_color_differs_from_root 2 plan_doc demo_world);
    [vm_compute; reflexivity|exact H1].
Defined.

(** ** A generator that is never stuck *)



Lemma random_color_loop_S fuel r p last e u :
  random_color_loop (S fuel) (mkWorld r p last e u)
  = match colors !! (r p mod length colors)%nat with
    | Some c =>
        match last with
        | Some l =>
            if String.eqb c l
            then random_color_loop fuel (mkWorld r (S p) last e u)
            else Ok (c, mkWorld r (S p) last e u)
        | None => Ok (c, mkWorld r (S p) last e u)
        end
    | None => Raise IndexError
    end.
Proof.
  cbn [random_color_loop]. unfold bind, choice, get_last_color.
  cbn [rng rng_pos last_color entropy uuid_pos].
  destruct (colors !! _) as [c|]; [|done].
  destruct last as [l|]; simpl; [destruct (String.eqb c l)|]; reflexivity.
Qed.

Lemma choice_colors_Some k : is_Some (colors !! (k mod length colors)%nat).
Proof.
  apply lookup_lt_is_Some_2, Nat.mod_upper_bound. done.
Qed.







Lemma stuck_loop_diverges fuel p e :
  random_color_loop fuel (mkWorld (fun _ => 0%nat) p (Some "#5EBD3E") e 0)
  = Diverge.
Proof.
  revert p. induction fuel as [|fuel IH]; intros p; [done|].
  rewrite random_color_loop_S. cbn. apply IH.
Qed.

(** The second call of an allocator whose generator always yields the same
    index never returns: the condition on the generator is needed. *)
Lemma stuck_generator_diverges fuel e :
  random_colors fuel 2 (mkWorld (fun _ => 0%nat) 0 None e 0) = Diverge.
Proof.
  destruct fuel as [|fuel]; [done|].
  assert (random_color (S fuel) (mkWorld (fun _ => 0%nat) 0 None e 0)
          = Ok ("#5EBD3E", mkWorld (fun _ => 0%nat) 1 (Some "#5EBD3E") e 0))
    as H1.
  { unfold random_color, bind. by rewrite random_color_loop_S. }
  assert (random_color (S fuel)
            (mkWorld (fun _ => 0%nat) 1 (Some "#5EBD3E") e 0) = Diverge)
    as H2.
  { unfold random_color, bind. by rewrite stuck_loop_diverges. }
  cbn [random_colors]. unfold bind. rewrite H1. by rewrite H2.
Qed.

(** ** Identifiers and the seed (C2) *)

Lemma random_color_erase fuel w :
  result_map (erase_pair (fun c => c)) (random_color fuel w)
  = random_color fuel (erase_w w).
Proof.
  unfold erase_w at 1. rewrite random_color_uuid.
  destruct (random_color fuel w) as [[c w']| |] eqn:E; [|done|done].
  apply random_color_Ok in E as (_ & _ & _ & _ & _ & _ & Hu).
  simpl. unfold erase_pair, erase_w. simpl. by rewrite Hu.
Qed.

Lemma level_at_erase h x : level_at (Node.set_id "" <$> h) x = level_at h x.
Proof.
  unfold level_at. rewrite list_lookup_fmap. by destruct (h !! x).
Qed.

Lemma alter_erase (f : Node.t -> Node.t) i (h : list Node.t) :
  (forall n, Node.set_id "" (f n) = f (Node.set_id "" n)) ->
  Node.set_id "" <$> alter f i h = alter f i (Node.set_id "" <$> h).
Proof.
  intros Hf. revert i. induction h as [|n h IH]; intros [|i]; simpl; try done.
  - by rewrite Hf.
  - f_equal. apply IH.
Qed.

Lemma parse_meta_erase line st :
  frame_erase_ids (parse_meta line st) = parse_meta line (frame_erase_ids st).
Proof.
  unfold parse_meta. destruct (Str.re_meta line) as [[k v]|]; [|done].
  destruct (String.eqb (Str.lower k) "title"); [|done].
  unfold frame_erase_ids. simpl. by rewrite alter_erase.
Qed.

Lemma push_node_erase st D n bg dir w :
  result_map (erase_pair frame_erase_ids) (push_node st D n bg dir w)
  = push_node (frame_erase_ids st) D (Node.set_id "" n) bg dir (erase_w w).
Proof.
  unfold push_node. cbv zeta. simpl.
  assert (filter (fun x => level_at (heap st ++ [n]) x < D) (stack st)
          = filter (fun x => level_at ((Node.set_id "" <$> heap st)
                                       ++ [Node.set_id "" n]) x < D)
                   (stack st)) as Hf.
  { apply filter_ext_Forall, Forall_forall. intros x _.
    change ((Node.set_id "" <$> heap st) ++ [Node.set_id "" n])
      with ((Node.set_id "" <$> heap st) ++ (Node.set_id "" <$> [n])).
    by rewrite <- fmap_app, level_at_erase. }
  rewrite <- Hf.
  set (stk := if D <=? level st then _ else stack st).
  unfold bind, getitem. destruct (py_index stk (-1)) as [top|]; [|done].
  unfold ret. simpl. unfold erase_pair, frame_erase_ids. simpl.
  rewrite alter_erase by done. by rewrite fmap_app, length_fmap.
Qed.

Lemma parse_heading_erase fuel line st w :
  result_map (erase_pair frame_erase_ids) (parse_heading fuel line st w)
  = parse_heading fuel line (frame_erase_ids st) (erase_w w).
Proof.
  destruct (Str.re_heading line) as [[stars text]|] eqn:E.
  - rewrite !(parse_heading_eq _ _ _ _ _ _ E). cbv zeta.
    set (D := Z.of_nat (String.length stars)).
    set (w1 := mkWorld (rng w) (rng_pos w) (last_color w) (entropy w)
                       (S (uuid_pos w))).
    change (mkWorld (rng (erase_w w)) _ _ _ _) with (erase_w w1).
    change (entropy (erase_w w) (uuid_pos (erase_w w))) with "".
    change (direction (frame_erase_ids st)) with (direction st).
    change (background_color (frame_erase_ids st)) with (background_color st).
    destruct (D =? 1).
    + unfold bind at 1 3, getitem.
      destruct (py_index directions (direction st)) as [d|]; [|done].
      unfold ret at 1 2. unfold bind.
      rewrite <- random_color_erase.
      destruct (random_color fuel w1) as [[c w2]| |]; [|done|done].
      simpl. apply push_node_erase.
    + apply push_node_erase.
  - unfold parse_heading. by rewrite E.
Qed.

Lemma loop_body_erase fuel st line w :
  result_map (erase_pair frame_erase_ids) (loop_body fuel st line w)
  = loop_body fuel (frame_erase_ids st) line (erase_w w).
Proof.
  rewrite !loop_body_eq, <- parse_meta_erase. apply parse_heading_erase.
Qed.

Lemma foldM_erase fuel lines st w :
  result_map (erase_pair frame_erase_ids) (foldM (loop_body fuel) st lines w)
  = foldM (loop_body fuel) (frame_erase_ids st) lines (erase_w w).
Proof.
  revert st w. induction lines as [|line lines IH]; intros st w; [done|].
  simpl. unfold bind. rewrite <- loop_body_erase.
  destruct (loop_body fuel st line w) as [[st1 w1]| |]; [|done|done].
  apply IH.
Qed.

Lemma org2mind_parse_erase fuel lines w :
  result_map (erase_pair frame_erase_ids) (org2mind_parse fuel lines w)
  = org2mind_parse fuel lines (erase_w w).
Proof.
  unfold org2mind_parse, bind. rewrite <- random_color_erase.
  destruct (random_color fuel w) as [[c w1]| |]; [|done|done].
  simpl. apply foldM_erase.
Qed.

Lemma mapM_fmap_inner {A B C : Type} (f : A -> option B) (g : B -> C)
    (l : list A) :
  mapM (fun x => g <$> f x) l = fmap g <$> mapM f l.
Proof.
  induction l as [|x l IH]; [done|].
  cbn. destruct (f x) as [y|]; [|done]. cbn. rewrite IH.
  by destruct (mapM f l).
Qed.

Lemma mapM_ext_eq {A B : Type} (f g : A -> option B) (l : list A) :
  (forall x, f x = g x) -> mapM f l = mapM g l.
Proof.
  intros H. induction l as [|x l IH]; [done|]. cbn. by rewrite H, IH.
Qed.

Lemma asdict_erase depth h x :
  asdict depth (Node.set_id "" <$> h) x = js_erase_ids <$> asdict depth h x.
Proof.
  revert x. induction depth as [|depth IH]; intros x; [done|].
  cbn [asdict]. rewrite list_lookup_fmap.
  destruct (h !! x) as [n|]; [|done]. cbn [fmap option_fmap option_map].
  change (Node.children (Node.set_id "" n)) with (Node.children n).
  rewrite (mapM_ext_eq _ (fun c => js_erase_ids <$> asdict depth h c)) by done.
  rewrite mapM_fmap_inner.
  destruct (mapM (asdict depth h) (Node.children n)) as [cs|]; [|done].
  reflexivity.
Qed.

(** With the identifiers blanked, a run of the script is the run in which
    [uuid4] yields blanks. *)
Lemma main_erase mt u room fuel seed lines :
  result_map mind_erase_ids (main mt u room fuel seed lines)
  = main mt (fun _ => "") room fuel seed lines.
Proof.
  unfold main, org2mind, bind.
  change (mkWorld (mt seed) 0 None (fun _ => "") 0)
    with (erase_w (mkWorld (mt seed) 0 None u 0)).
  rewrite <- org2mind_parse_erase.
  destruct (org2mind_parse fuel lines _) as [[st w']| |]; [|done|done].
  cbn [result_map erase_pair fst snd frame_erase_ids set_heap heap root meta].
  rewrite asdict_erase.
  by destruct (asdict _ _ _).
Qed.

(** C2, as the code has it. Two runs on the same document with the same
    seed end alike, with results that differ at most in the [id] fields:
    topics, levels, directions, colors, shape and metadata are functions of
    the document and the seed. The [id]s come from [uuid4], which the seed
    does not reach. *)
Theorem C2_output_determined_up_to_ids mt u1 u2 room fuel seed lines :
  result_map mind_erase_ids (main mt u1 room fuel seed lines)
  = result_map mind_erase_ids (main mt u2 room fuel seed lines).
Proof. by rewrite !main_erase. Qed.

(** C2, as the specification states it, fails on the empty document: two
    runs with the same seed give roots with different [id]s. *)
Lemma C2_counterexample :
  main demo_mt demo_uuid demo_room 1 0 []
  <> main demo_mt demo_uuid' demo_room 1 0 [].
Proof. vm_compute. discriminate. Qed.

(** * Further properties of the program *)

(** ** No exception from the parser *)

Lemma random_color_loop_no_raise fuel w e :
  random_color_loop fuel w <> Raise e.
Proof.
  revert w. induction fuel as [|fuel IH]; intros [r p last en u]; [done|].
  rewrite random_color_loop_S.
  destruct (choice_colors_Some (r p)) as [c ->].
  destruct last as [l|]; [|done].
  destruct (String.eqb c l); [apply IH|done].
Qed.

Lemma random_color_no_raise fuel w e : random_color fuel w <> Raise e.
Proof.
  unfold random_color, bind.
  pose proof (random_color_loop_no_raise fuel w) as H.
  destruct (random_color_loop fuel w) as [[c w']|e'|]; [done| |done].
  by destruct (H e').
Qed.

Lemma loop_body_no_raise fuel ds st line w e :
  InvTree ds st -> loop_body fuel st line w <> Raise e.
Proof.
  intros I. rewrite loop_body_eq.
  apply (InvTree_parse_meta _ _ (Str.strip line)) in I.
  destruct (Str.re_heading (Str.strip line)) as [[stars text]|] eqn:E.
  - pose proof (stars_length _ _ _ E) as HD.
    rewrite (parse_heading_eq _ _ _ _ _ _ E). cbv zeta.
    destruct (_ =? 1).
    + unfold bind at 1, getitem.
      assert (exists d, py_index directions
                          (direction (parse_meta (Str.strip line) st)) = Some d)
        as [d ->].
      { rewrite (inv_direction _ _ I). destruct (Nat.even _); by eauto. }
      unfold ret at 1. unfold bind.
      set (w1 := mkWorld _ _ _ _ _).
      pose proof (random_color_no_raise fuel w1) as Hc.
      destruct (random_color fuel w1) as [[c w2]|e'|];
        [|by destruct (Hc e')|done].
      by rewrite (push_node_eq _ _ _ _ _ _ _ I HD).
    + by rewrite (push_node_eq _ _ _ _ _ _ _ I HD).
  - unfold parse_heading. by rewrite E.
Qed.

Lemma foldM_no_raise fuel lines before st w e :
  InvTree (depths before) st -> foldM (loop_body fuel) st lines w <> Raise e.
Proof.
  revert before st w.
  induction lines as [|line lines IH]; intros before st w I; [done|].
  simpl. unfold bind.
  pose proof (loop_body_no_raise fuel _ _ line w e I) as Hs.
  destruct (loop_body fuel st line w) as [[st1 w1]|e'|] eqn:E; [| |done].
  - apply (IH (before ++ [line])). by eapply loop_body_InvTree.
  - intros [= ->]. done.
Qed.

Lemma org2mind_parse_no_raise fuel lines w e :
  org2mind_parse fuel lines w <> Raise e.
Proof.
  unfold org2mind_parse, bind.
  pose proof (random_color_no_raise fuel w) as Hc.
  destruct (random_color fuel w) as [[c w1]|e'|]; [|by destruct (Hc e')|done].
  unfold Node_new, bind, uuid4_hex, ret.
  apply (foldM_no_raise _ _ []), InvTree_init.
Qed.

(** ** Metadata and title *)

(** X2. For every key, the exported metadata holds the value of the last
    line that declares this very key (keys are compared as written), as a
    string, wherever that line stands among the headings; a key no line
    declares is absent, but for "version" which then has its default. *)
Theorem X2_metadata_last_declaration_wins room fuel lines w m w' k :
  org2mind room fuel lines w = Ok (m, w') ->
  dict_get k (mind_meta m)
  = match declared k lines with
    | Some v => Some (PyStr v)
    | None => if String.eqb "version" k
              then Some (PyFloat version_default) else None
    end.
Proof.
  intros H. apply org2mind_Ok in H as (st & data & H & _ & ->). simpl.
  by apply org2mind_parse_InvMeta in H.
Qed.

Lemma X2_witness :
  exists m w',
    org2mind demo_room 2
             ["#+author: A"; "* H"; "#+author: B"; "#+Author: C"] demo_world
    = Ok (m, w') /\
    dict_get "author" (mind_meta m)
    = match declared "author"
              ["#+author: A"; "* H"; "#+author: B"; "#+Author: C"] with
      | Some v => Some (PyStr v)
      | None => if String.eqb "version" "author"
                then Some (PyFloat version_default) else None
      end /\
    dict_get "author" (mind_meta m) = Some (PyStr "B").
Proof.
  eexists _, _. split; [vm_compute; reflexivity|]. split.
  - eapply (X2_metadata_last_declaration_wins demo_room 2
              ["#+author: A"; "* H"; "#+author: B"; "#+Author: C"] demo_world).
    vm_compute. reflexivity.
  - vm_compute. reflexivity.
Defined.

Lemma parse_meta_heap line st :
  heap (parse_meta line st)
  = match Str.re_meta line with
    | Some (k, v) =>
        if String.eqb (Str.lower k) "title"
        then alter (Node.set_topic v) (root st) (heap st)
        else heap st
    | None => heap st
    end.
Proof.
  unfold parse_meta. destruct (Str.re_meta line) as [[k v]|]; [|done].
  by destruct (String.eqb (Str.lower k) "title").
Qed.

Lemma declared_title_snoc before line :
  declared_title (before ++ [line])
  = match meta_entry line with
    | Some (k, v) =>
        if String.eqb (Str.lower k) "title" then Some v
        else declared_title before
    | None => declared_title before
    end.
Proof.
  unfold declared_title. rewrite omap_app. simpl.
  destruct (meta_entry line) as [[k v]|]; simpl.
  - destruct (String.eqb (Str.lower k) "title"); simpl.
    + by rewrite last_snoc.
    + by rewrite app_nil_r.
  - by rewrite app_nil_r.
Qed.

Lemma loop_body_root_topic fuel before st line w st' w' :
  InvTree (depths before) st ->
  Node.topic <$> heap st !! 0%nat
  = Some (default "root" (declared_title before)) ->
  loop_body fuel st line w = Ok (st', w') ->
  Node.topic <$> heap st' !! 0%nat
  = Some (default "root" (declared_title (before ++ [line]))).
Proof.
  intros I Ht H. rewrite loop_body_eq in H.
  assert (Node.topic <$> heap (parse_meta (Str.strip line) st) !! 0%nat
          = Some (default "root" (declared_title (before ++ [line])))) as Hm.
  { rewrite parse_meta_heap, declared_title_snoc. unfold meta_entry.
    destruct (Str.re_meta (Str.strip line)) as [[k v]|]; [|done].
    destruct (String.eqb (Str.lower k) "title"); [|done].
    rewrite (inv_root _ _ I), list_lookup_alter_eq.
    destruct (heap st !! 0%nat); [done|]. by simpl in Ht. }
  apply (InvTree_parse_meta _ _ (Str.strip line)) in I.
  destruct (Str.re_heading (Str.strip line)) as [[stars text]|] eqn:E.
  - destruct (parse_heading_Ok _ _ _ _ _ _ _ _ _ I E H)
      as (_ & d & bg & dir & _ & _ & ->).
    simpl. pose proof (heap_length _ _ I) as Hlen.
    rewrite lookup_app_l by (rewrite length_alter; lia).
    destruct (decide (nearest_shallower (depths before)
                        (Z.of_nat (String.length stars)) = 0%nat)) as [->|Hne].
    + rewrite list_lookup_alter_eq.
      by destruct (heap (parse_meta (Str.strip line) st) !! 0%nat).
    + by rewrite list_lookup_alter_ne.
  - unfold parse_heading in H. rewrite E in H. by apply ret_Ok in H as [-> _].
Qed.

Lemma asdict_attrs depth h x j :
  asdict depth h x = Some j ->
  exists n, h !! x = Some n /\ js_attrs j = node_attrs n.
Proof.
  destruct depth as [|depth]; [done|]. simpl.
  destruct (h !! x) as [n|]; [|done].
  destruct (mapM _ _) as [cs|]; [|done]. intros [= <-]. by exists n.
Qed.

(** X3. The topic of the exported root is the value of the last metadata
    line whose key is "title" in any mixture of cases, and "root" when the
    document has no such line; headings do not touch it. *)
Theorem X3_title_sets_root_topic room fuel lines w m w' :
  org2mind room fuel lines w = Ok (m, w') ->
  js_topic (mind_data m) = default "root" (declared_title lines).
Proof.
  intros H. apply org2mind_Ok in H as (st & data & H & Hd & ->). simpl.
  pose proof (org2mind_parse_InvTree _ _ _ _ _ H) as I.
  apply org2mind_parse_Ok in H as (c & w1 & st0 & _ & -> & H).
  apply (foldM_invariant
           (fun before s _ =>
              InvTree (depths before) s /\
              Node.topic <$> heap s !! 0%nat
              = Some (default "root" (declared_title before)))
           fuel) with (done := []) in H.
  - destruct H as [_ Ht]. apply asdict_attrs in Hd as (n & Hn & Ha).
    rewrite (inv_root _ _ I) in Hn. rewrite Hn in Ht.
    destruct data. simpl in *. injection Ha as -> _. by injection Ht.
  - intros before s w2 line s' w3 [Is Ht] Hs. split.
    + by eapply loop_body_InvTree.
    + by eapply loop_body_root_topic.
  - split; [apply InvTree_init|done].
Qed.

Lemma X3_witness :
  exists m w',
    org2mind demo_room 2
             ["#+TITLE: Plan"; "* A"; "#+Title: Plan B"; "#+subtitle: x"]
             demo_world = Ok (m, w') /\
    js_topic (mind_data m)
    = default "root"
        (declared_title
           ["#+TITLE: Plan"; "* A"; "#+Title: Plan B"; "#+subtitle: x"]) /\
    js_topic (mind_data m) = "Plan B".
Proof.
  eexists _, _. split; [vm_compute; reflexivity|]. split.
  - eapply (X3_title_sets_root_topic demo_room 2
              ["#+TITLE: Plan"; "* A"; "#+Title: Plan B"; "#+subtitle: x"]
              demo_world).
    vm_compute. reflexivity.
  - vm_compute. reflexivity.
Defined.

Lemma preorder_S depth ch x :
  preorder (S depth) ch x
  = match ch !! x with
    | None => []
    | Some cs => x :: flat_map (preorder depth ch) cs
    end.
Proof. reflexivity. Qed.

#[local] Arguments preorder : simpl never.
(** ** The export visits the nodes in the order of the document *)

Lemma js_nodes_eq t l i r e d cs b f :
  js_nodes (JsNode t l i r e d cs b f)
  = JsNode t l i r e d cs b f :: flat_map js_nodes cs.
Proof. reflexivity. Qed.

Lemma asdict_preorder depth (h : list Node.t) x j :
  asdict depth h x = Some j ->
  js_attrs <$> js_nodes j
  = omap (fun y => node_attrs <$> h !! y)
         (preorder depth (children_table h) x).
Proof.
  revert x j. induction depth as [|depth IH]; intros x j H; [done|].
  simpl in H. rewrite preorder_S. unfold children_table at 1.
  rewrite list_lookup_fmap.
  destruct (h !! x) as [n|] eqn:Ex; [|done].
  destruct (mapM (asdict depth h) (Node.children n)) as [cs|] eqn:Ecs; [|done].
  injection H as <-. rewrite js_nodes_eq. simpl. rewrite Ex. simpl. f_equal.
  apply mapM_Some in Ecs.
  induction Ecs as [|c y l k Hc _ IHl]; [done|].
  simpl. rewrite fmap_app, omap_app. f_equal; [by apply IH|done].
Qed.

Lemma omap_lookup_seq {A B : Type} (f : A -> B) (k h : list A) :
  omap (fun y => f <$> (k ++ h) !! y) (seq (length k) (length h)) = f <$> h.
Proof.
  revert k. induction h as [|a h IH]; intros k; [done|].
  simpl. rewrite list_lookup_middle by done. simpl. f_equal.
  specialize (IH (k ++ [a])). rewrite <- app_assoc, length_app in IH.
  simpl in IH. by rewrite Nat.add_1_r in IH.
Qed.

Lemma elem_of_flat_map {A B : Type} (f : A -> list B) (l : list A) y :
  y ∈ flat_map f l <-> exists x, x ∈ l /\ y ∈ f x.
Proof.
  induction l as [|a l IH]; simpl.
  - split; [by intros ?%elem_of_nil|]. by intros (x & ?%elem_of_nil & _).
  - rewrite elem_of_app, IH. split.
    + intros [H|(x & Hx & H)]; [exists a|exists x]; split; auto;
        by constructor.
    + intros (x & Hx & H). apply elem_of_cons in Hx as [->|Hx]; eauto.
Qed.

Lemma flat_map_ext_Forall {A B : Type} (f g : A -> list B) (l : list A) :
  Forall (fun x => f x = g x) l -> flat_map f l = flat_map g l.
Proof. induction 1 as [|x l Hx _ IH]; simpl; [done|]. by rewrite Hx, IH. Qed.

Lemma preorder_ge ch :
  forward ch -> forall f y x, x ∈ preorder f ch y -> (y <= x)%nat.
Proof.
  intros Hfw f. induction f as [|f IH]; intros y x H.
  - by apply elem_of_nil in H.
  - rewrite preorder_S in H. destruct (ch !! y) as [cs|] eqn:Ey; [|by apply elem_of_nil in H].
    apply elem_of_cons in H as [->|H]; [lia|].
    apply elem_of_flat_map in H as (c & Hc & H). apply IH in H.
    specialize (Hfw _ _ Ey). rewrite Forall_forall in Hfw.
    specialize (Hfw _ Hc). lia.
Qed.

Lemma preorder_unaffected ch g p tl :
  forward ch ->
  forall f c, (c < length ch)%nat -> p ∉ preorder f ch c ->
    preorder f (alter g p ch ++ tl) c = preorder f ch c.
Proof.
  intros Hfw f. induction f as [|f IH]; intros c Hc Hp; [done|].
  rewrite !preorder_S in *. destruct (lookup_lt_is_Some_2 ch c Hc) as [cs Hcs].
  rewrite Hcs in Hp |- *. apply not_elem_of_cons in Hp as [Hne Hp].
  rewrite lookup_app_l by (by rewrite length_alter).
  rewrite list_lookup_alter_ne by done. rewrite Hcs. f_equal.
  apply flat_map_ext_Forall. specialize (Hfw _ _ Hcs).
  rewrite Forall_forall in Hfw |- *. intros c' Hc'. apply IH.
  - specialize (Hfw _ Hc'). lia.
  - intros H. apply Hp, elem_of_flat_map. eauto.
Qed.

Lemma rpath_le ch : forward ch -> forall y x, rpath ch y x -> (y <= x)%nat.
Proof.
  intros Hfw y x H. induction H as [x|y cs c x Hy Hl _ IH]; [lia|].
  apply last_Some in Hl as [l' ->]. specialize (Hfw _ _ Hy).
  apply Forall_app in Hfw as [_ Hc]. rewrite Forall_singleton in Hc. lia.
Qed.

Lemma rpath_snoc ch y p cs c :
  rpath ch y p -> ch !! p = Some cs -> last cs = Some c -> rpath ch y c.
Proof.
  intros H Hp Hl. induction H as [x|y cs' c' x Hy Hl' _ IH].
  - eapply rpath_down; [done..|constructor].
  - eapply rpath_down; [done..|]. by apply IH.
Qed.

Lemma rpath_keep ch g p tl :
  forward ch ->
  forall y x, rpath ch y x -> (x <= p)%nat -> rpath (alter g p ch ++ tl) y x.
Proof.
  intros Hfw y x H. induction H as [x|y cs c x Hy Hl Hr IH]; intros Hx.
  - constructor.
  - pose proof (rpath_le _ Hfw _ _ Hr) as Hcx.
    pose proof (lookup_lt_Some _ _ _ Hy) as Hlt.
    specialize (Hfw _ _ Hy). apply last_Some in Hl as Hl'. destruct Hl' as [l' ->].
    apply Forall_app in Hfw as [_ Hc]. rewrite Forall_singleton in Hc.
    eapply rpath_down; [|done|by apply IH].
    rewrite lookup_app_l by (by rewrite length_alter).
    rewrite list_lookup_alter_ne by lia. done.
Qed.

Lemma rpath_in ch :
  forward ch ->
  forall y x, rpath ch y x -> (x < length ch)%nat ->
    forall f, (length ch <= f + y)%nat -> x ∈ preorder f ch y.
Proof.
  intros Hfw y x H Hx. induction H as [x|y cs c x Hy Hl Hr IH]; intros f Hf.
  - destruct f as [|f]; [lia|]. rewrite preorder_S.
    destruct (lookup_lt_is_Some_2 ch x Hx) as [cs ->]. by left.
  - pose proof (lookup_lt_Some _ _ _ Hy) as Hlt.
    destruct f as [|f]; [lia|]. rewrite preorder_S, Hy. right.
    apply elem_of_flat_map. exists c. apply last_Some in Hl as [l' ->].
    split; [apply elem_of_app; right; by left|].
    specialize (Hfw _ _ Hy). apply Forall_app in Hfw as [_ Hc].
    rewrite Forall_singleton in Hc. apply IH; [done|lia].
Qed.

(** Hanging a new leaf under a node of the path of the last children puts
    it last in the walk. *)
Lemma preorder_push ch p :
  forward ch -> (p < length ch)%nat ->
  forall y, rpath ch y p ->
  forall f, (S (length ch) <= f + y)%nat -> NoDup (preorder f ch y) ->
    preorder f (alter (fun cs => cs ++ [length ch]) p ch ++ [[]]) y
    = preorder f ch y ++ [length ch].
Proof.
  intros Hfw Hp y Hr.
  induction Hr as [x|y cs c x Hy Hl Hr IH]; intros f Hf Hnd.
  - destruct f as [|f]; [lia|].
    destruct (lookup_lt_is_Some_2 ch x Hp) as [cs Hcs]. rewrite !preorder_S.
    rewrite lookup_app_l by (by rewrite length_alter).
    rewrite list_lookup_alter_eq, Hcs. simpl. rewrite flat_map_app. simpl.
    destruct f as [|f]; [lia|]. rewrite (preorder_S f _ (length ch)).
    rewrite lookup_app_r by (by rewrite length_alter).
    rewrite length_alter, Nat.sub_diag. simpl.
    f_equal. f_equal. apply flat_map_ext_Forall.
    specialize (Hfw _ _ Hcs) as Hcs'. rewrite Forall_forall in Hcs' |- *.
    intros c Hc. specialize (Hcs' _ Hc).
    apply preorder_unaffected; [done|lia|].
    intros H%(preorder_ge _ Hfw). lia.
  - pose proof (rpath_le _ Hfw _ _ Hr) as Hcx.
    pose proof (lookup_lt_Some _ _ _ Hy) as Hlt.
    specialize (Hfw _ _ Hy) as Hcs. apply last_Some in Hl as [l' ->].
    apply Forall_app in Hcs as [Hl' Hc]. rewrite Forall_singleton in Hc.
    destruct f as [|f]; [lia|]. rewrite !preorder_S in *.
    rewrite lookup_app_l by (by rewrite length_alter).
    rewrite list_lookup_alter_ne by lia. rewrite Hy in Hnd |- *.
    rewrite !flat_map_app in *. simpl in *. rewrite !app_nil_r in *.
    apply NoDup_cons in Hnd as [_ Hnd].
    apply NoDup_app in Hnd as (_ & Hdis & Hndc).
    rewrite IH by (done || lia). rewrite <- app_assoc.
    f_equal. f_equal. apply flat_map_ext_Forall.
    rewrite Forall_forall in Hl' |- *. intros c' Hc'. specialize (Hl' _ Hc').
    apply preorder_unaffected; [done|lia|].
    intros H. apply (Hdis x).
    + apply elem_of_flat_map. eauto.
    + apply rpath_in; [done..|lia].
Qed.

Lemma shallower_le ds D x :
  (x <= length ds)%nat -> lvl ds x < D -> (x <= nearest_shallower ds D)%nat.
Proof.
  induction ds as [|d ds IH] using rev_ind; intros Hx Hl.
  - simpl in Hx. lia.
  - rewrite nearest_shallower_snoc. rewrite length_app in Hx. simpl in Hx.
    destruct (Z.ltb_spec d D) as [Hlt|Hge]; [lia|].
    destruct (decide (x = S (length ds))) as [->|Hne].
    + rewrite lvl_snoc_new in Hl. lia.
    + rewrite lvl_snoc_old in Hl by lia. apply IH; [lia|done].
Qed.

Lemma InvTree_forward ds st :
  InvTree ds st -> forward (children_table (heap st)).
Proof.
  intros I r cs H. unfold children_table in *.
  rewrite list_lookup_fmap in H. rewrite length_fmap.
  destruct (heap st !! r) as [n|] eqn:E; [|done]. injection H as <-.
  by apply (inv_tree _ _ I r).
Qed.

Lemma children_table_push (h : list Node.t) p n :
  Node.children n = [] ->
  children_table (alter (Node.add_child (length h)) p h ++ [n])
  = alter (fun cs => cs ++ [length (children_table h)]) p (children_table h)
    ++ [[]].
Proof.
  intros Hn. unfold children_table. rewrite fmap_app, length_fmap. simpl.
  rewrite Hn. f_equal. apply list_fmap_alter, Forall_forall. done.
Qed.

Lemma InvOrder_push ds st D n m bg dir :
  InvTree ds st -> InvOrder st -> 1 <= D -> Node.children n = [] ->
  InvOrder
    (mkFrame m bg dir D (root st)
       (filter (fun x => lvl ds x < D) (stack st) ++ [length (heap st)])
       (alter (Node.add_child (length (heap st)))
              (nearest_shallower ds D) (heap st) ++ [n])).
Proof.
  intros I O HD Hn. pose proof (InvTree_forward _ _ I) as Hfw.
  pose proof (inv_parent _ _ I D HD) as Hp.
  set (p := nearest_shallower ds D) in *.
  set (ch := children_table (heap st)) in *.
  assert (length ch = length (heap st)) as Hlen
    by (unfold ch, children_table; by rewrite length_fmap).
  assert (p ∈ stack st) as Hps.
  { apply last_Some in Hp as [l' Hl'].
    assert (p ∈ filter (fun x => lvl ds x < D) (stack st)) as Hin
      by (rewrite Hl'; apply elem_of_app; right; by left).
    by apply list_elem_of_filter in Hin as [_ ?]. }
  pose proof (ord_stack _ O) as Hstk. rewrite Forall_forall in Hstk.
  assert (p < length ch)%nat as Hplt
    by (rewrite Hlen; by eapply stack_dom).
  split; simpl; rewrite children_table_push by done; fold ch.
  - intros f Hf. rewrite length_app, length_alter in Hf |- *. simpl in *.
    rewrite preorder_push; [|done|done|by apply Hstk|lia|].
    + rewrite (ord_preorder _ O) by lia.
      by rewrite Hlen, Nat.add_1_r, seq_S.
    + rewrite (ord_preorder _ O) by lia. apply NoDup_seq.
  - apply Forall_app. split.
    + apply Forall_forall. intros x [Hx Hxs]%list_elem_of_filter.
      apply rpath_keep; [done|by apply Hstk|].
      apply shallower_le; [|done].
      pose proof (stack_dom _ _ _ I Hxs). rewrite (heap_length _ _ I) in *. lia.
    + apply Forall_singleton.
      destruct (lookup_lt_is_Some_2 ch p Hplt) as [cs Hcs].
      eapply (rpath_snoc _ _ p).
      * apply rpath_keep; [done|by apply Hstk|lia].
      * rewrite lookup_app_l by (by rewrite length_alter).
        by rewrite list_lookup_alter_eq, Hcs.
      * by rewrite Hlen, last_snoc.
Qed.

Lemma InvOrder_heap st st' :
  children_table (heap st') = children_table (heap st) ->
  stack st' = stack st ->
  InvOrder st -> InvOrder st'.
Proof.
  intros Hch Hs [O1 O2].
  assert (length (heap st') = length (heap st)) as Hlen.
  { apply (f_equal length) in Hch. unfold children_table in Hch.
    by rewrite !length_fmap in Hch. }
  split; rewrite ?Hch, ?Hs, ?Hlen; done.
Qed.

Lemma InvOrder_parse_meta ds line st :
  InvTree ds st -> InvOrder st -> InvOrder (parse_meta line st).
Proof.
  intros I. apply InvOrder_heap.
  - destruct (parse_meta_shape line st) as (m & h & -> & [->|[v ->]]);
      [done|]. by apply fmap_alter_same.
  - by destruct (parse_meta_shape line st) as (m & h & -> & _).
Qed.

Lemma loop_body_InvOrder fuel ds st line w st' w' :
  InvTree ds st -> InvOrder st ->
  loop_body fuel st line w = Ok (st', w') ->
  InvOrder st'.
Proof.
  intros I O H. rewrite loop_body_eq in H.
  apply (InvOrder_parse_meta ds (Str.strip line)) in O; [|done].
  apply (InvTree_parse_meta _ _ (Str.strip line)) in I.
  destruct (Str.re_heading (Str.strip line)) as [[stars text]|] eqn:E.
  - destruct (parse_heading_Ok _ _ _ _ _ _ _ _ _ I E H)
      as (HD & d & bg & dir & _ & _ & ->).
    by apply InvOrder_push.
  - unfold parse_heading in H. rewrite E in H. by apply ret_Ok in H as [-> _].
Qed.

Lemma org2mind_parse_InvOrder fuel lines w st' w' :
  org2mind_parse fuel lines w = Ok (st', w') -> InvOrder st'.
Proof.
  intros H. apply org2mind_parse_Ok in H as (c & w1 & st0 & _ & -> & H).
  apply (foldM_invariant
           (fun before s _ => InvTree (depths before) s /\ InvOrder s) fuel)
    with (done := []) in H.
  - by destruct H.
  - intros before s w2 line s' w3 [Is Os] Hs. split.
    + by eapply loop_body_InvTree.
    + by eapply loop_body_InvOrder.
  - split; [apply InvTree_init|]. split; simpl.
    + intros [|f] Hf; [lia|done].
    + repeat constructor.
Qed.

(** What the export holds, node by node in the order of its walk, is what
    the heap holds in its own order. *)
Lemma export_nodes fuel lines w st w' data :
  org2mind_parse fuel lines w = Ok (st, w') ->
  asdict (length (heap st)) (heap st) (root st) = Some data ->
  js_attrs <$> js_nodes data = node_attrs <$> heap st.
Proof.
  intros H Hd. apply org2mind_parse_InvTree in H as I.
  apply org2mind_parse_InvOrder in H as O.
  apply asdict_preorder in Hd.
  rewrite (inv_root _ _ I), (ord_preorder _ O) in Hd by done.
  rewrite Hd. apply (omap_lookup_seq node_attrs []).
Qed.

(** ** Topics, identifiers and fields of the nodes *)

Lemma headings_snoc before line :
  headings (before ++ [line])
  = headings before ++ match heading line with
                       | Some h => [h]
                       | None => []
                       end.
Proof. unfold headings. rewrite omap_app. simpl. by destruct (heading line). Qed.

Lemma depths_headings lines : depths lines = fst <$> headings lines.
Proof.
  induction lines as [|line lines IH]; [done|].
  change (depths (line :: lines))
    with (match heading_depth line with
          | Some D => D :: depths lines
          | None => depths lines
          end).
  change (headings (line :: lines))
    with (match heading line with
          | Some x => x :: headings lines
          | None => headings lines
          end).
  rewrite IH. unfold heading_depth, heading.
  by destruct (Str.re_heading (Str.strip line)) as [[stars text]|].
Qed.

Lemma loop_body_topics fuel before st line w st' w' :
  InvTree (depths before) st ->
  (fun n => (Node.level n, Node.topic n)) <$> heap st
  = (0, default "root" (declared_title before)) :: headings before ->
  loop_body fuel st line w = Ok (st', w') ->
  (fun n => (Node.level n, Node.topic n)) <$> heap st'
  = (0, default "root" (declared_title (before ++ [line])))
    :: headings (before ++ [line]).
Proof.
  intros I Ht H. rewrite loop_body_eq in H.
  assert ((fun n => (Node.level n, Node.topic n))
            <$> heap (parse_meta (Str.strip line) st)
          = (0, default "root" (declared_title (before ++ [line])))
            :: headings before) as Hm.
  { rewrite parse_meta_heap, declared_title_snoc. unfold meta_entry.
    destruct (Str.re_meta (Str.strip line)) as [[k v]|]; [|done].
    destruct (String.eqb (Str.lower k) "title"); [|done].
    rewrite (inv_root _ _ I). destruct (heap st) as [|n0 h']; [done|].
    simpl in *. injection Ht as Hl _ Hh. by rewrite Hl, Hh. }
  apply (InvTree_parse_meta _ _ (Str.strip line)) in I.
  rewrite headings_snoc. unfold heading.
  destruct (Str.re_heading (Str.strip line)) as [[stars text]|] eqn:E.
  - destruct (parse_heading_Ok _ _ _ _ _ _ _ _ _ I E H)
      as (_ & d & bg & dir & _ & _ & ->).
    simpl. rewrite fmap_app, fmap_alter_same by done. by rewrite Hm.
  - unfold parse_heading in H. rewrite E in H. apply ret_Ok in H as [-> _].
    by rewrite app_nil_r.
Qed.

Lemma loop_body_InvIds fuel ds e0 u0 st line w st' w' :
  InvTree ds st -> InvIds e0 u0 st w ->
  loop_body fuel st line w = Ok (st', w') ->
  InvIds e0 u0 st' w'.
Proof.
  intros I (He & Hu & Hi) H. rewrite loop_body_eq in H.
  assert (Node.id <$> heap (parse_meta (Str.strip line) st)
          = Node.id <$> heap st) as Hm.
  { destruct (parse_meta_shape (Str.strip line) st)
      as (m & h & -> & [->|[v ->]]); [done|]. by apply fmap_alter_same. }
  assert (length (heap (parse_meta (Str.strip line) st)) = length (heap st))
    as Hlen by (apply (f_equal length) in Hm; by rewrite !length_fmap in Hm).
  apply (InvTree_parse_meta _ _ (Str.strip line)) in I.
  destruct (Str.re_heading (Str.strip line)) as [[stars text]|] eqn:E.
  - destruct (parse_heading_Ok _ _ _ _ _ _ _ _ _ I E H)
      as (_ & d & bg & dir & H1 & Hn1 & ->).
    assert (entropy w' = entropy w /\ uuid_pos w' = S (uuid_pos w)) as [Hw1 Hw2].
    { destruct (decide (Z.of_nat (String.length stars) = 1)) as [E1|E1].
      - destruct (H1 E1) as (_ & _ & c & Hc & _).
        by apply random_color_Ok in Hc as (_ & _ & _ & _ & _ & ? & ?).
      - by destruct (Hn1 E1) as (_ & _ & _ & ->). }
    unfold InvIds. simpl.
    rewrite length_app, length_alter, fmap_app, fmap_alter_same by done.
    simpl. rewrite Hlen, Hm, Hi, Hw1, Hw2, Hu, He, Nat.add_1_r, seq_S, fmap_app.
    split; [done|]. split; [lia|done].
  - unfold parse_heading in H. rewrite E in H. apply ret_Ok in H as [-> ->].
    unfold InvIds. by rewrite Hlen, Hm.
Qed.

Lemma loop_body_defaults fuel ds st line w st' w' :
  InvTree ds st -> Forall node_defaults (heap st) ->
  loop_body fuel st line w = Ok (st', w') ->
  Forall node_defaults (heap st').
Proof.
  intros I Hq H. rewrite loop_body_eq in H.
  assert (Forall node_defaults (heap (parse_meta (Str.strip line) st))) as Hm.
  { destruct (parse_meta_shape (Str.strip line) st)
      as (m & h & -> & [->|[v ->]]); [done|]. by apply Forall_alter. }
  apply (InvTree_parse_meta _ _ (Str.strip line)) in I.
  destruct (Str.re_heading (Str.strip line)) as [[stars text]|] eqn:E.
  - destruct (parse_heading_Ok _ _ _ _ _ _ _ _ _ I E H)
      as (_ & d & bg & dir & H1 & Hn1 & ->).
    simpl. apply Forall_app. split; [by apply Forall_alter|].
    apply Forall_singleton. unfold node_defaults. simpl.
    split; [done|]. split; [done|].
    destruct (decide (Z.of_nat (String.length stars) = 1)) as [E1|E1].
    + split; [done|]. destruct (H1 E1) as (Hd & _).
      rewrite (inv_direction _ _ I) in Hd.
      destruct (Nat.even _); injection Hd as <-; compute_done.
    + destruct (Hn1 E1) as (-> & _). split; [done|compute_done].
  - unfold parse_heading in H. rewrite E in H. by apply ret_Ok in H as [-> _].
Qed.

Lemma loop_body_InvEdge fuel ds st line w st' w' :
  InvTree ds st -> InvEdge ds st ->
  loop_body fuel st line w = Ok (st', w') ->
  InvEdge (ds ++ match heading_depth line with
                 | Some D => [D]
                 | None => []
                 end) st'.
Proof.
  intros I He H. rewrite loop_body_eq in H.
  assert (InvEdge ds (parse_meta (Str.strip line) st)) as Hm.
  { intros r cs c. destruct (parse_meta_shape (Str.strip line) st)
      as (m & h & -> & [->|[v ->]]); [apply He|]. simpl.
    unfold children_table. rewrite fmap_alter_same by done. apply He. }
  apply (InvTree_parse_meta _ _ (Str.strip line)) in I.
  unfold heading_depth.
  destruct (Str.re_heading (Str.strip line)) as [[stars text]|] eqn:E.
  - destruct (parse_heading_Ok _ _ _ _ _ _ _ _ _ I E H)
      as (HD & d & bg & dir & _ & _ & ->).
    set (D := Z.of_nat (String.length stars)) in *.
    set (st1 := parse_meta (Str.strip line) st) in *.
    pose proof (InvTree_forward _ _ I) as Hfw.
    pose proof (heap_length _ _ I) as Hlen.
    assert (length (children_table (heap st1)) = S (length ds)) as Hlen'
      by (unfold children_table; by rewrite length_fmap).
    pose proof (inv_parent _ _ I D HD) as Hp.
    apply last_Some in Hp as [l' Hl'].
    assert (nearest_shallower ds D ∈ filter (fun x => lvl ds x < D) (stack st1))
      as [Hpl Hps]%list_elem_of_filter
      by (rewrite Hl'; apply elem_of_app; right; by left).
    pose proof (stack_dom _ _ _ I Hps) as Hpd.
    intros r cs c Hr Hc. simpl in Hr.
    rewrite children_table_push in Hr by done.
    destruct (decide (r < S (length ds))%nat) as [Hlt|Hge].
    + rewrite lookup_app_l in Hr by (rewrite length_alter; lia).
      destruct (decide (r = nearest_shallower ds D)) as [->|Hne].
      * rewrite list_lookup_alter_eq in Hr.
        destruct (children_table (heap st1) !! nearest_shallower ds D)
          as [cs0|] eqn:E0; [|done].
        injection Hr as <-. apply elem_of_app in Hc as [Hc|Hc].
        -- specialize (Hfw _ _ E0). rewrite Forall_forall in Hfw.
           specialize (Hfw _ Hc). rewrite !lvl_snoc_old by lia. by eapply Hm.
        -- apply list_elem_of_singleton in Hc as ->.
           rewrite Hlen', lvl_snoc_new, lvl_snoc_old by lia. done.
      * rewrite list_lookup_alter_ne in Hr by done.
        specialize (Hfw _ _ Hr). rewrite Forall_forall in Hfw.
        specialize (Hfw _ Hc). rewrite !lvl_snoc_old by lia. by eapply Hm.
    + rewrite lookup_app_r in Hr by (rewrite length_alter; lia).
      rewrite length_alter in Hr.
      destruct (r - length (children_table (heap st1)))%nat; [|done].
      injection Hr as <-. by apply elem_of_nil in Hc.
  - unfold parse_heading in H. rewrite E in H. apply ret_Ok in H as [-> _].
    by rewrite app_nil_r.
Qed.

Lemma org2mind_parse_nodes fuel lines w st w' :
  org2mind_parse fuel lines w = Ok (st, w') ->
  (fun n => (Node.level n, Node.topic n)) <$> heap st
  = (0, default "root" (declared_title lines)) :: headings lines /\
  InvIds (entropy w) (uuid_pos w) st w' /\
  Forall node_defaults (heap st) /\
  InvEdge (depths lines) st.
Proof.
  intros H. apply org2mind_parse_Ok in H as (c & w1 & st0 & Hc & -> & H).
  apply random_color_Ok in Hc as (_ & _ & _ & _ & _ & He & Hu).
  apply (foldM_invariant
           (fun before s w2 =>
              InvTree (depths before) s /\
              (fun n => (Node.level n, Node.topic n)) <$> heap s
              = (0, default "root" (declared_title before))
                :: headings before /\
              InvIds (entropy w) (uuid_pos w) s w2 /\
              Forall node_defaults (heap s) /\
              InvEdge (depths before) s)
           fuel) with (done := []) in H.
  - by destruct H as (_ & ?).
  - intros before s w2 line s' w3 (Is & Ht & Hi & Hq & Hg) Hs.
    split; [by eapply loop_body_InvTree|].
    split; [by eapply loop_body_topics|].
    split; [by eapply loop_body_InvIds|].
    split; [by eapply loop_body_defaults|].
    rewrite depths_snoc. by eapply loop_body_InvEdge.
  - split; [apply InvTree_init|]. split; [done|]. split.
    + unfold InvIds. simpl. rewrite He, Hu. split; [done|]. split; [lia|done].
    + split.
      * apply Forall_singleton. unfold node_defaults. simpl.
        repeat split; compute_done.
      * intros [|r] cs x; [|done]. intros [= <-]. by intros ?%elem_of_nil.
Qed.

Lemma asdict_edges
    (R : Node.t -> Node.t -> Prop) (R' : jsnode -> jsnode -> Prop)
    depth (h : list Node.t) x j :
  (forall r n c nc,
     h !! r = Some n -> c ∈ Node.children n -> h !! c = Some nc -> R n nc) ->
  (forall n nc j jc,
     R n nc -> js_attrs j = node_attrs n -> js_attrs jc = node_attrs nc ->
     R' j jc) ->
  asdict depth h x = Some j ->
  Forall (fun j' => Forall (R' j') (js_children j')) (js_nodes j).
Proof.
  intros HR HR'. revert x j.
  induction depth as [|depth IH]; intros x j H; [done|].
  simpl in H. destruct (h !! x) as [n|] eqn:Ex; [|done].
  destruct (mapM (asdict depth h) (Node.children n)) as [cs|] eqn:Ecs; [|done].
  injection H as <-. apply mapM_Some in Ecs. apply Forall_js_nodes.
  - simpl. apply Forall_forall. intros jc Hjc.
    apply list_elem_of_lookup_1 in Hjc as [i Hi].
    destruct (Forall2_lookup_r _ _ _ _ _ Ecs Hi) as (c & Hc & Hcj).
    apply asdict_attrs in Hcj as (nc & Hnc & Ha).
    eapply HR'; [|reflexivity|exact Ha].
    eapply HR; [done| |done]. by eapply list_elem_of_lookup_2.
  - clear Ex. induction Ecs as [|c y l k Hc _ IHl]; constructor; eauto.
Qed.

Lemma export_proj {B : Type} (pj : jsnode -> B) (pn : Node.t -> B)
    (g : string * Z * string * bool * bool * string * option string
         * option string -> B) data (h : list Node.t) :
  js_attrs <$> js_nodes data = node_attrs <$> h ->
  (forall j, pj j = g (js_attrs j)) ->
  (forall n, pn n = g (node_attrs n)) ->
  pj <$> js_nodes data = pn <$> h.
Proof.
  intros Hx Hj Hn.
  transitivity (g <$> (js_attrs <$> js_nodes data)).
  - rewrite <- list_fmap_compose. apply list_fmap_ext. intros _ j _. apply Hj.
  - rewrite Hx, <- list_fmap_compose. apply list_fmap_ext. intros _ n _.
    symmetry. apply Hn.
Qed.

(** X4. The exported tree has the root and one node for each heading line
    and no other. Walked as the export walks it, a node before its children
    and the children in their order, it gives the heading lines in the order
    of the document: the level of a node is the number of stars of its line
    and its topic is the text of the line; the root has level 0. *)
Theorem X4_nodes_in_document_order room fuel lines w m w' :
  org2mind room fuel lines w = Ok (m, w') ->
  (fun j => (js_level j, js_topic j)) <$> js_nodes (mind_data m)
  = (0, default "root" (declared_title lines)) :: headings lines.
Proof.
  intros H. apply org2mind_Ok in H as (st & data & H & Hd & ->). simpl.
  pose proof (export_nodes _ _ _ _ _ _ H Hd) as Hx.
  apply org2mind_parse_nodes in H as (<- & _).
  apply (export_proj _ _ (fun a => (a.1.1.1.1.1.1.2, a.1.1.1.1.1.1.1)) _ _ Hx).
  - by intros [].
  - done.
Qed.

Lemma X4_witness :
  exists m w',
    org2mind demo_room 2 jump_doc demo_world = Ok (m, w') /\
    (fun j => (js_level j, js_topic j)) <$> js_nodes (mind_data m)
    = (0, default "root" (declared_title jump_doc)) :: headings jump_doc /\
    headings jump_doc
    = [(3, "Deep"); (1, "A"); (4, "X"); (2, "Y"); (2, "Z"); (3, "W");
       (1, "C")].
Proof.
  eexists _, _. split; [vm_compute; reflexivity|]. split.
  - eapply (X4_nodes_in_document_order demo_room 2 jump_doc demo_world).
    vm_compute. reflexivity.
  - vm_compute. reflexivity.
Defined.

(** X5. The [id]s of the exported nodes, in the order of the walk, are the
    successive draws of [uuid4]: the first one of the run for the root, the
    next for the first heading line, and so on, one draw for each node and
    no other draw. They are distinct when these draws are. *)
Theorem X5_ids_are_successive_uuid_draws room fuel lines w m w' :
  org2mind room fuel lines w = Ok (m, w') ->
  let n := S (length (headings lines)) in
  js_id <$> js_nodes (mind_data m) = entropy w <$> seq (uuid_pos w) n /\
  uuid_pos w' = (uuid_pos w + n)%nat /\
  ((forall a b,
      (uuid_pos w <= a < uuid_pos w + n)%nat ->
      (uuid_pos w <= b < uuid_pos w + n)%nat ->
      entropy w a = entropy w b -> a = b) ->
   NoDup (js_id <$> js_nodes (mind_data m))).
Proof.
  intros H n. apply org2mind_Ok in H as (st & data & H & Hd & ->). simpl.
  pose proof (export_nodes _ _ _ _ _ _ H Hd) as Hx.
  pose proof (org2mind_parse_InvTree _ _ _ _ _ H) as I.
  apply org2mind_parse_nodes in H as (_ & (_ & Hu & Hi) & _).
  assert (length (heap st) = n) as Hlen.
  { rewrite (heap_length _ _ I), depths_headings. unfold n.
    by rewrite length_fmap. }
  rewrite Hlen in *.
  assert (js_id <$> js_nodes data = entropy w <$> seq (uuid_pos w) n) as Hids.
  { rewrite <- Hi.
    apply (export_proj _ _ (fun a => a.1.1.1.1.1.2) _ _ Hx); [|done].
    by intros []. }
  split; [done|]. split; [done|]. intros Hinj. rewrite Hids.
  apply NoDup_fmap_2_strong; [|apply NoDup_seq].
  intros a b Ha%elem_of_seq Hb%elem_of_seq. by apply Hinj.
Qed.

Lemma X5_witness :
  exists m w',
    org2mind demo_room 2 plan_doc demo_world = Ok (m, w') /\
    js_id <$> js_nodes (mind_data m) = ["0f1e"; "a2b3"; "c4d5"; "e6f7"] /\
    uuid_pos w' = 4%nat /\
    NoDup (js_id <$> js_nodes (mind_data m)).
Proof.
  eexists _, _. split; [vm_compute; reflexivity|].
  assert (org2mind demo_room 2 plan_doc demo_world = _) as H
    by (vm_compute; reflexivity).
  destruct (X5_ids_are_successive_uuid_draws
              demo_room 2 plan_doc demo_world _ _ H) as (Hi & Hu & Hnd).
  split; [exact Hi|]. split; [exact Hu|]. apply Hnd.
  intros a b Ha Hb. simpl in Ha, Hb.
  assert (a = 0 \/ a = 1 \/ a = 2 \/ a = 3)%nat
    as [-> | [-> | [-> | ->]]] by lia;
    assert (b = 0 \/ b = 1 \/ b = 2 \/ b = 3)%nat
      as [-> | [-> | [-> | ->]]] by lia;
    simpl; intros E; (reflexivity || discriminate E).
Defined.

(** X6. Every exported node is expanded and has the foreground color
    "#ffffff"; its direction is "right" or "left", and "right" unless its
    level is 1 (so for the root, and for every heading below the first
    level, whatever the side of the branch it hangs on). *)
Theorem X6_fields_no_line_sets room fuel lines w m w' :
  org2mind room fuel lines w = Ok (m, w') ->
  Forall (fun j =>
            js_expended j = true /\
            js_foreground_color j = Some "#ffffff" /\
            (js_level j <> 1 -> js_direction j = "right") /\
            (js_direction j = "right" \/ js_direction j = "left"))
         (js_nodes (mind_data m)).
Proof.
  intros H. apply org2mind_Ok in H as (st & data & H & Hd & ->). simpl.
  pose proof (export_nodes _ _ _ _ _ _ H Hd) as Hx.
  apply org2mind_parse_nodes in H as (_ & _ & Hq & _).
  set (Q := fun a : string * Z * string * bool * bool * string
                    * option string * option string =>
              a.1.1.1.2 = true /\ a.2 = Some "#ffffff" /\
              (a.1.1.1.1.1.1.2 <> 1 -> a.1.1.2 = "right") /\
              (a.1.1.2 = "right" \/ a.1.1.2 = "left")).
  assert (Forall Q (js_attrs <$> js_nodes data)) as HQ.
  { rewrite Hx. apply Forall_fmap. eapply Forall_impl; [exact Hq|].
    intros n (He & Hf & Hr & Hdir). unfold Q. simpl.
    repeat split; try done.
    unfold directions in Hdir.
    apply elem_of_cons in Hdir as [->|Hdir]; [by left|].
    apply list_elem_of_singleton in Hdir as ->. by right. }
  apply Forall_fmap in HQ. eapply Forall_impl; [exact HQ|]. by intros [].
Qed.

Lemma X6_witness :
  exists m w',
    org2mind demo_room 2 jump_doc demo_world = Ok (m, w') /\
    Forall (fun j =>
              js_expended j = true /\
              js_foreground_color j = Some "#ffffff" /\
              (js_level j <> 1 -> js_direction j = "right") /\
              (js_direction j = "right" \/ js_direction j = "left"))
           (js_nodes (mind_data m)) /\
    js_direction <$> js_nodes (mind_data m)
    = ["right"; "right"; "right"; "right"; "right"; "right"; "right"; "left"].
Proof.
  eexists _, _. split; [vm_compute; reflexivity|]. split.
  - eapply (X6_fields_no_line_sets demo_room 2 jump_doc demo_world).
    vm_compute. reflexivity.
  - vm_compute. reflexivity.
Defined.

(** X7. In the exported tree every child has a level strictly above the
    level of its parent, whatever the depths of the heading lines, which
    may jump: a line of depth 3 that follows one of depth 1 hangs under it
    with level 3. *)
Theorem X7_child_level_above_parent room fuel lines w m w' :
  org2mind room fuel lines w = Ok (m, w') ->
  Forall (fun j => Forall (fun c => js_level j < js_level c) (js_children j))
         (js_nodes (mind_data m)).
Proof.
  intros H. apply org2mind_Ok in H as (st & data & H & Hd & ->). simpl.
  pose proof (org2mind_parse_InvTree _ _ _ _ _ H) as I.
  apply org2mind_parse_nodes in H as (_ & _ & _ & Hg).
  pose proof (heap_levels _ _ I) as Hlv.
  assert (forall r n, heap st !! r = Some n ->
                      Node.level n = lvl (depths lines) r) as Hl.
  { intros r n Hr. unfold lvl. rewrite <- Hlv, list_lookup_fmap, Hr. done. }
  eapply (asdict_edges (fun n nc => Node.level n < Node.level nc)); [| |done].
  - intros r n c nc Hr Hc Hnc. rewrite (Hl _ _ Hr), (Hl _ _ Hnc).
    eapply Hg; [|done]. unfold children_table.
    by rewrite list_lookup_fmap, Hr.
  - intros n nc [] [] Hlt [= _ -> _ _ _ _ _ _] [= _ -> _ _ _ _ _ _]. done.
Qed.

Lemma X7_witness :
  exists m w',
    org2mind demo_room 2 jump_doc demo_world = Ok (m, w') /\
    Forall (fun j => Forall (fun c => js_level j < js_level c) (js_children j))
           (js_nodes (mind_data m)) /\
    (fun j => (js_level j, js_level <$> js_children j))
      <$> js_nodes (mind_data m)
    = [(0, [3; 1; 1]); (3, []); (1, [4; 2; 2]); (4, []); (2, []);
       (2, [3]); (3, []); (1, [])].
Proof.
  eexists _, _. split; [vm_compute; reflexivity|]. split.
  - eapply (X7_child_level_above_parent demo_room 2 jump_doc demo_world).
    vm_compute. reflexivity.
  - vm_compute. reflexivity.
Defined.

(** ** The allocator, draw by draw *)

Lemma random_color_loop_first fuel r p last e u c w' :
  random_color_loop fuel (mkWorld r p last e u) = Ok (c, w') <->
  exists k,
    (k < fuel)%nat /\
    (forall i, (i < k)%nat ->
               colors !! (r (p + i)%nat mod length colors)%nat = last) /\
    colors !! (r (p + k)%nat mod length colors)%nat = Some c /\
    last <> Some c /\
    w' = mkWorld r (p + S k) last e u.
Proof.
  revert p. induction fuel as [|fuel IH]; intros p.
  { split; [done|]. intros (k & Hk & _). lia. }
  rewrite random_color_loop_S.
  destruct (choice_colors_Some (r p)) as [c0 Ec]. rewrite Ec.
  assert (forall k, S p + k = p + S k)%nat as Hs by (intros; lia).
  destruct last as [l|]; [destruct (String.eqb c0 l) eqn:E|].
  - apply String.eqb_eq in E as ->. rewrite IH. split.
    + intros (k & Hk & Hall & Hc & Hne & ->). exists (S k).
      split; [lia|]. split; [|by rewrite <- !Hs].
      intros [|i] Hi; [by rewrite Nat.add_0_r|].
      rewrite <- Hs. apply Hall. lia.
    + intros (k & Hk & Hall & Hc & Hne & ->). destruct k as [|k].
      * rewrite Nat.add_0_r, Ec in Hc. by destruct Hne.
      * exists k. split; [lia|]. split; [|by rewrite !Hs].
        intros i Hi. rewrite Hs. apply Hall. lia.
  - apply String.eqb_neq in E. split.
    + intros [= <- <-]. exists 0%nat. split; [lia|]. split; [intros; lia|].
      rewrite Nat.add_0_r, Nat.add_1_r. repeat split; [done|].
      by intros [= ->].
    + intros (k & Hk & Hall & Hc & Hne & ->). destruct k as [|k].
      * rewrite Nat.add_0_r, Ec in Hc. injection Hc as ->.
        by rewrite Nat.add_1_r.
      * specialize (Hall 0%nat ltac:(lia)).
        rewrite Nat.add_0_r, Ec in Hall. by injection Hall as ->.
  - split.
    + intros [= <- <-]. exists 0%nat. split; [lia|]. split; [intros; lia|].
      by rewrite Nat.add_0_r, Nat.add_1_r.
    + intros (k & Hk & Hall & Hc & Hne & ->). destruct k as [|k].
      * rewrite Nat.add_0_r, Ec in Hc. injection Hc as ->.
        by rewrite Nat.add_1_r.
      * specialize (Hall 0%nat ltac:(lia)).
        by rewrite Nat.add_0_r, Ec in Hall.
Qed.

(** X8. A call of the allocator returns [c] exactly when [c] is the first
    draw, from the position of the generator on, that is not the color of
    the call before: the [k] draws before it all gave that color again,
    the loop went round [k + 1] times, the generator has moved by [k + 1]
    and [c] is now the last color. The first call of a run, with no last
    color, returns its first draw. *)
Theorem X8_allocator_returns_first_new_draw fuel w c w' :
  random_color fuel w = Ok (c, w') <->
  exists k,
    (k < fuel)%nat /\
    (forall i, (i < k)%nat ->
       colors !! (rng w (rng_pos w + i)%nat mod length colors)%nat
       = last_color w) /\
    colors !! (rng w (rng_pos w + k)%nat mod length colors)%nat = Some c /\
    last_color w <> Some c /\
    w' = mkWorld (rng w) (rng_pos w + S k) (Some c) (entropy w) (uuid_pos w).
Proof.
  destruct w as [r p last e u]. simpl. unfold random_color. split.
  - intros H. inv_bind H.
    apply random_color_loop_first in H0 as (k & Hk & Hall & Hc & Hne & ->).
    unfold bind, set_last_color, ret in H. simpl in H.
    injection H as <- <-. by exists k.
  - intros (k & Hk & Hall & Hc & Hne & ->).
    assert (random_color_loop fuel (mkWorld r p last e u)
            = Ok (c, mkWorld r (p + S k) last e u)) as H
      by (apply random_color_loop_first; by exists k).
    unfold bind. by rewrite H.
Qed.

Lemma X8_witness :
  random_color 2 (mkWorld (demo_mt 0) 1 (Some "#5EBD3E") demo_uuid 0)
  = Ok ("#FFB900", mkWorld (demo_mt 0) 3 (Some "#FFB900") demo_uuid 0) /\
  random_color 1 (mkWorld (demo_mt 0) 1 (Some "#5EBD3E") demo_uuid 0)
  = Diverge.
Proof.
  split; [|vm_compute; reflexivity].
  apply (X8_allocator_returns_first_new_draw 2
           (mkWorld (demo_mt 0) 1 (Some "#5EBD3E") demo_uuid 0)).
  exists 1%nat. simpl. split; [lia|]. split.
  - intros i Hi. assert (i = 0%nat) as -> by lia. vm_compute. reflexivity.
  - split; [vm_compute; reflexivity|]. split; [discriminate|reflexivity].
Defined.

(** ** The two patterns on a stripped line *)

Lemma string_app_cons c (a b : string) :
  String c a +:+ b = String c (a +:+ b).
Proof. reflexivity. Qed.

Lemma string_app_nil_l (b : string) : "" +:+ b = b.
Proof. reflexivity. Qed.

Ltac sapp := rewrite ?string_app_cons, ?string_app_nil_l in *.

Lemma string_app_nil_r (s : string) : s +:+ "" = s.
Proof. induction s as [|c s IH]; sapp; by rewrite ?IH. Qed.

Lemma string_app_assoc (a b c : string) : (a +:+ b) +:+ c = a +:+ (b +:+ c).
Proof. induction a as [|x a IH]; sapp; by rewrite ?IH. Qed.

Lemma span_spec p s a b :
  Str.span p s = (a, b) ->
  s = a +:+ b /\ all_chars p a = true /\
  match b with EmptyString => True | String c _ => p c = false end.
Proof.
  revert a b. induction s as [|c s IH]; intros a b H; simpl in H.
  - by injection H as <- <-.
  - destruct (p c) eqn:E.
    + destruct (Str.span p s) as [a' b'] eqn:Es. injection H as <- <-.
      destruct (IH _ _ eq_refl) as (-> & Ha & Hb). sapp. simpl.
      by rewrite E, Ha.
    + injection H as <- <-. by rewrite E.
Qed.

Lemma span_app p a b :
  all_chars p a = true ->
  match b with EmptyString => True | String c _ => p c = false end ->
  Str.span p (a +:+ b) = (a, b).
Proof.
  intros Ha Hb. induction a as [|c a IH]; sapp; simpl in *.
  - destruct b as [|c b]; [done|]. simpl. by rewrite Hb.
  - apply andb_prop in Ha as [-> Ha]. by rewrite IH.
Qed.

Lemma dot_plus_end_Some s t :
  Str.dot_plus_end s = Some t ->
  t <> "" /\ all_chars not_newline t = true /\
  (s = t \/ exists c, Str.is_newline c = true /\ s = t +:+ String c "").
Proof.
  unfold Str.dot_plus_end. intros H.
  destruct (Str.span (fun c => negb (Str.is_newline c)) s) as [a b] eqn:E.
  apply span_spec in E as (-> & Ha & Hb).
  destruct a as [|c a]; [done|].
  destruct b as [|c' [|c'' b]]; [| |done]; injection H as <-.
  - split; [done|]. split; [done|]. left. by rewrite string_app_nil_r.
  - split; [done|]. split; [done|]. right. exists c'.
    by apply negb_false_iff in Hb.
Qed.

Lemma dot_plus_end_all s :
  s <> "" -> all_chars not_newline s = true -> Str.dot_plus_end s = Some s.
Proof.
  intros Hs Ha. unfold Str.dot_plus_end.
  rewrite <- (string_app_nil_r s) at 1.
  rewrite (span_app (fun c => negb (Str.is_newline c)) s "" Ha I).
  by destruct s.
Qed.

Lemma spaces_group_end_Some s t :
  Str.spaces_group_end s = Some t ->
  exists ws r,
    s = ws +:+ r /\ ws <> "" /\ all_chars Str.isspace ws = true /\
    Str.dot_plus_end r = Some t.
Proof.
  revert t. induction s as [|c s IH]; intros t H; [done|]. simpl in H.
  destruct (Str.isspace c) eqn:Ec; [|done].
  destruct (Str.spaces_group_end s) as [g|] eqn:Eg.
  - injection H as ->. destruct (IH _ eq_refl) as (ws & r & -> & _ & Hws & Hr).
    exists (String c ws), r. sapp. simpl. by rewrite Ec, Hws.
  - exists (String c ""), s. sapp. simpl. by rewrite Ec.
Qed.

(** [s] has no whitespace at its end. *)
Lemma rstrip_cons c s :
  Str.rstrip (String c s) = String c s <->
  match s with
  | EmptyString => Str.isspace c = false
  | _ => Str.rstrip s = s
  end.
Proof.
  simpl. destruct s as [|c' s].
  - simpl. destruct (Str.isspace c); split; done.
  - destruct (Str.rstrip (String c' s)) as [|c'' r] eqn:E.
    + split; [|done]. by destruct (Str.isspace c).
    + split; [by intros [= -> ->]|by intros [= -> ->]].
Qed.

Lemma rstrip_suffix a b :
  Str.rstrip (a +:+ b) = a +:+ b -> b <> "" -> Str.rstrip b = b.
Proof.
  intros H Hb. induction a as [|c a IH]; [done|]. sapp.
  apply rstrip_cons in H. destruct (a +:+ b) as [|c' s] eqn:E.
  - destruct a; [by sapp|done].
  - by apply IH.
Qed.

Lemma rstrip_length s : (String.length (Str.rstrip s) <= String.length s)%nat.
Proof.
  induction s as [|c s IH]; [done|]. simpl.
  destruct (Str.rstrip s) as [|c' r].
  - destruct (Str.isspace c); simpl; lia.
  - simpl in *. lia.
Qed.

Lemma lstrip_length s : (String.length (Str.lstrip s) <= String.length s)%nat.
Proof.
  induction s as [|c s IH]; [done|]. simpl.
  destruct (Str.isspace c); simpl; lia.
Qed.

Lemma rstrip_idemp s : Str.rstrip (Str.rstrip s) = Str.rstrip s.
Proof.
  induction s as [|c s IH]; [done|]. simpl.
  destruct (Str.rstrip s) as [|c' r] eqn:E.
  - destruct (Str.isspace c) eqn:Ec; [done|]. simpl. by rewrite Ec.
  - change (Str.rstrip (String c (String c' r)))
      with (match Str.rstrip (String c' r) with
            | EmptyString =>
                if Str.isspace c then EmptyString else String c EmptyString
            | r' => String c r'
            end).
    by rewrite IH.
Qed.

Lemma strip_first c s :
  Str.strip (String c s) = String c s -> Str.isspace c = false.
Proof.
  unfold Str.strip. simpl. intros H. destruct (Str.isspace c); [|done].
  apply (f_equal String.length) in H. simpl in H.
  pose proof (rstrip_length (Str.lstrip s)).
  pose proof (lstrip_length s). lia.
Qed.

Lemma strip_fixed s :
  Str.strip s = s <-> Str.lstrip s = s /\ Str.rstrip s = s.
Proof.
  split.
  - intros H. destruct s as [|c s]; [done|].
    pose proof (strip_first _ _ H) as Hc. unfold Str.strip in H.
    assert (Str.lstrip (String c s) = String c s) as Hl
      by (simpl; by rewrite Hc).
    by rewrite Hl in H.
  - intros [Hl Hr]. unfold Str.strip. by rewrite Hl.
Qed.

Lemma newline_isspace c : Str.is_newline c = true -> Str.isspace c = true.
Proof.
  unfold Str.is_newline, Str.isspace. intros ->%Nat.eqb_eq. done.
Qed.

Lemma isspace_not_star c : Str.isspace c = true -> Str.is_star c = false.
Proof.
  unfold Str.is_star, Str.isspace.
  destruct (Nat.eqb_spec (nat_of_ascii c) 42) as [->|]; done.
Qed.

Lemma rstrip_snoc_space t c :
  Str.isspace c = true -> Str.rstrip (t +:+ String c "") <> t +:+ String c "".
Proof.
  intros Hc H. apply (rstrip_suffix t (String c "")) in H; [|done].
  simpl in H. by rewrite Hc in H.
Qed.

(** On a string with no whitespace at its end, the whitespace group takes
    all the whitespace there is and the lazy group all the rest. *)
Lemma spaces_group_end_trimmed s t :
  Str.spaces_group_end s = Some t -> Str.rstrip s = s ->
  exists ws,
    s = ws +:+ t /\ ws <> "" /\ all_chars Str.isspace ws = true /\
    t <> "" /\ all_chars not_newline t = true /\ Str.strip t = t.
Proof.
  revert t. induction s as [|c s IH]; intros t H Hr; [done|]. simpl in H.
  destruct (Str.isspace c) eqn:Ec; [|done].
  apply rstrip_cons in Hr.
  assert (s <> "" /\ Str.rstrip s = s) as [Hs Hrs].
  { destruct s; [by rewrite Ec in Hr|done]. }
  destruct (Str.spaces_group_end s) as [g|] eqn:Eg.
  - injection H as ->.
    destruct (IH _ eq_refl Hrs) as (ws & -> & _ & Hws & Ht).
    exists (String c ws). sapp. simpl. by rewrite Ec, Hws.
  - apply dot_plus_end_Some in H as (Ht & Hnl & [->|(c' & Hc' & ->)]).
    + exists (String c ""). sapp. simpl. rewrite Ec.
      repeat split; try done. apply strip_fixed. split; [|done].
      destruct t as [|c2 t]; [done|]. simpl.
      destruct (Str.isspace c2) eqn:Ec2; [|done]. exfalso.
      simpl in Eg. rewrite Ec2 in Eg.
      apply rstrip_cons in Hrs.
      assert (t <> "") as Ht' by (destruct t; [by rewrite Ec2 in Hrs|done]).
      simpl in Hnl. apply andb_prop in Hnl as [_ Hnl].
      rewrite (dot_plus_end_all _ Ht' Hnl) in Eg.
      by destruct (Str.spaces_group_end t).
    + exfalso. apply (rstrip_snoc_space t c'); [|done].
      by apply newline_isspace.
Qed.

Lemma spaces_group_end_app ws t :
  ws <> "" -> all_chars Str.isspace ws = true ->
  t <> "" -> all_chars not_newline t = true -> Str.strip t = t ->
  Str.spaces_group_end (ws +:+ t) = Some t.
Proof.
  intros Hws Ha Ht Hnl Hst.
  assert (Str.spaces_group_end t = None) as Hnone.
  { destruct t as [|c t]; [done|]. simpl.
    by rewrite (strip_first _ _ Hst). }
  induction ws as [|c ws IH]; [done|]. sapp. simpl in *.
  apply andb_prop in Ha as [-> Ha].
  destruct ws as [|c' ws].
  - sapp. rewrite Hnone. by apply dot_plus_end_all.
  - by rewrite IH.
Qed.

Lemma rstrip_strip s : Str.rstrip (Str.strip s) = Str.strip s.
Proof. apply rstrip_idemp. Qed.

(** X9. A line is a heading line exactly when, once stripped, it is a run
    of one or more stars, then one or more whitespace characters, then a
    text that is not empty, has no newline, and neither begins nor ends
    with whitespace. The level is the number of stars and the topic is the
    text: nothing of the line is lost, and a topic is never padded. *)
Theorem X9_heading_line_shape line D text :
  heading line = Some (D, text) <->
  exists stars ws,
    Str.strip line = stars +:+ ws +:+ text /\
    D = Z.of_nat (String.length stars) /\
    stars <> "" /\ all_chars Str.is_star stars = true /\
    ws <> "" /\ all_chars Str.isspace ws = true /\
    text <> "" /\ all_chars not_newline text = true /\
    Str.strip text = text.
Proof.
  unfold heading, Str.re_heading. split.
  - destruct (Str.span Str.is_star (Str.strip line)) as [stars r] eqn:E.
    apply span_spec in E as (Hs & Hstars & _).
    destruct stars as [|c stars]; [done|].
    destruct (Str.spaces_group_end r) as [t|] eqn:Er; [|done].
    intros [= <- <-].
    assert (r <> "") as Hr by (by destruct r).
    pose proof (rstrip_strip line) as Hrs. rewrite Hs in Hrs.
    apply rstrip_suffix in Hrs; [|done].
    destruct (spaces_group_end_trimmed _ _ Er Hrs) as (ws & -> & Hws).
    exists (String c stars), ws. by rewrite Hs.
  - intros (stars & ws & -> & -> & Hs & Hstars & Hws & Hsp & Ht & Hnl & Hst).
    rewrite (span_app _ stars (ws +:+ text) Hstars).
    + destruct stars; [done|].
      by rewrite (spaces_group_end_app _ _ Hws Hsp Ht Hnl Hst).
    + destruct ws as [|c ws]; [done|]. sapp. simpl in *.
      apply andb_prop in Hsp as [Hc _]. by apply isspace_not_star.
Qed.

Lemma X9_witness :
  heading "  ***  Deep  thought   " = Some (3, "Deep  thought") /\
  heading "*no space" = None /\ heading "*  " = None /\ heading " x * y" = None.
Proof.
  split; [|by vm_compute].
  apply (X9_heading_line_shape "  ***  Deep  thought   " 3 "Deep  thought").
  exists "***", "  ". by vm_compute.
Defined.

(** X10. No line is both a metadata line and a heading line: a line sets
    a metadata entry or makes a node, or neither, never both. *)
Theorem X10_patterns_exclude_each_other line :
  meta_entry line = None \/ heading line = None.
Proof.
  unfold meta_entry, heading.
  destruct (Str.strip line) as [|c s]; [by left|].
  destruct c as [[] [] [] [] [] [] [] []]; (by left) || (by right).
Qed.

Lemma all_chars_app p a b :
  all_chars p (a +:+ b) = all_chars p a && all_chars p b.
Proof.
  induction a as [|c a IH]; sapp; [done|]. simpl.
  by rewrite IH, andb_assoc.
Qed.

Lemma is_colon_eq c : Str.is_colon c = true -> c = ":"%char.
Proof.
  unfold Str.is_colon. intros H%Nat.eqb_eq.
  rewrite <- (ascii_nat_embedding c), H. reflexivity.
Qed.

Lemma isspace_not_colon c : Str.isspace c = true -> Str.is_colon c = false.
Proof.
  unfold Str.is_colon, Str.isspace.
  destruct (Nat.eqb_spec (nat_of_ascii c) 58) as [->|]; done.
Qed.

(** Whitespace followed by anything, on a string with no newline and no
    whitespace at its end, is matched by the two last groups. *)
Lemma spaces_group_end_starts c s :
  Str.isspace c = true ->
  Str.rstrip (String c s) = String c s ->
  all_chars not_newline s = true ->
  is_Some (Str.spaces_group_end (String c s)).
Proof.
  intros Hc Hr Hnl. simpl. rewrite Hc. apply rstrip_cons in Hr.
  assert (s <> "") as Hs by (destruct s; [by rewrite Hc in Hr|done]).
  rewrite (dot_plus_end_all _ Hs Hnl).
  by destruct (Str.spaces_group_end s).
Qed.

Lemma meta_key_Some acc s k v :
  Str.meta_key acc s = Some (k, v) ->
  Str.rstrip s = s -> all_chars not_newline s = true ->
  exists k' ws,
    k = acc +:+ k' /\ s = k' +:+ ":" +:+ ws +:+ v /\
    ws <> "" /\ all_chars Str.isspace ws = true /\
    v <> "" /\ Str.strip v = v /\
    (forall k1 c k2,
       k' = k1 +:+ ":" +:+ String c k2 -> Str.isspace c = false).
Proof.
  revert acc. induction s as [|c s IH]; intros acc H Hr Hnl; [done|].
  simpl in H. simpl in Hnl. apply andb_prop in Hnl as [Hc Hnl].
  destruct (if Str.is_colon c then Str.spaces_group_end s else None)
    as [value|] eqn:E.
  - injection H as <- <-.
    destruct (Str.is_colon c) eqn:Ecol; [|done].
    apply is_colon_eq in Ecol as ->.
    assert (s <> "") as Hs by (by destruct s).
    apply (rstrip_suffix (String ":" "") s) in Hr; [|done].
    destruct (spaces_group_end_trimmed _ _ E Hr)
      as (ws & -> & Hws & Hsp & Hv & _ & Hst).
    exists "", ws. rewrite string_app_nil_r. sapp.
    repeat split; try done. intros [|? ?] ? ?; sapp; done.
  - unfold not_newline in Hc. apply negb_true_iff in Hc. rewrite Hc in H.
    assert (s <> "") as Hs by (by destruct s).
    pose proof Hr as Hr'.
    apply (rstrip_suffix (String c "") s) in Hr'; [|done].
    destruct (IH _ H Hr' Hnl) as (k' & ws & -> & -> & Hws & Hsp & Hv & Hst & Hmin).
    exists (String c k'), ws. rewrite string_app_assoc. sapp.
    repeat split; try done.
    intros [|c1 k1] c2 k2; sapp.
    + intros [= -> ->]. sapp.
      destruct (Str.isspace c2) eqn:Ec2; [|done]. exfalso.
      change (Str.is_colon ":") with true in E.
      destruct (spaces_group_end_starts c2
                  (k2 +:+ ":" +:+ ws +:+ v) Ec2 Hr') as [g Hg].
      * simpl in Hnl. by apply andb_prop in Hnl as [_ ?].
      * sapp. by rewrite Hg in E.
    + intros [= -> ->]. by eapply Hmin.
Qed.

Lemma meta_key_app acc k' ws v :
  all_chars not_newline k' = true ->
  (forall k1 c k2,
     k' = k1 +:+ ":" +:+ String c k2 -> Str.isspace c = false) ->
  ws <> "" -> all_chars Str.isspace ws = true ->
  v <> "" -> all_chars not_newline v = true -> Str.strip v = v ->
  Str.meta_key acc (k' +:+ ":" +:+ ws +:+ v) = Some (acc +:+ k', v).
Proof.
  intros Hnl Hmin Hws Hsp Hv Hvn Hst. revert acc Hnl Hmin.
  induction k' as [|c k' IH]; intros acc Hnl Hmin; sapp.
  - simpl. change (Str.is_colon ":") with true.
    rewrite (spaces_group_end_app _ _ Hws Hsp Hv Hvn Hst).
    by rewrite string_app_nil_r.
  - simpl in *. apply andb_prop in Hnl as [Hc Hnl].
    assert ((if Str.is_colon c
             then Str.spaces_group_end (k' +:+ String ":" (ws +:+ v))
             else None) = None) as ->.
    { destruct (Str.is_colon c) eqn:Ecol; [|done].
      apply is_colon_eq in Ecol as ->.
      destruct k' as [|c2 k2]; sapp; [done|]. simpl.
      by rewrite (Hmin "" c2 k2 eq_refl). }
    unfold not_newline in Hc. apply negb_true_iff in Hc. rewrite Hc.
    rewrite IH; [by rewrite string_app_assoc|done|].
    intros k1 c2 k2 ->. by apply (Hmin (String c k1) c2 k2).
Qed.

Lemma re_meta_Some s kv :
  Str.re_meta s = Some kv ->
  exists c r,
    s = String "#" (String "+" (String c r)) /\
    Str.is_newline c = false /\
    Str.meta_key (String c "") r = Some kv.
Proof.
  destruct s as [|c0 s]; [done|].
  destruct c0 as [[] [] [] [] [] [] [] []]; try done.
  destruct s as [|c1 s]; [done|].
  destruct c1 as [[] [] [] [] [] [] [] []]; try done.
  destruct s as [|c s]; [done|]. simpl.
  destruct (Str.is_newline c) eqn:E; [done|]. eauto.
Qed.

(** X11. On a line with no newline inside, as the lines of a file are:
    the line is a metadata line with key [k] and value [v] exactly when,
    once stripped, it is "#+", the key, a colon, one or more whitespace
    characters and the value, where the key is not empty and ends at the
    first colon, after its first character, that whitespace follows, and
    the value is not empty and neither begins nor ends with whitespace.
    So a key keeps its own spaces and case, and a value may hold colons. *)
Theorem X11_meta_line_shape line k v :
  all_chars not_newline (Str.strip line) = true ->
  meta_entry line = Some (k, v) <->
  exists ws,
    Str.strip line = "#+" +:+ k +:+ ":" +:+ ws +:+ v /\
    k <> "" /\ ws <> "" /\ all_chars Str.isspace ws = true /\
    v <> "" /\ Str.strip v = v /\
    (forall k1 c k2,
       k = k1 +:+ ":" +:+ String c k2 -> k1 <> "" -> Str.isspace c = false).
Proof.
  intros Hnl. unfold meta_entry. split.
  - pose proof (rstrip_strip line) as Hr. intros H.
    apply re_meta_Some in H as (c & s & Hs & Hcn & H'). rewrite Hs in *.
    simpl in Hnl. apply andb_prop in Hnl as [Hc Hnl].
    destruct s as [|c' s']; [done|].
    apply (rstrip_suffix "#+" (String c (String c' s'))) in Hr as Hr1; [|done].
    apply (rstrip_suffix (String c "") (String c' s')) in Hr1; [|done].
    destruct (meta_key_Some _ _ _ _ H' Hr1 Hnl)
      as (k' & ws & -> & -> & Hws & Hsp & Hv & Hst & Hmin).
    exists ws. sapp. repeat split; try done.
    intros [|c1 k1] c2 k2; [done|]. sapp. intros [= -> ->] _. by eapply Hmin.
  - intros (ws & Hs & Hk & Hws & Hsp & Hv & Hst & Hmin).
    rewrite Hs in Hnl |- *. destruct k as [|c k']; [done|]. sapp.
    simpl in Hnl. rewrite !all_chars_app in Hnl. simpl in Hnl.
    apply andb_prop in Hnl as [Hc Hnl]. apply andb_prop in Hnl as [Hkn Hnl].
    rewrite all_chars_app in Hnl. apply andb_prop in Hnl as [_ Hvn].
    unfold Str.re_meta.
    unfold not_newline in Hc. apply negb_true_iff in Hc. rewrite Hc.
    assert (Str.meta_key (String c "") (k' +:+ ":" +:+ ws +:+ v)
            = Some (String c "" +:+ k', v)) as Hm.
    { apply meta_key_app; try done.
      intros k1 c2 k2 ->. by apply (Hmin (String c k1) c2 k2). }
    sapp. by rewrite Hm.
Qed.

Lemma no_colon_split k k1 r :
  all_chars (fun c => negb (Str.is_colon c)) k = true ->
  k <> k1 +:+ ":" +:+ r.
Proof.
  intros H ->. rewrite all_chars_app in H.
  apply andb_prop in H as [_ H]. sapp. by simpl in H.
Qed.

Lemma X11_witness :
  meta_entry "  #+My key: see: below  " = Some ("My key", "see: below") /\
  meta_entry "#+a:b" = None /\ meta_entry "#+: x" = None /\
  meta_entry "#+a::  b" = Some ("a:", "b").
Proof.
  split; [|by vm_compute].
  apply (X11_meta_line_shape "  #+My key: see: below  " "My key" "see: below");
    [by vm_compute|].
  exists " ". split; [by vm_compute|]. repeat split; try done.
  intros k1 c k2 Hk _. exfalso.
  apply (no_colon_split "My key" k1 (String c k2)); [by vm_compute|done].
Defined.

(** ** Branches of the exported tree *)

Lemma filter_fmap_eq {A B C : Type} (f : A -> C) (g : B -> C)
    (P : A -> Prop) (Q : B -> Prop) (R : C -> Prop)
    `{!forall x, Decision (P x)} `{!forall y, Decision (Q y)}
    (l1 : list A) (l2 : list B) :
  (forall x, P x <-> R (f x)) -> (forall y, Q y <-> R (g y)) ->
  f <$> l1 = g <$> l2 ->
  f <$> filter P l1 = g <$> filter Q l2.
Proof.
  intros HP HQ. revert l2. induction l1 as [|x l1 IH]; intros [|y l2] Heq;
    try done.
  rewrite !fmap_cons in Heq. injection Heq as Hxy Heq.
  rewrite !filter_cons.
  specialize (HP x). specialize (HQ y). rewrite Hxy in HP.
  repeat case_decide; try tauto; rewrite ?fmap_cons, ?Hxy; f_equal; auto.
Qed.

Lemma depths_pos lines : Forall (fun d => 1 <= d) (depths lines).
Proof.
  induction lines as [|line lines IH]; [constructor|].
  change (depths (line :: lines))
    with (match heading_depth line with
          | Some D => D :: depths lines
          | None => depths lines
          end).
  unfold heading_depth.
  destruct (Str.re_heading (Str.strip line)) as [[stars text]|] eqn:E; [|done].
  constructor; [by eapply stars_length|done].
Qed.

Lemma lvl_zero ds r :
  Forall (fun d => 1 <= d) ds -> (r <= length ds)%nat -> lvl ds r = 0 ->
  r = 0%nat.
Proof.
  intros Hds Hr H. destruct r as [|r]; [done|]. unfold lvl in H. simpl in H.
  destruct (lookup_lt_is_Some_2 ds r ltac:(lia)) as [d Hd].
  rewrite Hd in H. simpl in H. rewrite Forall_forall in Hds.
  apply list_elem_of_lookup_2 in Hd. specialize (Hds _ Hd). lia.
Qed.

Lemma loop_body_InvGap fuel ds st line w st' w' :
  InvTree ds st -> InvGap ds st ->
  loop_body fuel st line w = Ok (st', w') ->
  InvGap (ds ++ match heading_depth line with
                | Some D => [D]
                | None => []
                end) st'.
Proof.
  intros I He H. rewrite loop_body_eq in H.
  assert (InvGap ds (parse_meta (Str.strip line) st)) as Hm.
  { intros r cs c. destruct (parse_meta_shape (Str.strip line) st)
      as (m & h & -> & [->|[v ->]]); [apply He|]. simpl.
    unfold children_table. rewrite fmap_alter_same by done. apply He. }
  apply (InvTree_parse_meta _ _ (Str.strip line)) in I.
  unfold heading_depth.
  destruct (Str.re_heading (Str.strip line)) as [[stars text]|] eqn:E.
  - destruct (parse_heading_Ok _ _ _ _ _ _ _ _ _ I E H)
      as (HD & d & bg & dir & _ & _ & ->).
    set (D := Z.of_nat (String.length stars)) in *.
    set (st1 := parse_meta (Str.strip line) st) in *.
    pose proof (InvTree_forward _ _ I) as Hfw.
    assert (length (children_table (heap st1)) = S (length ds)) as Hlen'.
    { unfold children_table. rewrite length_fmap. by eapply heap_length. }
    intros r cs c Hr Hc k Hk. simpl in Hr.
    rewrite children_table_push in Hr by done.
    destruct (decide (r < S (length ds))%nat) as [Hlt|Hge].
    + rewrite lookup_app_l in Hr by (rewrite length_alter; lia).
      assert (forall cs0, children_table (heap st1) !! r = Some cs0 ->
                          c ∈ cs0 -> lvl (ds ++ [D]) c <= lvl (ds ++ [D]) k)
        as Hold.
      { intros cs0 E0 Hc0. specialize (Hfw _ _ E0).
        rewrite Forall_forall in Hfw. specialize (Hfw _ Hc0).
        rewrite !lvl_snoc_old by lia. by eapply Hm. }
      destruct (decide (r = nearest_shallower ds D)) as [->|Hne].
      * rewrite list_lookup_alter_eq in Hr.
        destruct (children_table (heap st1) !! nearest_shallower ds D)
          as [cs0|] eqn:E0; [|done].
        injection Hr as <-. apply elem_of_app in Hc as [Hc|Hc]; [by eauto|].
        apply list_elem_of_singleton in Hc as ->. rewrite Hlen' in *.
        rewrite lvl_snoc_new, lvl_snoc_old by lia.
        destruct k as [|k]; [lia|]. unfold lvl. simpl.
        destruct (lookup_lt_is_Some_2 ds k ltac:(lia)) as [dk Hdk].
        rewrite Hdk. simpl.
        destruct (nearest_shallower_spec ds D)
          as [[_ Hall]|(k0 & d0 & Hp & _ & _ & Hall)].
        -- by eapply Hall.
        -- eapply (Hall k); [lia|done].
      * rewrite list_lookup_alter_ne in Hr by done. by eauto.
    + rewrite lookup_app_r in Hr by (rewrite length_alter; lia).
      rewrite length_alter in Hr.
      destruct (r - length (children_table (heap st1)))%nat; [|done].
      injection Hr as <-. by apply elem_of_nil in Hc.
  - unfold parse_heading in H. rewrite E in H. apply ret_Ok in H as [-> _].
    by rewrite app_nil_r.
Qed.

Lemma org2mind_parse_InvGap fuel lines w st w' :
  org2mind_parse fuel lines w = Ok (st, w') -> InvGap (depths lines) st.
Proof.
  intros H. apply org2mind_parse_Ok in H as (c & w1 & st0 & Hc & -> & H).
  apply (foldM_invariant
           (fun before s _ =>
              InvTree (depths before) s /\ InvGap (depths before) s)
           fuel) with (done := []) in H.
  - by destruct H.
  - intros before s w2 line s' w3 [Is Hg] Hs.
    split; [by eapply loop_body_InvTree|].
    rewrite depths_snoc. by eapply loop_body_InvGap.
  - split; [apply InvTree_init|].
    intros [|r] cs x; [|done]. intros [= <-]. by intros ?%elem_of_nil.
Qed.

(** X12. In the exported tree, the nodes of level 1, taken in the order
    of the walk, have the directions "right", "left", "right", ...; the
    background colors of the root and of these nodes are the colors of so
    many calls of the allocator in a row: colors of the palette, each
    other than the one before it. *)
Theorem X12_first_level_branches room fuel lines w m w' :
  org2mind room fuel lines w = Ok (m, w') ->
  let branches := filter (fun j => js_level j = 1) (js_nodes (mind_data m)) in
  js_direction <$> branches = alternating (length branches) /\
  exists cs wc,
    random_colors fuel (S (length branches)) w = Ok (cs, wc) /\
    js_background_color <$> (mind_data m :: branches) = Some <$> cs /\
    Forall (fun c => c ∈ colors) cs /\
    adjacent_distinct cs.
Proof.
  intros H branches. apply org2mind_Ok in H as (st & data & H & Hd & ->).
  simpl in *.
  pose proof (export_nodes _ _ _ _ _ _ H Hd) as Hx.
  pose proof (org2mind_parse_InvTree _ _ _ _ _ H) as I.
  pose proof (org2mind_parse_InvColors _ _ _ _ _ H) as J.
  assert (js_attrs <$> branches = node_attrs <$> depth1 (heap st)) as Hb.
  { unfold branches, depth1.
    apply (filter_fmap_eq _ _ _ _ (fun a => a.1.1.1.1.1.1.2 = 1)); [|done..].
    by intros []. }
  assert (length branches = length (depth1 (heap st))) as Hlen.
  { apply (f_equal length) in Hb. by rewrite !length_fmap in Hb. }
  split.
  - rewrite Hlen, depth1_length.
    rewrite <- (inv_directions _ _ I), <- depth1_directions.
    transitivity ((fun a => a.1.1.2) <$> (js_attrs <$> branches)).
    + rewrite <- list_fmap_compose. apply list_fmap_ext. by intros i [] _.
    + by rewrite Hb, <- list_fmap_compose.
  - destruct (InvColors_backgrounds _ _ _ _ _ I J) as (cs & wc & Hcs & Hbg).
    exists cs, wc. rewrite Hlen. split; [done|].
    apply random_colors_Ok in Hcs as Hok.
    destruct Hok as (_ & Hall & Hadj & _). split; [|done].
    rewrite <- Hbg, fmap_app.
    assert (Node.background_color <$> take 1 (heap st)
            = [js_background_color data]) as ->.
    { transitivity ((fun a => a.1.2) <$> take 1 (node_attrs <$> heap st)).
      - by rewrite <- fmap_take, <- list_fmap_compose.
      - rewrite <- Hx. by destruct data. }
    simpl. f_equal.
    transitivity ((fun a => a.1.2) <$> (js_attrs <$> branches)).
    + rewrite <- list_fmap_compose. apply list_fmap_ext. by intros i [] _.
    + by rewrite Hb, <- list_fmap_compose.
Qed.

Lemma X12_witness :
  exists m w',
    org2mind demo_room 2 jump_doc demo_world = Ok (m, w') /\
    let branches := filter (fun j => js_level j = 1) (js_nodes (mind_data m)) in
    (js_direction <$> branches = alternating (length branches) /\
     exists cs wc,
       random_colors 2 (S (length branches)) demo_world = Ok (cs, wc) /\
       js_background_color <$> (mind_data m :: branches) = Some <$> cs /\
       Forall (fun c => c ∈ colors) cs /\
       adjacent_distinct cs) /\
    js_background_color <$> (mind_data m :: branches)
    = [Some "#5EBD3E"; Some "#FFB900"; Some "#F78200"].
Proof.
  eexists _, _. split; [vm_compute; reflexivity|]. split.
  - eapply (X12_first_level_branches demo_room 2 jump_doc demo_world).
    vm_compute. reflexivity.
  - vm_compute. reflexivity.
Defined.

(** X13. In the exported tree every child of a heading node has the
    background color of its parent, so each branch that starts at a node of
    level 1 is of one color, the color drawn for that node; a child of the
    root that is not of level 1 (a heading deeper than 1 before any heading
    of level 1) has no background color. *)
Theorem X13_branch_of_one_color room fuel lines w m w' :
  org2mind room fuel lines w = Ok (m, w') ->
  Forall (fun j =>
            1 <= js_level j ->
            Forall (fun c => js_background_color c = js_background_color j)
                   (js_children j))
         (js_nodes (mind_data m)) /\
  Forall (fun c => js_level c <> 1 -> js_background_color c = None)
         (js_children (mind_data m)).
Proof.
  intros H. apply org2mind_Ok in H as (st & data & H & Hd & ->). simpl.
  pose proof (org2mind_parse_InvTree _ _ _ _ _ H) as I.
  pose proof (org2mind_parse_InvGap _ _ _ _ _ H) as Hgap.
  apply org2mind_parse_nodes in H as (_ & _ & _ & Hedge).
  pose proof (heap_levels _ _ I) as Hlv.
  pose proof (InvTree_forward _ _ I) as Hfw.
  pose proof (heap_length _ _ I) as Hlen.
  assert (forall r n, heap st !! r = Some n ->
                      Node.level n = lvl (depths lines) r) as Hl.
  { intros r n Hr. unfold lvl. rewrite <- Hlv, list_lookup_fmap, Hr. done. }
  assert (forall j n, (1 <= j)%nat -> heap st !! j = Some n ->
            Node.background_color n
            = branch_color (take (S j) (view <$> heap st))) as Hbg.
  { intros j n Hj Hn.
    apply (inv_backgrounds _ _ I j (view n) Hj). by apply lookup_view. }
  assert (Forall (fun j =>
            Forall (fun c =>
                      (1 <= js_level j ->
                       js_background_color c = js_background_color j) /\
                      (js_level j = 0 -> js_level c <> 1 ->
                       js_background_color c = None))
                   (js_children j)) (js_nodes data)) as Hall.
  { eapply (asdict_edges
              (fun n nc =>
                 (1 <= Node.level n ->
                  Node.background_color nc = Node.background_color n) /\
                 (Node.level n = 0 -> Node.level nc <> 1 ->
                  Node.background_color nc = None))); [| |exact Hd].
    - intros r n c nc Hr Hc Hnc.
      assert (children_table (heap st) !! r = Some (Node.children n)) as Hch
        by (unfold children_table; by rewrite list_lookup_fmap, Hr).
      pose proof (Hedge _ _ _ Hch Hc) as Hlt.
      pose proof (Hgap _ _ _ Hch Hc) as Hge.
      specialize (Hfw _ _ Hch). rewrite Forall_forall in Hfw.
      specialize (Hfw _ Hc). unfold children_table in Hfw.
      rewrite length_fmap in Hfw.
      rewrite (Hl _ _ Hr), (Hl _ _ Hnc).
      assert (forall k nk, (r < k <= c)%nat -> heap st !! k = Some nk ->
                2 <= lvl (depths lines) c -> Node.level nk <> 1) as Hnone.
      { intros k nk Hk Hnk H2. rewrite (Hl _ _ Hnk).
        destruct (decide (k = c)) as [->|Hkc]; [lia|].
        specialize (Hge k ltac:(lia)). lia. }
      split.
      + intros H1.
        assert (1 <= r)%nat as Hr1.
        { destruct r; [|lia]. unfold lvl in H1. simpl in H1. lia. }
        rewrite (Hbg c nc) by (done || lia). rewrite (Hbg r n) by done.
        apply branch_color_stays; [lia|].
        intros k nk Hk Hnk. apply (Hnone k nk Hk Hnk). lia.
      + intros H0 Hc1.
        assert (r = 0%nat) as ->.
        { apply (lvl_zero (depths lines)); [apply depths_pos|lia|done]. }
        rewrite (Hbg c nc) by (done || lia).
        rewrite (branch_color_stays (heap st) 0 c); [|lia|].
        * pose proof (Hl _ _ Hr) as Hn0. unfold lvl in Hn0. simpl in Hn0.
          rewrite <- fmap_take. clear Hl Hbg Hnone.
          destruct (heap st) as [|n0 h]; [done|]. simpl in Hr.
          injection Hr as ->. simpl. unfold branch_color.
          rewrite filter_cons, filter_nil.
          rewrite decide_False; [done|]. unfold is_depth1. simpl. lia.
        * intros k nk Hk Hnk. apply (Hnone k nk Hk Hnk). lia.
    - intros n nc [] [] [HA HB] [= _ -> _ _ _ _ -> _] [= _ -> _ _ _ _ -> _].
      done. }
  split.
  - eapply Forall_impl; [exact Hall|]. intros j Hj H1.
    eapply Forall_impl; [exact Hj|]. intros c [Hc _]. by apply Hc.
  - assert (js_level data = 0) as H0.
    { apply asdict_attrs in Hd as (n & Hn & Ha).
      rewrite (inv_root _ _ I) in Hn. pose proof (Hl _ _ Hn) as Hn0.
      destruct data. injection Ha as _ -> _ _ _ _ _ _. done. }
    destruct data. simpl in *. apply Forall_cons in Hall as [Hroot _].
    simpl in Hroot. eapply Forall_impl; [exact Hroot|].
    intros c [_ Hc]. by apply Hc.
Qed.

Lemma X13_witness :
  exists m w',
    org2mind demo_room 2 jump_doc demo_world = Ok (m, w') /\
    (Forall (fun j =>
               1 <= js_level j ->
               Forall (fun c => js_background_color c = js_background_color j)
                      (js_children j))
            (js_nodes (mind_data m)) /\
     Forall (fun c => js_level c <> 1 -> js_background_color c = None)
            (js_children (mind_data m))) /\
    (fun j => (js_level j, js_background_color j)) <$> js_nodes (mind_data m)
    = [(0, Some "#5EBD3E"); (3, None); (1, Some "#FFB900");
       (4, Some "#FFB900"); (2, Some "#FFB900"); (2, Some "#FFB900");
       (3, Some "#FFB900"); (1, Some "#F78200")].
Proof.
  eexists _, _. split; [vm_compute; reflexivity|]. split.
  - eapply (X13_branch_of_one_color demo_room 2 jump_doc demo_world).
    vm_compute. reflexivity.
  - vm_compute. reflexivity.
Defined.

(** ** Children of one node *)

Lemma loop_body_InvSiblings fuel ds st line w st' w' :
  InvTree ds st -> InvSiblings ds st ->
  loop_body fuel st line w = Ok (st', w') ->
  InvSiblings (ds ++ match heading_depth line with
                     | Some D => [D]
                     | None => []
                     end) st'.
Proof.
  intros I He H. rewrite loop_body_eq in H.
  assert (InvSiblings ds (parse_meta (Str.strip line) st)) as Hm.
  { intros r cs. destruct (parse_meta_shape (Str.strip line) st)
      as (m & h & -> & [->|[v ->]]); [apply He|]. simpl.
    unfold children_table. rewrite fmap_alter_same by done. apply He. }
  apply (InvTree_parse_meta _ _ (Str.strip line)) in I.
  unfold heading_depth.
  destruct (Str.re_heading (Str.strip line)) as [[stars text]|] eqn:E.
  - destruct (parse_heading_Ok _ _ _ _ _ _ _ _ _ I E H)
      as (HD & d & bg & dir & _ & _ & ->).
    set (D := Z.of_nat (String.length stars)) in *.
    set (st1 := parse_meta (Str.strip line) st) in *.
    pose proof (InvTree_forward _ _ I) as Hfw.
    assert (length (children_table (heap st1)) = S (length ds)) as Hlen'.
    { unfold children_table. rewrite length_fmap. by eapply heap_length. }
    intros r cs i a b Hr Ha Hb. simpl in Hr.
    rewrite children_table_push in Hr by done.
    destruct (decide (r < S (length ds))%nat) as [Hlt|Hge].
    + rewrite lookup_app_l in Hr by (rewrite length_alter; lia).
      assert (forall cs0, children_table (heap st1) !! r = Some cs0 ->
                cs0 !! i = Some a -> cs0 !! S i = Some b ->
                lvl (ds ++ [D]) b <= lvl (ds ++ [D]) a) as Hold.
      { intros cs0 E0 Ha0 Hb0. specialize (Hfw _ _ E0).
        rewrite Forall_forall in Hfw.
        pose proof (Hfw _ (list_elem_of_lookup_2 _ _ _ Ha0)).
        pose proof (Hfw _ (list_elem_of_lookup_2 _ _ _ Hb0)).
        rewrite !lvl_snoc_old by lia. by eapply Hm. }
      destruct (decide (r = nearest_shallower ds D)) as [->|Hne].
      * rewrite list_lookup_alter_eq in Hr.
        destruct (children_table (heap st1) !! nearest_shallower ds D)
          as [cs0|] eqn:E0; [|done].
        injection Hr as <-.
        destruct (decide (S i < length cs0)%nat) as [Hi|Hi].
        -- rewrite lookup_app_l in Ha, Hb by lia. by eauto.
        -- pose proof (lookup_lt_Some _ _ _ Hb) as Hb'.
           rewrite length_app in Hb'. simpl in Hb'.
           rewrite lookup_app_l in Ha by lia.
           rewrite lookup_app_r in Hb by lia.
           replace (S i - length cs0)%nat with 0%nat in Hb by lia.
           injection Hb as <-. rewrite Hlen'.
           specialize (Hfw _ _ E0). rewrite Forall_forall in Hfw.
           pose proof (Hfw _ (list_elem_of_lookup_2 _ _ _ Ha)) as Hap.
           rewrite Hlen' in Hap.
           rewrite lvl_snoc_new, lvl_snoc_old by lia.
           destruct a as [|a]; [lia|]. unfold lvl. simpl.
           destruct (lookup_lt_is_Some_2 ds a ltac:(lia)) as [da Hda].
           rewrite Hda. simpl.
           destruct (nearest_shallower_spec ds D)
             as [[_ Hall]|(k0 & d0 & Hp & _ & _ & Hall)].
           ++ by eapply Hall.
           ++ eapply (Hall a); [lia|done].
      * rewrite list_lookup_alter_ne in Hr by done. by eauto.
    + rewrite lookup_app_r in Hr by (rewrite length_alter; lia).
      rewrite length_alter in Hr.
      destruct (r - length (children_table (heap st1)))%nat; [|done].
      by injection Hr as <-.
  - unfold parse_heading in H. rewrite E in H. apply ret_Ok in H as [-> _].
    by rewrite app_nil_r.
Qed.

Lemma org2mind_parse_InvSiblings fuel lines w st w' :
  org2mind_parse fuel lines w = Ok (st, w') -> InvSiblings (depths lines) st.
Proof.
  intros H. apply org2mind_parse_Ok in H as (c & w1 & st0 & Hc & -> & H).
  apply (foldM_invariant
           (fun before s _ =>
              InvTree (depths before) s /\ InvSiblings (depths before) s)
           fuel) with (done := []) in H.
  - by destruct H.
  - intros before s w2 line s' w3 [Is Hg] Hs.
    split; [by eapply loop_body_InvTree|].
    rewrite depths_snoc. by eapply loop_body_InvSiblings.
  - split; [apply InvTree_init|].
    intros [|r] cs i a b; [|done]. by intros [= <-].
Qed.

Lemma asdict_siblings
    (R : Node.t -> Node.t -> Prop) (R' : jsnode -> jsnode -> Prop)
    depth (h : list Node.t) x j :
  (forall r n i a b na nb,
     h !! r = Some n ->
     Node.children n !! i = Some a -> Node.children n !! S i = Some b ->
     h !! a = Some na -> h !! b = Some nb -> R na nb) ->
  (forall na nb ja jb,
     R na nb -> js_attrs ja = node_attrs na -> js_attrs jb = node_attrs nb ->
     R' ja jb) ->
  asdict depth h x = Some j ->
  Forall (fun j' =>
            forall i ja jb,
              js_children j' !! i = Some ja ->
              js_children j' !! S i = Some jb -> R' ja jb)
         (js_nodes j).
Proof.
  intros HR HR'. revert x j.
  induction depth as [|depth IH]; intros x j H; [done|].
  simpl in H. destruct (h !! x) as [n|] eqn:Ex; [|done].
  destruct (mapM (asdict depth h) (Node.children n)) as [cs|] eqn:Ecs; [|done].
  injection H as <-. apply mapM_Some in Ecs. apply Forall_js_nodes.
  - simpl. intros i ja jb Hja Hjb.
    destruct (Forall2_lookup_r _ _ _ _ _ Ecs Hja) as (a & Ha & Haj).
    destruct (Forall2_lookup_r _ _ _ _ _ Ecs Hjb) as (b & Hb & Hbj).
    apply asdict_attrs in Haj as (na & Hna & Haa).
    apply asdict_attrs in Hbj as (nb & Hnb & Hab).
    eapply HR'; [|exact Haa|exact Hab].
    exact (HR _ _ _ _ _ _ _ Ex Ha Hb Hna Hnb).
  - clear Ex. induction Ecs as [|c y l k Hc _ IHl]; constructor; eauto.
Qed.

(** X14. In the exported tree, from one child of a node to the next the
    level never goes up: a child is at most as deep as the child before
    it. With the order of the walk and the levels of parents and children
    this tells where a subtree ends: at the first node that is not deeper
    than its root. *)
Theorem X14_sibling_levels_never_rise room fuel lines w m w' :
  org2mind room fuel lines w = Ok (m, w') ->
  Forall (fun j =>
            forall i a b,
              js_children j !! i = Some a -> js_children j !! S i = Some b ->
              js_level b <= js_level a)
         (js_nodes (mind_data m)).
Proof.
  intros H. apply org2mind_Ok in H as (st & data & H & Hd & ->). simpl.
  pose proof (org2mind_parse_InvTree _ _ _ _ _ H) as I.
  apply org2mind_parse_InvSiblings in H as Hs.
  pose proof (heap_levels _ _ I) as Hlv.
  assert (forall r n, heap st !! r = Some n ->
                      Node.level n = lvl (depths lines) r) as Hl.
  { intros r n Hr. unfold lvl. rewrite <- Hlv, list_lookup_fmap, Hr. done. }
  eapply (asdict_siblings (fun na nb => Node.level nb <= Node.level na));
    [| |done].
  - intros r n i a b na nb Hr Ha Hb Hna Hnb.
    rewrite (Hl _ _ Hna), (Hl _ _ Hnb).
    eapply (Hs r (Node.children n) i); [|done..].
    unfold children_table. by rewrite list_lookup_fmap, Hr.
  - intros na nb [] [] Hle [= _ -> _ _ _ _ _ _] [= _ -> _ _ _ _ _ _]. done.
Qed.

Lemma X14_witness :
  exists m w',
    org2mind demo_room 2 jump_doc demo_world = Ok (m, w') /\
    Forall (fun j =>
              forall i a b,
                js_children j !! i = Some a -> js_children j !! S i = Some b ->
                js_level b <= js_level a)
           (js_nodes (mind_data m)) /\
    js_level <$> js_children (mind_data m) = [3; 1; 1].
Proof.
  eexists _, _. split; [vm_compute; reflexivity|]. split.
  - eapply (X14_sibling_levels_never_rise demo_room 2 jump_doc demo_world).
    vm_compute. reflexivity.
  - vm_compute. reflexivity.
Defined.

(** ** The allocator that never returns *)

(** X15. When every draw to come gives the color of the call before, a
    call of the allocator does not return and raises nothing, however long
    it runs: the loop has no other way out. *)
Theorem X15_allocator_stuck_never_returns fuel w :
  (forall i,
     colors !! (rng w (rng_pos w + i)%nat mod length colors)%nat
     = last_color w) ->
  random_color fuel w = Diverge.
Proof.
  destruct w as [r p last e u]. cbn [rng rng_pos last_color]. intros Hall.
  pose proof (random_color_no_raise fuel (mkWorld r p last e u)) as Hr.
  destruct (random_color fuel (mkWorld r p last e u)) as [[c w']|x|] eqn:E;
    [|by destruct (Hr x)|done].
  exfalso. unfold random_color in E. inv_bind E.
  apply random_color_loop_first in E0 as (k & _ & _ & Hc & Hne & _).
  rewrite Hall in Hc. done.
Qed.

Lemma X15_witness :
  random_color 1000
    (mkWorld (fun _ => 7%nat) 3 (Some "#FFB900") demo_uuid 0) = Diverge.
Proof.
  apply (X15_allocator_stuck_never_returns 1000
           (mkWorld (fun _ => 7%nat) 3 (Some "#FFB900") demo_uuid 0)).
  intros i. vm_compute. reflexivity.
Defined.

(** ** The levels of the tree and the recursion limit *)

Lemma level_stack_snoc ds D :
  level_stack (ds ++ [D]) = push_level (level_stack ds) D.
Proof. unfold level_stack. by rewrite fold_left_app. Qed.

Lemma filter_fmap_comm {A B : Type} (f : A -> B) (P : B -> Prop)
    `{!forall y, Decision (P y)} (l : list A) :
  filter P (f <$> l) = f <$> filter (fun x => P (f x)) l.
Proof.
  induction l as [|x l IH]; [done|].
  rewrite fmap_cons, !filter_cons, IH. by case_decide.
Qed.

Lemma increasing_tail f x l : increasing f (x :: l) -> increasing f l.
Proof. intros H i j a b Hij Ha Hb. apply (H (S i) (S j)); [lia|done..]. Qed.

(** What a heading takes off a stack where the level goes up is its top. *)
Lemma filter_increasing_take f D l :
  increasing f l ->
  filter (fun x => f x < D) l
  = take (length (filter (fun x => f x < D) l)) l.
Proof.
  induction l as [|x l IH]; intros Hl; [done|].
  rewrite filter_cons. case_decide as Hx.
  - simpl. f_equal. apply IH. by eapply increasing_tail.
  - rewrite (filter_none _ l); [done|].
    apply Forall_lookup_2. intros k y Hy.
    pose proof (Hl 0%nat (S k) x y ltac:(lia) eq_refl Hy). lia.
Qed.

Lemma asdict_down dep (h : list Node.t) :
  forward (children_table h) ->
  dep 0%nat = 0%nat ->
  (forall r cs c,
     children_table h !! r = Some cs -> c ∈ cs -> dep c = S (dep r)) ->
  (forall c, (1 <= c < length h)%nat ->
     exists r cs, children_table h !! r = Some cs /\ c ∈ cs) ->
  forall y, (y < length h)%nat ->
    forall k, is_Some (asdict (dep y + k) h 0) -> is_Some (asdict k h y).
Proof.
  intros Hfw H0 Hedge Hpar y.
  induction y as [y IH] using lt_wf_ind. intros Hy k Hk.
  destruct y as [|y]; [by rewrite H0 in Hk|].
  destruct (Hpar (S y) ltac:(lia)) as (r & cs & Hr & Hc).
  pose proof (Hfw _ _ Hr) as Hlt. rewrite Forall_forall in Hlt.
  specialize (Hlt _ Hc). rewrite (Hedge _ _ _ Hr Hc) in Hk.
  replace (S (dep r) + k)%nat with (dep r + S k)%nat in Hk by lia.
  apply (IH r) in Hk; [|lia|lia]. destruct Hk as [j Hj]. simpl in Hj.
  unfold children_table in Hr. rewrite list_lookup_fmap in Hr.
  destruct (h !! r) as [n|]; [|done]. injection Hr as <-.
  destruct (mapM (asdict k h) (Node.children n)) as [js|] eqn:E; [|done].
  apply mapM_Some in E. apply list_elem_of_lookup_1 in Hc as [i Hi].
  destruct (Forall2_lookup_l _ _ _ _ _ E Hi) as (jc & _ & Hjc). eauto.
Qed.

Lemma asdict_up dep (h : list Node.t) d :
  forward (children_table h) ->
  (forall r cs c,
     children_table h !! r = Some cs -> c ∈ cs -> dep c = S (dep r)) ->
  (forall y, (y < length h)%nat -> (dep y < d)%nat) ->
  forall k x, (x < length h)%nat -> (dep x + k = d)%nat ->
              is_Some (asdict k h x).
Proof.
  intros Hfw Hedge Hd k.
  induction k as [|k IH]; intros x Hx Hk.
  - specialize (Hd _ Hx). lia.
  - simpl. destruct (lookup_lt_is_Some_2 h x Hx) as [n Hn]. rewrite Hn.
    assert (is_Some (mapM (asdict k h) (Node.children n))) as [cs ->];
      [|by eauto].
    assert (children_table h !! x = Some (Node.children n)) as Hch
      by (unfold children_table; by rewrite list_lookup_fmap, Hn).
    apply mapM_is_Some, Forall_forall. intros c Hc.
    pose proof (Hfw _ _ Hch) as Hlt. rewrite Forall_forall in Hlt.
    specialize (Hlt _ Hc). unfold children_table in Hlt.
    rewrite length_fmap in Hlt.
    apply IH; [lia|]. rewrite (Hedge _ _ _ Hch Hc). lia.
Qed.

(** The export has room exactly when the tree has no more levels than
    [room]. *)
Lemma asdict_room ds dep st room :
  InvTree ds st -> InvDepth ds dep st ->
  is_Some (asdict room (heap st) (root st))
  <-> ((level_stack ds).2 <= room)%nat.
Proof.
  intros I J. pose proof (InvTree_forward _ _ I) as Hfw.
  rewrite (inv_root _ _ I). split.
  - intros H. destruct (dep_max _ _ _ J) as (x & Hx & <-).
    destruct (decide (dep x < room)%nat) as [|Hge]; [lia|]. exfalso.
    destruct H as [j Hj].
    apply (asdict_mono _ (dep x + 0)) in Hj; [|lia].
    destruct (asdict_down dep (heap st) Hfw (dep_root _ _ _ J)
                (dep_edge _ _ _ J) (dep_parent _ _ _ J) x Hx 0%nat)
      as [j' Hj']; [by eauto|done].
  - intros Hle.
    apply (asdict_up dep (heap st) room Hfw (dep_edge _ _ _ J)).
    + intros y Hy. pose proof (dep_bound _ _ _ J y Hy). lia.
    + rewrite (heap_length _ _ I). lia.
    + by rewrite (dep_root _ _ _ J).
Qed.

Lemma InvDepth_heap ds dep st st' :
  children_table (heap st') = children_table (heap st) ->
  stack st' = stack st ->
  InvDepth ds dep st -> InvDepth ds dep st'.
Proof.
  intros Hch Hs [J1 J2 J3 J4 J5 J6 J7 J8].
  assert (length (heap st') = length (heap st)) as Hlen.
  { apply (f_equal length) in Hch. unfold children_table in Hch.
    by rewrite !length_fmap in Hch. }
  split; rewrite ?Hch, ?Hs, ?Hlen; done.
Qed.

Lemma InvDepth_parse_meta ds dep line st :
  InvDepth ds dep st -> InvDepth ds dep (parse_meta line st).
Proof.
  apply InvDepth_heap.
  - destruct (parse_meta_shape line st) as (m & h & -> & [->|[v ->]]);
      [done|]. by apply fmap_alter_same.
  - by destruct (parse_meta_shape line st) as (m & h & -> & _).
Qed.

Lemma InvDepth_push ds dep st D n m bg dir :
  InvTree ds st -> InvDepth ds dep st -> 1 <= D -> Node.children n = [] ->
  InvDepth (ds ++ [D])
    (fun x => if decide (x = length (heap st))
              then S (dep (nearest_shallower ds D)) else dep x)
    (mkFrame m bg dir D (root st)
       (filter (fun x => lvl ds x < D) (stack st) ++ [length (heap st)])
       (alter (Node.add_child (length (heap st)))
              (nearest_shallower ds D) (heap st) ++ [n])).
Proof.
  intros I J HD Hn. pose proof (InvTree_forward _ _ I) as Hfw.
  pose proof (heap_length _ _ I) as Hlen.
  pose proof (inv_parent _ _ I D HD) as Hp.
  set (p := nearest_shallower ds D) in *.
  set (ch := children_table (heap st)) in *.
  set (F := filter (fun x => lvl ds x < D) (stack st)) in *.
  assert (length ch = S (length ds)) as Hlen'
    by (unfold ch, children_table; by rewrite length_fmap).
  assert (F = take (length F) (stack st)) as HF
    by (apply filter_increasing_take, (dep_incr _ _ _ J)).
  assert (forall x, x ∈ F -> (x <= length ds)%nat /\ lvl ds x < D) as HinF.
  { intros x [Hx Hxs]%list_elem_of_filter. split; [|done].
    pose proof (stack_dom _ _ _ I Hxs). lia. }
  assert (forall i x, F !! i = Some x -> dep x = i) as HdepF.
  { intros i x Hi. rewrite HF in Hi.
    apply lookup_take_Some in Hi as [Hi _]. by apply (dep_stack _ _ _ J). }
  assert (1 <= length F)%nat as HF1 by (destruct F; [done|simpl; lia]).
  assert (S (dep p) = length F) as Hdp.
  { rewrite last_lookup in Hp. apply HdepF in Hp. lia. }
  assert (p <= length ds)%nat as Hple.
  { apply HinF. rewrite last_lookup in Hp. by eapply list_elem_of_lookup_2. }
  destruct (lookup_lt_is_Some_2 ch p ltac:(lia)) as [cs0 Hcs0].
  assert (lvl (ds ++ [D]) <$> F = lvl ds <$> F) as HlvF.
  { apply list_fmap_ext. intros i x Hx. apply lvl_snoc_old.
    by apply HinF, (list_elem_of_lookup_2 _ i). }
  assert (length (filter (fun l => l < D) (level_stack ds).1) = length F)
    as HlenF.
  { rewrite <- (dep_levels _ _ _ J), filter_fmap_comm. by rewrite length_fmap. }
  assert ((level_stack (ds ++ [D])).2
          = Nat.max (level_stack ds).2 (S (length F))) as Hmax.
  { rewrite level_stack_snoc. unfold push_level. simpl.
    rewrite length_app, HlenF. simpl. by rewrite Nat.add_1_r. }
  split; simpl; rewrite ?children_table_push by done; fold ch.
  - rewrite decide_False by lia. apply (dep_root _ _ _ J).
  - intros r cs c Hr Hc.
    destruct (decide (r < S (length ds))%nat) as [Hlt|Hge].
    + rewrite lookup_app_l in Hr by (rewrite length_alter; lia).
      rewrite (decide_False (P := r = length (heap st))) by lia.
      assert (forall cs', ch !! r = Some cs' -> c ∈ cs' ->
                (if decide (c = length (heap st)) then S (dep p) else dep c)
                = S (dep r)) as Hold.
      { intros cs' Hcs' Hc'. pose proof (Hfw _ _ Hcs') as Hb.
        rewrite Forall_forall in Hb. specialize (Hb _ Hc').
        rewrite decide_False by lia. by eapply (dep_edge _ _ _ J). }
      destruct (decide (r = p)) as [->|Hne].
      * rewrite list_lookup_alter_eq, Hcs0 in Hr. injection Hr as <-.
        apply elem_of_app in Hc as [Hc|Hc]; [by eauto|].
        apply list_elem_of_singleton in Hc as ->.
        rewrite decide_True by lia. done.
      * rewrite list_lookup_alter_ne in Hr by done. by eauto.
    + rewrite lookup_app_r in Hr by (rewrite length_alter; lia).
      rewrite length_alter in Hr.
      destruct (r - length ch)%nat; [|done].
      injection Hr as <-. by apply elem_of_nil in Hc.
  - intros c Hc. rewrite length_app, length_alter in Hc. simpl in Hc.
    destruct (decide (c = length (heap st))) as [->|Hne].
    + exists p, (cs0 ++ [length ch]).
      rewrite lookup_app_l by (rewrite length_alter; lia).
      rewrite list_lookup_alter_eq, Hcs0. split; [done|].
      apply elem_of_app. right. rewrite Hlen', Hlen. by left.
    + destruct (dep_parent _ _ _ J c ltac:(lia)) as (r & cs & Hr & Hcin).
      fold ch in Hr. pose proof (lookup_lt_Some _ _ _ Hr) as Hrlt.
      destruct (decide (r = p)) as [->|Hrp].
      * exists p, (cs ++ [length ch]).
        rewrite lookup_app_l by (rewrite length_alter; lia).
        rewrite list_lookup_alter_eq, Hr. split; [done|].
        apply elem_of_app. by left.
      * exists r, cs.
        rewrite lookup_app_l by (rewrite length_alter; lia).
        by rewrite list_lookup_alter_ne.
  - intros i x Hi.
    destruct (decide (i < length F)%nat) as [Hlt|Hge].
    + rewrite lookup_app_l in Hi by done.
      pose proof (HinF x (list_elem_of_lookup_2 _ _ _ Hi)) as [Hx _].
      rewrite decide_False by lia. by apply HdepF.
    + rewrite lookup_app_r in Hi by lia.
      destruct (i - length F)%nat as [|k] eqn:Ek; [|done].
      injection Hi as <-. rewrite decide_True by done. lia.
  - intros i j a b Hij Ha Hb.
    pose proof (lookup_lt_Some _ _ _ Hb) as Hjlt.
    rewrite length_app in Hjlt. simpl in Hjlt.
    rewrite lookup_app_l in Ha by lia.
    pose proof (HinF a (list_elem_of_lookup_2 _ _ _ Ha)) as [Hale HaD].
    rewrite (lvl_snoc_old _ _ a) by done.
    destruct (decide (j < length F)%nat) as [Hlt|Hge].
    + rewrite lookup_app_l in Hb by done.
      pose proof (HinF b (list_elem_of_lookup_2 _ _ _ Hb)) as [Hble _].
      rewrite (lvl_snoc_old _ _ b) by done.
      rewrite HF in Ha, Hb.
      apply lookup_take_Some in Ha as [Ha _].
      apply lookup_take_Some in Hb as [Hb _].
      by apply (dep_incr _ _ _ J i j).
    + rewrite lookup_app_r in Hb by lia.
      destruct (j - length F)%nat; [|done]. injection Hb as <-.
      by rewrite Hlen, lvl_snoc_new.
  - rewrite fmap_app, HlvF. simpl. rewrite Hlen, lvl_snoc_new.
    rewrite level_stack_snoc. unfold push_level. simpl. f_equal.
    by rewrite <- (dep_levels _ _ _ J), filter_fmap_comm.
  - intros x Hx. rewrite length_app, length_alter in Hx. simpl in Hx.
    rewrite Hmax. case_decide.
    + lia.
    + pose proof (dep_bound _ _ _ J x ltac:(lia)). lia.
  - rewrite Hmax, length_app, length_alter. simpl.
    destruct (Nat.max_spec (level_stack ds).2 (S (length F)))
      as [[_ ->]|[_ ->]].
    + exists (length (heap st)). rewrite decide_True by done. lia.
    + destruct (dep_max _ _ _ J) as (x & Hx & Hdx). exists x.
      rewrite decide_False by lia. lia.
Qed.

Lemma loop_body_InvDepth fuel ds dep st line w st' w' :
  InvTree ds st -> InvDepth ds dep st ->
  loop_body fuel st line w = Ok (st', w') ->
  exists dep',
    InvDepth (ds ++ match heading_depth line with
                    | Some D => [D]
                    | None => []
                    end) dep' st'.
Proof.
  intros I J H. rewrite loop_body_eq in H.
  apply (InvDepth_parse_meta _ _ (Str.strip line)) in J.
  apply (InvTree_parse_meta _ _ (Str.strip line)) in I.
  unfold heading_depth.
  destruct (Str.re_heading (Str.strip line)) as [[stars0 text]|] eqn:E.
  - destruct (parse_heading_Ok _ _ _ _ _ _ _ _ _ I E H)
      as (HD & d & bg & dir & _ & _ & ->).
    eexists. by apply InvDepth_push.
  - unfold parse_heading in H. rewrite E in H. apply ret_Ok in H as [-> _].
    exists dep. by rewrite app_nil_r.
Qed.

Lemma org2mind_parse_InvDepth fuel lines w st w' :
  org2mind_parse fuel lines w = Ok (st, w') ->
  exists dep, InvDepth (depths lines) dep st.
Proof.
  intros H. apply org2mind_parse_Ok in H as (c & w1 & st0 & Hc & -> & H).
  apply (foldM_invariant
           (fun before s _ =>
              InvTree (depths before) s /\
              exists dep, InvDepth (depths before) dep s)
           fuel) with (done := []) in H.
  - by destruct H.
  - intros before s w2 line s' w3 [Is [dep Hd]] Hs.
    split; [by eapply loop_body_InvTree|].
    rewrite depths_snoc. by eapply loop_body_InvDepth.
  - split; [apply InvTree_init|]. exists (fun _ => 0%nat).
    split; simpl; try done.
    + by intros [|r] cs x; [intros [= <-] ?%elem_of_nil|].
    + intros x Hx. lia.
    + by intros [|i] x; [intros [= <-]|].
    + intros [|i] [|j] a b Hij Ha Hb; try done; lia.
    + exists 0%nat. split; [lia|done].
Qed.

(** The export of a parsed document returns exactly when the interpreter
    has room for the levels of its tree. *)
Lemma export_room fuel lines w st w' room :
  org2mind_parse fuel lines w = Ok (st, w') ->
  is_Some (asdict room (heap st) (root st)) <-> (levels lines <= room)%nat.
Proof.
  intros H. pose proof (org2mind_parse_InvTree _ _ _ _ _ H) as I.
  destruct (org2mind_parse_InvDepth _ _ _ _ _ H) as [dep J].
  by apply (asdict_room _ dep).
Qed.

(** X1. The conversion never raises [IndexError]: [stack[-1]] and
    [directions[direction]] are never out of range and [random.choice]
    never gets an empty palette. The one exception it can raise is the
    [RecursionError] of the export, and it raises it exactly when the
    parse has returned and the tree has more levels than the interpreter
    has room for. *)
Theorem X1_only_the_export_can_raise room fuel lines w :
  org2mind room fuel lines w <> Raise IndexError /\
  (org2mind room fuel lines w = Raise RecursionError <->
   (exists st w', org2mind_parse fuel lines w = Ok (st, w')) /\
   (room < levels lines)%nat).
Proof.
  unfold org2mind, bind.
  pose proof (org2mind_parse_no_raise fuel lines w) as Hp.
  destruct (org2mind_parse fuel lines w) as [[st w']|e|] eqn:E.
  - pose proof (export_room _ _ _ _ _ room E) as Hroom.
    destruct (asdict room (heap st) (root st)) as [data|].
    + split; [done|]. split; [done|]. intros [_ Hlt].
      assert (levels lines <= room)%nat by (apply Hroom; eauto). lia.
    + split; [done|]. split; [|done]. intros _. split; [by eauto|].
      destruct (decide (levels lines <= room)%nat) as [Hle|]; [|lia].
      apply Hroom in Hle. by destruct Hle.
  - by destruct (Hp e).
  - split; [done|]. split; [done|]. by intros [(st & w' & ?) _].
Qed.

(** What an interpreter with room for 332 levels does with 331 and with
    332 headings one under the other. *)
Example levels_chain_doc :
  levels (chain_doc 331) = 332%nat /\ levels (chain_doc 332) = 333%nat.
Proof. split; vm_compute; reflexivity. Qed.

Example main_chain_doc_331 :
  result_map (fun _ => tt)
             (main demo_mt demo_uuid demo_room 2 0 (chain_doc 331))
  = Ok tt.
Proof. vm_compute. reflexivity. Qed.

Example main_chain_doc_332 :
  main demo_mt demo_uuid demo_room 2 0 (chain_doc 332)
  = Raise RecursionError.
Proof. vm_compute. reflexivity. Qed.

(** ** Termination (C8) *)





